(** * rowconv: mapping database/sql rows into slices of basic values and structs

    A shallow embedding of the mapping engine of package [rowconv]
    (Propagate, the accessor resolver, the struct provider, the scan
    definition cache and the two row mappers), with the reflected Go types
    as an inductive type, the Go values as trees, and the row stream of
    database/sql as a record. *)

From stdpp Require Import gmap strings list fin_maps.
From Stdlib Require Import ZArith Ascii.
Set Warnings "-register-all".

(** ** Reflected types *)

Module reflect.

(** [reflect.Kind], in the order of the Go declaration. *)
Inductive Kind :=
| Invalid | Bool | Int | Int8 | Int16 | Int32 | Int64
| Uint | Uint8 | Uint16 | Uint32 | Uint64 | Uintptr
| Float32 | Float64 | Complex64 | Complex128
| Array | Chan | Func | Interface | Map | Ptr | Slice | String | Struct
| UnsafePointer.

End reflect.

(** [reflect.StructField]: the declared name, whether the field is
    embedded, the result of [field.Tag.Lookup(DbColumn)] and the field's
    type. *)
Record StructField (T : Type) := mkField {
  Name : string;
  Anonymous : bool;
  Tag : option string;
  Typ : T
}.
Arguments mkField {T}.
Arguments Name {T}.
Arguments Anonymous {T}.
Arguments Tag {T}.
Arguments Typ {T}.

(** [reflect.Type].  Pointers, slices and structs carry their structure;
    every other kind is opaque.  A struct type is identified by its name,
    whether its method set has [Scan] (so that it implements [sql.Scanner])
    and its fields.  The types are finite trees: a self-referential struct
    type has no counterpart here. *)
Inductive type :=
| Opaque (k : reflect.Kind)
| PtrTo (elem : type)
| SliceOf (elem : type)
| StructOf (name : string) (scanner : bool) (fields : list (StructField type)).

(** [t.Kind()].  An opaque type is never of pointer, slice or struct kind. *)
Definition Kind (t : type) : reflect.Kind :=
  match t with
  | Opaque reflect.Ptr | Opaque reflect.Slice | Opaque reflect.Struct => reflect.Invalid
  | Opaque k => k
  | PtrTo _ => reflect.Ptr
  | SliceOf _ => reflect.Slice
  | StructOf _ _ _ => reflect.Struct
  end.

#[global] Instance Kind_eq_dec : EqDecision reflect.Kind.
Proof. solve_decision. Defined.

Lemma type_eq_dec (a b : type) : {a = b} + {a <> b}.
Proof.
  revert a b. fix IH 1. intros a b. decide equality;
    try match goal with
        | |- {?x = ?y} + {_} => exact (decide (x = y))
        end.
  apply List.list_eq_dec. intros x y. decide equality;
    match goal with
    | |- {?x = ?y} + {_} => exact (decide (x = y))
    end.
Defined.

#[global] Instance type_eq_decision : EqDecision type := type_eq_dec.

(** Induction over types that reaches the types of the fields. *)
Lemma type_fields_ind (P : type -> Prop) :
  (forall k, P (Opaque k)) ->
  (forall e, P e -> P (PtrTo e)) ->
  (forall e, P e -> P (SliceOf e)) ->
  (forall n s fs, Forall (fun f => P (Typ f)) fs -> P (StructOf n s fs)) ->
  forall t, P t.
Proof.
  intros HO HP HS HT. fix IH 1. intros [k|e|e|n s fs].
  - apply HO.
  - apply HP, IH.
  - apply HS, IH.
  - apply HT. induction fs as [|f fs IHfs]; constructor; [apply IH | exact IHfs].
Qed.

(** ** Results of calls *)

(** The errors the package and the row stream report. *)
Inductive error :=
| ErrDriver (msg : string)
    (* an error of the row stream: ColumnTypes, Err or Close *)
| ErrPointerToSliceExpected (received : type)
| ErrUnsupportedType (t : type)
| ErrNotStruct (k : reflect.Kind)
    (* "underline type is not a struct" *)
| ErrTypeCheck (column : string) (fieldType scanType : type)
    (* "value for column/alias ... can't be stored into the type" *)
| ErrNoMapping (column : string)
    (* "no mapping exists for column/alias" *)
| ErrHolderNotImplemented
    (* "not implemented: holder for type" *)
| ErrScanArity (expected got : nat)
    (* "sql: expected n destination arguments in Scan, not m" *)
| ErrScan (column : nat).
    (* "sql: Scan error on column index i" *)

(** What a call does: it returns a value, returns an error, panics, or
    never returns. *)
Inductive outcome (A : Type) :=
| Ok (a : A)
| Fail (e : error)
| Panic
| Hang.
Arguments Ok {A}.
Arguments Fail {A}.
Arguments Panic {A}.
Arguments Hang {A}.

#[global] Instance outcome_bind : MBind outcome := fun A B f x =>
  match x with
  | Ok a => f a
  | Fail e => Fail e
  | Panic => Panic
  | Hang => Hang
  end.

#[global] Instance outcome_ret : MRet outcome := fun A a => Ok a.

(** ** strings.ToLower, on ASCII letters *)

Definition lowerAscii (c : ascii) : ascii :=
  let n := nat_of_ascii c in
  if (65 <=? n)%nat && (n <=? 90)%nat then ascii_of_nat (n + 32) else c.

Fixpoint ToLower (s : string) : string :=
  match s with
  | EmptyString => EmptyString
  | String c rest => String (lowerAscii c) (ToLower rest)
  end.

(** ** Shape classification *)

Section Classification.

(** The registry [smallestStructDecompositions] at the time of the call. *)
Variable smallestStructDecompositions : list type.

(** [t.Implements(scannerType)], for the struct types it is asked of. *)
Definition Implements_scannerType (t : type) : bool :=
  match t with
  | StructOf _ scanner _ => scanner
  | _ => false
  end.

Definition isSmallestStructDecomposition (t : type) : bool :=
  if Implements_scannerType t then true
  else bool_decide (t ∈ smallestStructDecompositions).

(** [elementType]: slices are unwrapped down to the element, a slice of
    bytes being an element of its own. *)
Fixpoint elementType_loop (dstType inspection : type) : outcome type :=
  match inspection with
  | SliceOf elem =>
      if bool_decide (Kind elem = reflect.Uint8) then Ok inspection
      else elementType_loop dstType elem
  | _ =>
      match Kind inspection with
      | reflect.Map | reflect.Chan | reflect.Func | reflect.Invalid
      | reflect.Interface | reflect.UnsafePointer | reflect.Array =>
          Fail (ErrUnsupportedType dstType)
      | _ => Ok inspection
      end
  end.

Definition elementType (dstType : type) : outcome type :=
  elementType_loop dstType dstType.

Fixpoint isSingleBasicType (dstType : type) : bool :=
  match dstType with
  | PtrTo elem => isSingleBasicType elem
  | SliceOf elem => bool_decide (Kind elem = reflect.Uint8)
  | StructOf _ _ _ => isSmallestStructDecomposition dstType
  | Opaque _ =>
      match Kind dstType with
      | reflect.Int | reflect.Int8 | reflect.Int16 | reflect.Int32 | reflect.Int64
      | reflect.Uint | reflect.Uint8 | reflect.Uint16 | reflect.Uint32 | reflect.Uint64
      | reflect.String
      | reflect.Float32 | reflect.Float64 => true
      | _ => false
      end
  end.

End Classification.

(** ** Slices of field indices

    [fieldIndex] and [folding] are Go slices of [int]: a slice is a window
    on a backing array, and [append] writes in place when the capacity
    allows.  The heap holds the backing arrays. *)

Record slice := mkSlice {
  arr : nat;   (* the backing array *)
  len : nat;
  cap : nat
}.

Abbreviation heap := (list (list nat)).

(** The nil slice: no backing array is read or written through it. *)
Definition nilSlice : slice := mkSlice 0 0 0.

(** The capacity [runtime.growslice] gives a slice of word-sized elements
    that has to grow to [newLen], for lengths below 1024: twice the old
    capacity, or the length asked for when that is more. *)
Definition growslice (oldCap newLen : nat) : nat :=
  if decide (oldCap + oldCap < newLen) then newLen else oldCap + oldCap.

(** The elements a slice denotes in a heap. *)
Definition elems (h : heap) (s : slice) : list nat :=
  take (len s) (default [] (h !! arr s)).

(** [append(s, x)] *)
Definition append (h : heap) (s : slice) (x : nat) : heap * slice :=
  if decide (len s < cap s) then
    (alter (fun a => <[len s := x]> a) (arr s) h,
     mkSlice (arr s) (S (len s)) (cap s))
  else
    let c := growslice (cap s) (S (len s)) in
    (h ++ [elems h s ++ x :: replicate (c - S (len s)) 0],
     mkSlice (length h) (S (len s)) c).

(** ** Accessor resolution *)

Record fieldAccessor := mkAccessor {
  fieldType : type;
  fieldIndex : slice
}.

(** [fieldKind == reflect.Struct || fieldKind == reflect.Ptr &&
    field.Type.Elem().Kind() == reflect.Struct] *)
Definition isStructOrPtrToStruct (t : type) : bool :=
  match t with
  | StructOf _ _ _ => true
  | PtrTo (StructOf _ _ _) => true
  | _ => false
  end.

(** The key a field is registered under: its [db_column] tag, or its
    lower-cased name. *)
Definition columnAliasOf (field : StructField type) : string :=
  match Tag field with
  | Some columnAlias => columnAlias
  | None => ToLower (Name field)
  end.

(** The loop over the fields of a struct, [rec] being the function itself. *)
Definition accessorsOfFields
    (rec : gmap string fieldAccessor -> heap -> slice -> type ->
           outcome (gmap string fieldAccessor * heap))
    (folding : slice) :=
  fix loop (fields : list (StructField type)) (i : nat)
      (columnAliasToAccessor : gmap string fieldAccessor) (h : heap)
      : outcome (gmap string fieldAccessor * heap) :=
    match fields with
    | [] => Ok (columnAliasToAccessor, h)
    | field :: rest =>
        '(m1, h1) ←
          (if isStructOrPtrToStruct (Typ field) then
             let '(h0, folding') := append h folding i in
             rec columnAliasToAccessor h0 folding' (Typ field)
           else Ok (columnAliasToAccessor, h));
        let '(h2, index) := append h1 folding i in
        loop rest (S i)
          (<[columnAliasOf field := mkAccessor (Typ field) index]> m1) h2
    end.

(** [createFieldsAccessorsRecursively].  A type that is neither a pointer
    nor a struct matches no case of the switch, and the loop around it never
    ends. *)
Fixpoint createFieldsAccessorsRecursively
    (columnAliasToAccessor : gmap string fieldAccessor) (h : heap)
    (folding : slice) (inspectionType : type)
    : outcome (gmap string fieldAccessor * heap) :=
  match inspectionType with
  | PtrTo elem =>
      createFieldsAccessorsRecursively columnAliasToAccessor h folding elem
  | StructOf _ _ fields =>
      accessorsOfFields createFieldsAccessorsRecursively folding fields 0
        columnAliasToAccessor h
  | _ => Hang
  end.

Definition createFieldsAccessors (dstType : type)
    : outcome (gmap string fieldAccessor * heap) :=
  createFieldsAccessorsRecursively ∅ [] nilSlice dstType.

(** ** Column metadata and holder suppliers *)

Module sql.

(** [sql.ColumnType], with the fields of the Go struct. *)
Record ColumnType := mkColumnType {
  name : string;
  hasNullable : bool;
  hasLength : bool;
  hasPrecisionScale : bool;
  nullable : bool;
  length : Z;
  databaseType : string;
  precision : Z;
  scale : Z;
  scanType : type
}.

#[global] Instance ColumnType_eq_dec : EqDecision ColumnType.
Proof. solve_decision. Defined.

(** [driver.Value]: what a driver delivers for one cell. *)
Inductive driverValue :=
| Null
| Int64Value (z : Z)
| Float64Value (bits : Z)
| BoolValue (b : bool)
| BytesValue (bs : string)
| StringValue (s : string)
| TimeValue (unixNano : Z).

End sql.

(** A holder supplier gives the address a column is scanned into: the
    address of a field reached by an index path, or a discarded cell.  The
    closure of [holderByFieldIndexPath] keeps the slice [accessor.fieldIndex];
    its backing array is written by [createFieldsAccessorsRecursively] only,
    so the supplier is the path the slice denotes once that has returned. *)
Inductive holderSupplier :=
| holderByFieldIndexPath (holderIndexPath : list nat)
| holderSkipColumn.

#[global] Instance holderSupplier_eq_dec : EqDecision holderSupplier.
Proof. solve_decision. Defined.

Fixpoint holderSuppliersLoop (camtChk ctChk : bool)
    (columnAliasToAccessor : gmap string fieldAccessor) (h : heap)
    (columnTypes : list sql.ColumnType) (holderSuppliers : list holderSupplier)
    : outcome (list holderSupplier) :=
  match columnTypes with
  | [] => Ok holderSuppliers
  | columnType :: rest =>
      match columnAliasToAccessor !! ToLower (sql.name columnType) with
      | Some accessor =>
          if ctChk && negb (bool_decide (sql.scanType columnType = fieldType accessor))
          then Fail (ErrTypeCheck (sql.name columnType) (fieldType accessor)
                       (sql.scanType columnType))
          else holderSuppliersLoop camtChk ctChk columnAliasToAccessor h rest
                 (holderSuppliers ++
                  [holderByFieldIndexPath (elems h (fieldIndex accessor))])
      | None =>
          if camtChk then Fail (ErrNoMapping (sql.name columnType))
          else holderSuppliersLoop camtChk ctChk columnAliasToAccessor h rest
                 (holderSuppliers ++ [holderSkipColumn])
      end
  end.

(** [createHolderSuppliers]; [camtChk] and [ctChk] are
    [strictColumnAmountCheck()] and [strictColumnTypeCheck()]. *)
Definition createHolderSuppliers (camtChk ctChk : bool) (dstType : type)
    (columnTypes : list sql.ColumnType) : outcome (list holderSupplier) :=
  '(columnAliasToAccessor, h) ← createFieldsAccessors dstType;
  holderSuppliersLoop camtChk ctChk columnAliasToAccessor h columnTypes [].

(** ** Values *)

(** Go values as trees: a pointer is nil or holds its pointee. *)
Inductive value :=
| VZero                          (* the zero value of an opaque type or a slice *)
| VData (d : sql.driverValue)    (* what the scan stored for a cell *)
| VNil                           (* the nil pointer *)
| VPtr (pointee : value)
| VStruct (fields : list value).

Lemma value_eq_dec (a b : value) : {a = b} + {a <> b}.
Proof.
  revert a b. fix IH 1. intros a b. decide equality.
  - decide equality; match goal with
    | |- {?x = ?y} + {_} => exact (decide (x = y))
    end.
  - apply List.list_eq_dec. exact IH.
Defined.

#[global] Instance value_eq_decision : EqDecision value := value_eq_dec.

(** [reflect.Zero(t)] *)
Fixpoint zeroValue (t : type) : value :=
  match t with
  | PtrTo _ => VNil
  | StructOf _ _ fields => VStruct (map (fun f => zeroValue (Typ f)) fields)
  | _ => VZero
  end.

(** A field is exported when its name starts with an upper-case letter. *)
Definition isExported (field : StructField type) : bool :=
  match Name field with
  | String c _ =>
      let n := nat_of_ascii c in (65 <=? n)%nat && (n <=? 90)%nat
  | EmptyString => false
  end.

Definition fieldsOf (t : type) : list (StructField type) :=
  match t with
  | StructOf _ _ fields => fields
  | _ => []
  end.

(** [v.Addr()], [n] times over: the value has to be addressable, and the
    pointer [Addr] returns is not. *)
Fixpoint AddrTimes (n : nat) (v : value) (canAddr : bool) : outcome value :=
  match n with
  | 0 => Ok v
  | S n' => if canAddr then AddrTimes n' (VPtr v) false else Panic
  end.

(** ** The struct provider *)

(** A [structProvider] closure, by what it captures: the struct type, the
    pointer depth it wraps the instance in and the init actions; an init
    action captures the field index [idx], [ptrNesting] and the provider of
    the field's struct type. *)
Inductive structProvider :=
| Provider (actualType : type) (ptrDepth : nat)
    (initActions : list (nat * nat * structProvider)).

(** [structProvideManager.byType], the latest entry of a type first. *)
Abbreviation providers := (list (type * structProvider)).

Definition providerOf (tsp : providers) (forType : type) : option structProvider :=
  snd <$> List.find (fun entry => bool_decide (fst entry = forType)) tsp.

(** [initStruct.Field(idx).Set(x)]: the field has to be exported. *)
Definition SetField (t : type) (idx : nat) (x : value) (initStruct : value)
    : outcome value :=
  match initStruct, fieldsOf t !! idx with
  | VStruct vs, Some field =>
      if isExported field then Ok (VStruct (<[idx := x]> vs)) else Panic
  | _, _ => Panic
  end.

(** Whether the value a provider returns is addressable: it is the [Elem]
    of a [reflect.New], or the result of [Addr]. *)
Definition providesAddressable (provider : structProvider) : bool :=
  match provider with
  | Provider _ ptrDepth _ => bool_decide (ptrDepth = 0)
  end.

(** The loop of a provider over its init actions; [rec] calls the provider
    an action captured. *)
Definition runInitActions (rec : structProvider -> outcome value)
    (actualType : type) :=
  fix run (initActions : list (nat * nat * structProvider))
      (holderValue : value) : outcome value :=
    match initActions with
    | [] => Ok holderValue
    | (idx, ptrNesting, provider) :: rest =>
        initFieldValue ← rec provider;
        initFieldValue ←
          AddrTimes ptrNesting initFieldValue (providesAddressable provider);
        holderValue ← SetField actualType idx initFieldValue holderValue;
        run rest holderValue
    end.

(** Calling a provider. *)
Fixpoint runProvider (provider : structProvider) : outcome value :=
  match provider with
  | Provider actualType ptrDepth initActions =>
      holderValue ←
        runInitActions runProvider actualType initActions (zeroValue actualType);
      AddrTimes ptrDepth holderValue true
  end.

(** [unwrapPtrStructType] *)
Fixpoint unwrapPtrStructType_loop (actualType : type) (levels : nat)
    : outcome (type * nat) :=
  match actualType with
  | PtrTo elem => unwrapPtrStructType_loop elem (S levels)
  | StructOf _ _ _ => Ok (actualType, levels)
  | _ => Fail (ErrNotStruct (Kind actualType))
  end.

Definition unwrapPtrStructType (wrapped : type) : outcome (type * nat) :=
  unwrapPtrStructType_loop wrapped 0.

Section Providers.

Variable smallestStructDecompositions : list type.

(** [LoopDetermineField] for one field: the init action the field gets, if
    any.  [rec] is [getOrCreate]. *)
Definition determineField
    (rec : providers -> type -> outcome structProvider * providers)
    (tsp : providers) :=
  fix LoopDetermineField (actualValueFieldType : type) (ptrNesting : nat)
      : outcome (option (nat * structProvider)) * providers :=
    match actualValueFieldType with
    | StructOf _ _ _ =>
        if isSmallestStructDecomposition smallestStructDecompositions
             actualValueFieldType
        then (Ok None, tsp)
        else
          match rec tsp actualValueFieldType with
          | (Ok provider, tsp') => (Ok (Some (ptrNesting, provider)), tsp')
          | (Fail e, tsp') => (Fail e, tsp')
          | (Panic, tsp') => (Panic, tsp')
          | (Hang, tsp') => (Hang, tsp')
          end
    | PtrTo elem => LoopDetermineField elem (S ptrNesting)
    | _ => (Ok None, tsp)
    end.

(** The loop over the fields that collects the init actions. *)
Definition initActionsOfFields
    (rec : providers -> type -> outcome structProvider * providers) :=
  fix loop (fields : list (StructField type)) (i : nat) (tsp : providers)
      (initActions : list (nat * nat * structProvider))
      : outcome (list (nat * nat * structProvider)) * providers :=
    match fields with
    | [] => (Ok initActions, tsp)
    | field :: rest =>
        match determineField rec tsp (Typ field) 0 with
        | (Ok (Some (ptrNesting, provider)), tsp') =>
            loop rest (S i) tsp' (initActions ++ [(i, ptrNesting, provider)])
        | (Ok None, tsp') => loop rest (S i) tsp' initActions
        | (Fail e, tsp') => (Fail e, tsp')
        | (Panic, tsp') => (Panic, tsp')
        | (Hang, tsp') => (Hang, tsp')
        end
    end.

(** [getOrCreate] past the lookup: the loop is [unwrapPtrStructType], with
    the rest of the function at the struct it reaches. *)
Definition createProvider
    (rec : providers -> type -> outcome structProvider * providers)
    (tsp : providers) (forType : type) :=
  fix unwrap (actualType : type) (levels : nat) {struct actualType}
      : outcome structProvider * providers :=
    match actualType with
    | PtrTo elem => unwrap elem (S levels)
    | StructOf _ _ fields =>
        match initActionsOfFields rec fields 0 tsp [] with
        | (Ok initActions, tsp') =>
            let provider := Provider actualType levels initActions in
            (Ok provider, (forType, provider) :: tsp')
        | (Fail e, tsp') => (Fail e, tsp')
        | (Panic, tsp') => (Panic, tsp')
        | (Hang, tsp') => (Hang, tsp')
        end
    | _ => (Fail (ErrNotStruct (Kind actualType)), tsp)
    end.

(** [structProvideManager.getOrCreate] *)
Fixpoint getOrCreate (tsp : providers) (forType : type) {struct forType}
    : outcome structProvider * providers :=
  match providerOf tsp forType with
  | Some provider => (Ok provider, tsp)
  | None => createProvider getOrCreate tsp forType forType 0
  end.

(** [structProvideManager.getOrCreateSync]; the locks make the call atomic. *)
Definition getOrCreateSync (tsp : providers) (forType : type)
    : outcome structProvider * providers :=
  match providerOf tsp forType with
  | Some provider => (Ok provider, tsp)
  | None => getOrCreate tsp forType
  end.

End Providers.

(** ** The row stream

    [sql.Rows] as the package sees it: the column metadata, the rows the
    driver has still to deliver, the error it ends the stream with (none for
    [io.EOF]) and the error closing it returns. *)

Record Rows := mkRows {
  columns : list sql.ColumnType;
  pending : list (list sql.driverValue);
  driverErr : option error;
  closeErr : option error;
  lastcols : option (list sql.driverValue);
  lasterr : option error;
  closed : bool
}.

Definition errRowsClosed : error := ErrDriver "sql: Rows are closed".
Definition errScanWithoutNext : error :=
  ErrDriver "sql: Scan called without calling Next".

(** [rows.ColumnTypes()] *)
Definition ColumnTypes (rs : Rows) : outcome (list sql.ColumnType) :=
  if closed rs then Fail errRowsClosed else Ok (columns rs).

(** [rows.Close()]: closing twice does nothing. *)
Definition Close (rs : Rows) : option error * Rows :=
  if closed rs then (None, rs)
  else (closeErr rs,
        mkRows (columns rs) (pending rs) (driverErr rs) (closeErr rs)
          (lastcols rs) (lasterr rs) true).

(** [rows.Next()]: at the end of the stream, or at an error of the driver,
    the stream is closed. *)
Definition Next (rs : Rows) : bool * Rows :=
  if closed rs then (false, rs)
  else
    match pending rs with
    | row :: rest =>
        (true, mkRows (columns rs) rest (driverErr rs) (closeErr rs)
                 (Some row) None false)
    | [] =>
        (false, snd (Close (mkRows (columns rs) [] (driverErr rs) (closeErr rs)
                              (lastcols rs) (driverErr rs) false)))
    end.

(** [rows.Err()] *)
Definition Err (rs : Rows) : option error := lasterr rs.

(** ** Scanning a row *)

Section Scanning.

(** The scan capability of database/sql ([convertAssign]): the value a cell
    is stored as in a destination of a type, or a failure. *)
Variable convertAssign : type -> sql.driverValue -> option value.

(** [v.FieldByIndex(index)], for its type, and whether [Interface()] may be
    called on its address: [sticky] once a field on the way is unexported and
    not embedded, [ro] when the field reached is itself unexported. *)
Fixpoint FieldByIndex_loop (t : type) (v : value) (index : list nat)
    (first sticky ro : bool) : outcome (type * bool) :=
  match index with
  | [] => Ok (t, sticky || ro)
  | x :: rest =>
      '(t, v) ←
        (if first then Ok (t, v)
         else
           match t, v with
           | PtrTo (StructOf _ _ _ as s), VPtr p => Ok (s, p)
           | PtrTo (StructOf _ _ _), _ => Panic
           | _, _ => Ok (t, v)
           end);
      match t, v with
      | StructOf _ _ fields, VStruct vs =>
          match fields !! x, vs !! x with
          | Some field, Some fv =>
              let unexported := negb (isExported field) in
              FieldByIndex_loop (Typ field) fv rest false
                (sticky || (unexported && negb (Anonymous field)))
                unexported
          | _, _ => Panic
          end
      | _, _ => Panic
      end
  end.

(** [holderSupplier(underlyingValue)]: the type of the cell the address
    points at, [None] for a discarded cell. *)
Definition supply (t : type) (underlyingValue : value) (s : holderSupplier)
    : outcome (option (list nat * type)) :=
  match s with
  | holderSkipColumn => Ok None
  | holderByFieldIndexPath holderIndexPath =>
      '(ft, ro) ← FieldByIndex_loop t underlyingValue holderIndexPath true false false;
      if (ro : bool) then Panic else Ok (Some (holderIndexPath, ft))
  end.

Fixpoint supplyAll (t : type) (underlyingValue : value)
    (holderSuppliers : list holderSupplier)
    : outcome (list (option (list nat * type))) :=
  match holderSuppliers with
  | [] => Ok []
  | s :: rest =>
      d ← supply t underlyingValue s;
      ds ← supplyAll t underlyingValue rest;
      Ok (d :: ds)
  end.

(** Storing through an address: the cell a path leads to is replaced. *)
Fixpoint storeAt (v : value) (index : list nat) (x : value) {struct index}
    : value :=
  match index with
  | [] => x
  | i :: rest =>
      match v with
      | VStruct vs =>
          VStruct (alter (fun fv => storeAt fv rest x) i vs)
      | VPtr (VStruct vs) =>
          VPtr (VStruct (alter (fun fv => storeAt fv rest x) i vs))
      | _ => v
      end
  end.

(** The addresses were taken before the scan: once a pointer has been
    stored into a cell, the cells behind the pointer it replaced are no
    longer part of the element. *)
Definition detached (overwritten : list (list nat)) (index : list nat) : bool :=
  existsb (fun p => bool_decide (p `prefix_of` index) && negb (bool_decide (p = index)))
    overwritten.

Definition isPtr (t : type) : bool :=
  match t with
  | PtrTo _ => true
  | _ => false
  end.

(** The loop of [rows.Scan] over the cells of the row. *)
Fixpoint scanCells (dests : list (option (list nat * type)))
    (cells : list sql.driverValue) (i : nat) (root : value)
    (overwritten : list (list nat)) : outcome value :=
  match dests, cells with
  | Some (index, t) :: dests', sv :: cells' =>
      match convertAssign t sv with
      | None => Fail (ErrScan i)
      | Some x =>
          if detached overwritten index
          then scanCells dests' cells' (S i) root overwritten
          else scanCells dests' cells' (S i) (storeAt root index x)
                 (if isPtr t then index :: overwritten else overwritten)
      end
  | None :: dests', sv :: cells' =>
      scanCells dests' cells' (S i) root overwritten
  | _, _ => Ok root
  end.

(** [rows.Scan(dest...)] on the cells of the current row: [root] is the
    value the addresses point into. *)
Definition scanRow (dests : list (option (list nat * type))) (root : value)
    (cells : list sql.driverValue) : outcome value :=
  if bool_decide (length dests = length cells)
  then scanCells dests cells 0 root []
  else Fail (ErrScanArity (length cells) (length dests)).

Definition Scan (rs : Rows) (dests : list (option (list nat * type)))
    (root : value) : outcome value :=
  if closed rs then Fail errRowsClosed
  else
    match lastcols rs with
    | None => Fail errScanWithoutNext
    | Some cells => scanRow dests root cells
    end.

End Scanning.

(** ** The row mappers *)

(** The destination [dst]: its type, and the elements of the slice it
    points to. *)
Record holder := mkHolder {
  holderType : type;
  holderElements : list value
}.

(** [prepareInjector]: the injector appends to the slice the holder points
    to; it is given by the element type of that slice. *)
Fixpoint prepareInjector (dstHolderType : type) : outcome type :=
  match dstHolderType with
  | PtrTo elem => prepareInjector elem
  | SliceOf elem => Ok elem
  | _ => Fail ErrHolderNotImplemented
  end.

(** The injector: [reflect.Append] panics on a value whose type is not the
    element type of the slice. *)
Definition inject (sliceElem valueType : type) (v : value)
    (elements : list value) : outcome (list value) :=
  if bool_decide (valueType = sliceElem) then Ok (elements ++ [v]) else Panic.

(** A [rowsMapper] closure, by what it captures. *)
Inductive rowsMapper :=
| singleColumnRows (forType : type)
| multiColumnRows (holderSuppliers : list holderSupplier)
    (provider : structProvider).

Record scanDefinition := mkScanDefinition {
  columnTypes : list sql.ColumnType;
  mapper : rowsMapper
}.

(** [unwrapPtrStructValue]: the [Elem] of a nil pointer is the zero
    [reflect.Value], of kind [Invalid]. *)
Fixpoint unwrapPtrStructValue_loop (t : type) (actualValue : value)
    (levels : nat) : outcome (type * value * nat) :=
  match t, actualValue with
  | PtrTo elem, VPtr pointee => unwrapPtrStructValue_loop elem pointee (S levels)
  | PtrTo _, _ => Fail (ErrNotStruct reflect.Invalid)
  | StructOf _ _ _, _ => Ok (t, actualValue, levels)
  | _, _ => Fail (ErrNotStruct (Kind t))
  end.

Definition unwrapPtrStructValue (t : type) (wrapped : value)
    : outcome (type * value * nat) :=
  unwrapPtrStructValue_loop t wrapped 0.

Fixpoint wrapPtr (levels : nat) (v : value) : value :=
  match levels with
  | 0 => v
  | S n => VPtr (wrapPtr n v)
  end.

Fixpoint PtrToTimes (levels : nat) (t : type) : type :=
  match levels with
  | 0 => t
  | S n => PtrTo (PtrToTimes n t)
  end.

(** The type of the value a provider returns. *)
Definition providedType (provider : structProvider) : type :=
  match provider with
  | Provider actualType ptrDepth _ => PtrToTimes ptrDepth actualType
  end.

Section Mappers.

Variable convertAssign : type -> sql.driverValue -> option value.

(** The body of the loop of [singleColumnMapper], up to the scan. *)
Definition singleColumnRow (forType : type) (rs : Rows) : outcome value :=
  Scan convertAssign rs [Some ([], forType)] (zeroValue forType).

(** The body of the loop of the mapper of [multiColumnMapper], up to the
    scan; the element is the provided instance with the cells stored. *)
Definition multiColumnRow (holderSuppliers : list holderSupplier)
    (provider : structProvider) (rs : Rows) : outcome value :=
  holderElement ← runProvider provider;
  '(t, underlyingValue, levels) ←
    unwrapPtrStructValue (providedType provider) holderElement;
  holderElementFields ← supplyAll t underlyingValue holderSuppliers;
  scanned ← Scan convertAssign rs holderElementFields underlyingValue;
  Ok (wrapPtr levels scanned).

(** [for rows.Next() { ... inject(holderElement) }], the loop of both
    mappers: it ends when [Next] is false, or at the first row that fails.
    [fuel] bounds the number of rows read. *)
Fixpoint forRowsNext (fuel : nat) (row : Rows -> outcome value)
    (sliceElem valueType : type) (rs : Rows) (elements : list value)
    : outcome unit * list value * Rows :=
  match fuel with
  | 0 => (Hang, elements, rs)
  | S fuel' =>
      let '(more, rs) := Next rs in
      if more then
        match row rs with
        | Ok holderElement =>
            match inject sliceElem valueType holderElement elements with
            | Ok elements' =>
                forRowsNext fuel' row sliceElem valueType rs elements'
            | Fail e => (Fail e, elements, rs)
            | Panic => (Panic, elements, rs)
            | Hang => (Hang, elements, rs)
            end
        | Fail e => (Fail e, elements, rs)
        | Panic => (Panic, elements, rs)
        | Hang => (Hang, elements, rs)
        end
      else (Ok (), elements, rs)
  end.

(** The function [singleColumnMapper] returns. *)
Definition runSingleColumn (forType : type) (dst : holder) (rs : Rows)
    : outcome unit * holder * Rows :=
  match prepareInjector (holderType dst) with
  | Ok sliceElem =>
      match forRowsNext (S (length (pending rs))) (singleColumnRow forType)
              sliceElem forType rs (holderElements dst) with
      | (Ok _, elements, rs) =>
          match Err rs with
          | Some e => (Fail e, mkHolder (holderType dst) elements, rs)
          | None =>
              let '(e, rs) := Close rs in
              (from_option Fail (Ok ()) e, mkHolder (holderType dst) elements, rs)
          end
      | (r, elements, rs) => (r, mkHolder (holderType dst) elements, rs)
      end
  | Fail e => (Fail e, dst, snd (Close rs))
  | Panic => (Panic, dst, rs)
  | Hang => (Hang, dst, rs)
  end.

(** The function [multiColumnMapper] returns. *)
Definition runMultiColumn (holderSuppliers : list holderSupplier)
    (provider : structProvider) (dst : holder) (rs : Rows)
    : outcome unit * holder * Rows :=
  match prepareInjector (holderType dst) with
  | Ok sliceElem =>
      match forRowsNext (S (length (pending rs)))
              (multiColumnRow holderSuppliers provider)
              sliceElem (providedType provider) rs (holderElements dst) with
      | (Ok _, elements, rs) =>
          (from_option Fail (Ok ()) (Err rs), mkHolder (holderType dst) elements, rs)
      | (r, elements, rs) => (r, mkHolder (holderType dst) elements, rs)
      end
  | Fail e => (Fail e, dst, rs)
  | Panic => (Panic, dst, rs)
  | Hang => (Hang, dst, rs)
  end.

Definition runMapper (m : rowsMapper) (dst : holder) (rs : Rows)
    : outcome unit * holder * Rows :=
  match m with
  | singleColumnRows forType => runSingleColumn forType dst rs
  | multiColumnRows holderSuppliers provider =>
      runMultiColumn holderSuppliers provider dst rs
  end.

End Mappers.

(** ** The scan definitions and Propagate *)

(** The package-level state: the two strictness flags, the registry of
    smallest struct decompositions and the two caches. *)
Record state := mkState {
  columnTypeCheck : bool;
  columnAmountCheck : bool;
  smallestStructDecompositions : list type;
  scanDefinitionsMgr : list (type * list scanDefinition);
  structProviderMgr : providers
}.

(** The state [init] and the package-level declarations set up; the two
    registered types are [time.Time] and [time.Location]. *)
Definition time_zone : type :=
  StructOf "time.zone" false
    [mkField "name" false None (Opaque reflect.String);
     mkField "offset" false None (Opaque reflect.Int);
     mkField "isDST" false None (Opaque reflect.Bool)].

Definition time_zoneTrans : type :=
  StructOf "time.zoneTrans" false
    [mkField "when" false None (Opaque reflect.Int64);
     mkField "index" false None (Opaque reflect.Uint8);
     mkField "isstd" false None (Opaque reflect.Bool);
     mkField "isutc" false None (Opaque reflect.Bool)].

Definition time_Location : type :=
  StructOf "time.Location" false
    [mkField "name" false None (Opaque reflect.String);
     mkField "zone" false None (SliceOf time_zone);
     mkField "tx" false None (SliceOf time_zoneTrans);
     mkField "cacheStart" false None (Opaque reflect.Int64);
     mkField "cacheEnd" false None (Opaque reflect.Int64);
     mkField "cacheZone" false None (PtrTo time_zone)].

Definition time_Time : type :=
  StructOf "time.Time" false
    [mkField "wall" false None (Opaque reflect.Uint64);
     mkField "ext" false None (Opaque reflect.Int64);
     mkField "loc" false None (PtrTo time_Location)].

Definition initialState : state :=
  mkState false false [time_Time; time_Location] [] [].

Definition StrictColumnTypeCheck (strict : bool) (st : state) : state :=
  mkState strict (columnAmountCheck st) (smallestStructDecompositions st)
    (scanDefinitionsMgr st) (structProviderMgr st).

Definition StrictColumnAmountCheck (strict : bool) (st : state) : state :=
  mkState (columnTypeCheck st) strict (smallestStructDecompositions st)
    (scanDefinitionsMgr st) (structProviderMgr st).

Definition SmallestStructDecomposition (t : type) (st : state) : state :=
  mkState (columnTypeCheck st) (columnAmountCheck st)
    (t :: smallestStructDecompositions st)
    (scanDefinitionsMgr st) (structProviderMgr st).

(** [sdm.byType[elementType]], the list of an absent type being empty. *)
Definition scanDefinitionsOf (byType : list (type * list scanDefinition))
    (elementType : type) : option (list scanDefinition) :=
  snd <$> List.find (fun entry => bool_decide (fst entry = elementType)) byType.

(** The loop of [find] over the scan definitions of the type: the first
    one whose column types are as many and, one by one, equal. *)
Fixpoint find_loop (scanDefs : list scanDefinition)
    (columnTypes' : list sql.ColumnType) : option scanDefinition :=
  match scanDefs with
  | [] => None
  | scanDef :: rest =>
      if bool_decide (length (columnTypes scanDef) ≠ length columnTypes')
      then find_loop rest columnTypes'
      else if forallb (fun p => bool_decide (fst p = snd p))
                (zip (columnTypes scanDef) columnTypes')
      then Some scanDef
      else find_loop rest columnTypes'
  end.

(** [scanDefinitionsManager.find] *)
Definition find (byType : list (type * list scanDefinition))
    (elementType : type) (columnTypes' : list sql.ColumnType)
    : option scanDefinition :=
  match scanDefinitionsOf byType elementType with
  | None => None
  | Some scanDefs => find_loop scanDefs columnTypes'
  end.

Section Propagation.

Variable convertAssign : type -> sql.driverValue -> option value.

(** [multiColumnMapper]: the suppliers are compiled, then the provider is
    fetched; the provider cache keeps what the second step added. *)
Definition multiColumnMapper (st : state) (holderElementType : type)
    (columnTypes' : list sql.ColumnType) : outcome rowsMapper * providers :=
  match createHolderSuppliers (columnAmountCheck st) (columnTypeCheck st)
          holderElementType columnTypes' with
  | Ok holderSuppliers =>
      match getOrCreateSync (smallestStructDecompositions st)
              (structProviderMgr st) holderElementType with
      | (Ok provider, tsp) => (Ok (multiColumnRows holderSuppliers provider), tsp)
      | (Fail e, tsp) => (Fail e, tsp)
      | (Panic, tsp) => (Panic, tsp)
      | (Hang, tsp) => (Hang, tsp)
      end
  | Fail e => (Fail e, structProviderMgr st)
  | Panic => (Panic, structProviderMgr st)
  | Hang => (Hang, structProviderMgr st)
  end.

Definition createRowsMapper (st : state) (holderElementType : type)
    (columnTypes' : list sql.ColumnType) : outcome rowsMapper * providers :=
  if isSingleBasicType (smallestStructDecompositions st) holderElementType
  then (Ok (singleColumnRows holderElementType), structProviderMgr st)
  else multiColumnMapper st holderElementType columnTypes'.

Definition withProviders (st : state) (tsp : providers) : state :=
  mkState (columnTypeCheck st) (columnAmountCheck st)
    (smallestStructDecompositions st) (scanDefinitionsMgr st) tsp.

(** [scanDefinitionsManager.create]: the new definition goes after the
    ones the type already has. *)
Definition create (st : state) (elementType' : type)
    (columnTypes' : list sql.ColumnType) : outcome scanDefinition * state :=
  match createRowsMapper st elementType' columnTypes' with
  | (Ok mapper', tsp) =>
      let scanDef := mkScanDefinition columnTypes' mapper' in
      (Ok scanDef,
       mkState (columnTypeCheck st) (columnAmountCheck st)
         (smallestStructDecompositions st)
         ((elementType',
           default [] (scanDefinitionsOf (scanDefinitionsMgr st) elementType')
             ++ [scanDef]) :: scanDefinitionsMgr st)
         tsp)
  | (Fail e, tsp) => (Fail e, withProviders st tsp)
  | (Panic, tsp) => (Panic, withProviders st tsp)
  | (Hang, tsp) => (Hang, withProviders st tsp)
  end.

(** [scanDefinitionsManager.getOrCreateSync], run without interruption:
    the second [find] then sees what the first one saw. *)
Definition scanDefinitionsGetOrCreateSync (st : state) (elementType' : type)
    (columnTypes' : list sql.ColumnType) : outcome scanDefinition * state :=
  match find (scanDefinitionsMgr st) elementType' columnTypes' with
  | Some scanDef => (Ok scanDef, st)
  | None =>
      match find (scanDefinitionsMgr st) elementType' columnTypes' with
      | Some scanDef => (Ok scanDef, st)
      | None => create st elementType' columnTypes'
      end
  end.

(** What a call of [Propagate] leaves behind: its result, the package
    state, the destination and the row stream. *)
Record propagated := mkPropagated {
  result : outcome unit;
  stateAfter : state;
  dstAfter : holder;
  rowsAfter : Rows
}.

(** [Propagate] *)
Definition Propagate (st : state) (dst : holder) (rows : Rows) : propagated :=
  match ColumnTypes rows with
  | Ok columnTypes' =>
      match holderType dst with
      | PtrTo holderElemType =>
          match holderElemType with
          | SliceOf _ =>
              match elementType holderElemType with
              | Ok holderElementType =>
                  match scanDefinitionsGetOrCreateSync st holderElementType
                          columnTypes' with
                  | (Ok scanDef, st') =>
                      let '(r, dst', rows') :=
                        runMapper convertAssign (mapper scanDef) dst rows in
                      mkPropagated r st' dst' rows'
                  | (Fail e, st') => mkPropagated (Fail e) st' dst rows
                  | (Panic, st') => mkPropagated Panic st' dst rows
                  | (Hang, st') => mkPropagated Hang st' dst rows
                  end
              | Fail e => mkPropagated (Fail e) st dst rows
              | Panic => mkPropagated Panic st dst rows
              | Hang => mkPropagated Hang st dst rows
              end
          | _ =>
              mkPropagated (Fail (ErrPointerToSliceExpected (holderType dst)))
                st dst rows
          end
      | _ =>
          mkPropagated (Fail (ErrPointerToSliceExpected (holderType dst)))
            st dst rows
      end
  | Fail e => mkPropagated (Fail e) st dst rows
  | Panic => mkPropagated Panic st dst rows
  | Hang => mkPropagated Hang st dst rows
  end.

End Propagation.

(** * Properties *)

(** ** Matching of cached scan definitions *)


Lemma zip_all_equal {A} `{EqDecision A} (a b : list A) :
  length a = length b ->
  forallb (fun p => bool_decide (fst p = snd p)) (zip a b) = true <-> a = b.
Proof.
  revert b. induction a as [|x a IH]; intros [|y b] Hlen; simpl in *; try discriminate.
  - split; reflexivity.
  - injection Hlen as Hlen. rewrite andb_true_iff, bool_decide_eq_true, (IH b Hlen).
    split; [intros [-> ->]; reflexivity | intros [= -> ->]; split; reflexivity].
Qed.

Definition sameColumnTypes (a b : list sql.ColumnType) : bool :=
  negb (bool_decide (length a ≠ length b)) &&
  forallb (fun p => bool_decide (fst p = snd p)) (zip a b).

Lemma sameColumnTypes_true a b : sameColumnTypes a b = true <-> a = b.
Proof.
  unfold sameColumnTypes. rewrite andb_true_iff, negb_true_iff, bool_decide_eq_false.
  split.
  - intros [Hlen Hall]. apply zip_all_equal; [|exact Hall].
    destruct (decide (length a = length b)); [assumption | contradiction].
  - intros ->. split; [intros H; apply H; reflexivity | apply zip_all_equal; reflexivity].
Qed.

Lemma find_loop_step scanDef rest cols :
  find_loop (scanDef :: rest) cols =
  if sameColumnTypes (columnTypes scanDef) cols then Some scanDef
  else find_loop rest cols.
Proof.
  unfold sameColumnTypes. simpl.
  destruct (bool_decide (length (columnTypes scanDef) ≠ length cols)); reflexivity.
Qed.

Lemma find_loop_Some scanDefs cols d :
  find_loop scanDefs cols = Some d ->
  exists before after,
    scanDefs = before ++ d :: after /\ columnTypes d = cols /\
    Forall (fun d' => columnTypes d' ≠ cols) before.
Proof.
  induction scanDefs as [|x rest IH]; [discriminate|].
  rewrite find_loop_step.
  destruct (sameColumnTypes (columnTypes x) cols) eqn:E.
  - intros [= ->]. exists [], rest. apply sameColumnTypes_true in E. auto.
  - intros H. destruct (IH H) as (before & after & -> & Hc & Hb).
    exists (x :: before), after. repeat split; [assumption|].
    constructor; [|assumption]. intros Heq. apply sameColumnTypes_true in Heq. congruence.
Qed.

Lemma find_loop_None scanDefs cols :
  find_loop scanDefs cols = None <->
  Forall (fun d => columnTypes d ≠ cols) scanDefs.
Proof.
  induction scanDefs as [|x rest IH]; [split; [constructor | reflexivity]|].
  rewrite find_loop_step.
  destruct (sameColumnTypes (columnTypes x) cols) eqn:E.
  - apply sameColumnTypes_true in E. split; [discriminate|].
    intros H. inversion H; subst. contradiction.
  - rewrite IH. split.
    + intros H. constructor; [|assumption].
      intros Heq. apply sameColumnTypes_true in Heq. congruence.
    + intros H. inversion H; assumption.
Qed.

(** ** The loop over the rows *)


Definition delivered (rs : Rows) (cells : list sql.driverValue)
    (rest : list (list sql.driverValue)) : Rows :=
  mkRows (columns rs) rest (driverErr rs) (closeErr rs) (Some cells) None false.

Definition ended (rs : Rows) : Rows :=
  mkRows (columns rs) [] (driverErr rs) (closeErr rs) (lastcols rs)
    (driverErr rs) true.

Lemma Next_delivers rs cells rest :
  closed rs = false -> pending rs = cells :: rest ->
  Next rs = (true, delivered rs cells rest).
Proof. intros Hc Hp. unfold Next. rewrite Hc, Hp. reflexivity. Qed.

Lemma Next_ends rs :
  closed rs = false -> pending rs = [] -> Next rs = (false, ended rs).
Proof. intros Hc Hp. unfold Next. rewrite Hc, Hp. reflexivity. Qed.

Section RowLoop.

Variable row : Rows -> outcome value.
Variable element : list sql.driverValue -> outcome value.
Hypothesis row_element : forall rs cells,
  closed rs = false -> lastcols rs = Some cells -> row rs = element cells.
Variable sliceElem : type.

Lemma forRowsNext_all fuel rs elements vs :
  closed rs = false ->
  length (pending rs) < fuel ->
  Forall2 (fun cells v => element cells = Ok v) (pending rs) vs ->
  exists rs',
    forRowsNext fuel row sliceElem sliceElem rs elements = (Ok (), elements ++ vs, rs') /\
    closed rs' = true /\ pending rs' = [] /\ lasterr rs' = driverErr rs /\
    closeErr rs' = closeErr rs.
Proof.
  remember (pending rs) as pend eqn:Hpend.
  intros Hclosed Hfuel Hall. revert fuel rs elements Hpend Hclosed Hfuel.
  induction Hall as [|cells v pend vs Hv Hall IH]; intros fuel rs elements Hpend Hclosed Hfuel.
  - destruct fuel as [|fuel]; [simpl in Hfuel; lia|]. simpl.
    rewrite Next_ends by auto. exists (ended rs). rewrite app_nil_r. auto.
  - destruct fuel as [|fuel]; [simpl in Hfuel; lia|]. simpl.
    rewrite (Next_delivers rs cells pend) by auto.
    rewrite (row_element _ cells) by reflexivity. rewrite Hv.
    unfold inject. rewrite bool_decide_eq_true_2 by reflexivity.
    destruct (IH fuel (delivered rs cells pend) (elements ++ [v]))
      as (rs' & Hrun & H1 & H2 & H3 & H4); [reflexivity..| simpl in *; lia |].
    exists rs'. rewrite Hrun, <- app_assoc. auto.
Qed.

Lemma forRowsNext_stops fuel rs elements pre bad post vs r :
  closed rs = false ->
  pending rs = pre ++ bad :: post ->
  length pre < fuel ->
  Forall2 (fun cells v => element cells = Ok v) pre vs ->
  element bad = r -> (forall v, r <> Ok v) ->
  exists rs' (r' : outcome unit),
    forRowsNext fuel row sliceElem sliceElem rs elements = (r', elements ++ vs, rs') /\
    match r, r' with
    | Fail e, Fail e' => e = e'
    | Panic, Panic => True
    | Hang, Hang => True
    | _, _ => False
    end /\
    closed rs' = false /\ pending rs' = post.
Proof.
  intros Hclosed Hpend Hfuel Hall Hbad Hnok.
  revert fuel rs elements Hpend Hclosed Hfuel.
  induction Hall as [|cells v pre vs Hv Hall IH]; intros fuel rs elements Hpend Hclosed Hfuel.
  - destruct fuel as [|fuel]; [simpl in Hfuel; lia|]. simpl.
    rewrite (Next_delivers rs bad post) by auto.
    rewrite (row_element _ bad) by reflexivity. rewrite Hbad, app_nil_r.
    destruct r as [v|e| |]; [destruct (Hnok v); reflexivity|..];
      eexists _, _; (split; [reflexivity|]); simpl; auto.
  - destruct fuel as [|fuel]; [simpl in Hfuel; lia|]. simpl.
    rewrite (Next_delivers rs cells (pre ++ bad :: post)) by auto.
    rewrite (row_element _ cells) by reflexivity. rewrite Hv.
    unfold inject. rewrite bool_decide_eq_true_2 by reflexivity.
    destruct (IH fuel (delivered rs cells (pre ++ bad :: post)) (elements ++ [v]))
      as (rs' & r' & Hrun & H1 & H2 & H3); [reflexivity..| simpl in *; lia |].
    exists rs', r'. rewrite Hrun, <- app_assoc. auto.
Qed.

End RowLoop.

(** The element a mapper makes of the cells of one row. *)
Definition singleColumnElement (convertAssign : type -> sql.driverValue -> option value)
    (forType : type) (cells : list sql.driverValue) : outcome value :=
  scanRow convertAssign [Some ([], forType)] (zeroValue forType) cells.

Definition multiColumnElement (convertAssign : type -> sql.driverValue -> option value)
    (holderSuppliers : list holderSupplier) (provider : structProvider)
    (cells : list sql.driverValue) : outcome value :=
  holderElement ← runProvider provider;
  '(t, underlyingValue, levels) ←
    unwrapPtrStructValue (providedType provider) holderElement;
  holderElementFields ← supplyAll t underlyingValue holderSuppliers;
  scanned ← scanRow convertAssign holderElementFields underlyingValue cells;
  Ok (wrapPtr levels scanned).

Lemma Scan_current convertAssign rs dests root cells :
  closed rs = false -> lastcols rs = Some cells ->
  Scan convertAssign rs dests root = scanRow convertAssign dests root cells.
Proof. intros Hc Hl. unfold Scan. rewrite Hc, Hl. reflexivity. Qed.

Lemma singleColumnRow_element convertAssign forType rs cells :
  closed rs = false -> lastcols rs = Some cells ->
  singleColumnRow convertAssign forType rs =
  singleColumnElement convertAssign forType cells.
Proof. apply Scan_current. Qed.

Lemma multiColumnRow_element convertAssign holderSuppliers provider rs cells :
  closed rs = false -> lastcols rs = Some cells ->
  multiColumnRow convertAssign holderSuppliers provider rs =
  multiColumnElement convertAssign holderSuppliers provider cells.
Proof.
  intros Hc Hl. unfold multiColumnRow, multiColumnElement.
  destruct (runProvider provider) as [holderElement|e| |]; try reflexivity. simpl.
  destruct (unwrapPtrStructValue _ holderElement) as [[[t v] levels]|e| |];
    try reflexivity. simpl.
  destruct (supplyAll t v holderSuppliers) as [dests|e| |]; try reflexivity. simpl.
  rewrite (Scan_current _ _ _ _ cells Hc Hl). reflexivity.
Qed.


(** ** The struct provider *)

(** The pointer layers of a type, and the type under them. *)
Fixpoint stripPtr (t : type) : nat * type :=
  match t with
  | PtrTo elem => let '(n, base) := stripPtr elem in (S n, base)
  | _ => (0, t)
  end.

(** A record type: a struct under any number of pointers. *)
Definition structRooted (t : type) : Prop :=
  exists nm sc fs, snd (stripPtr t) = StructOf nm sc fs.

Lemma PtrToTimes_PtrTo n t : PtrToTimes n (PtrTo t) = PtrTo (PtrToTimes n t).
Proof. induction n as [|n IH]; simpl; congruence. Qed.

Lemma stripPtr_PtrToTimes_struct k nm sc fs :
  stripPtr (PtrToTimes k (StructOf nm sc fs)) = (k, StructOf nm sc fs).
Proof. induction k as [|k IH]; simpl; [reflexivity | rewrite IH; reflexivity]. Qed.


Lemma providerOf_cons tsp t p t' :
  providerOf ((t, p) :: tsp) t' = if decide (t = t') then Some p else providerOf tsp t'.
Proof.
  unfold providerOf. simpl. destruct (decide (t = t')) as [->|Hne].
  - rewrite bool_decide_eq_true_2 by reflexivity. reflexivity.
  - rewrite bool_decide_eq_false_2 by assumption. reflexivity.
Qed.

Section ProviderShape.

Variable reg : list type.

(** A field type is not a leaf when a struct that is no smallest
    decomposition is under its pointer layers. *)
Definition nonLeaf (ft : type) : bool :=
  match snd (stripPtr ft) with
  | StructOf _ _ _ as s => negb (isSmallestStructDecomposition reg s)
  | _ => false
  end.

Lemma nonLeaf_PtrTo e : nonLeaf (PtrTo e) = nonLeaf e.
Proof. unfold nonLeaf. simpl. destruct (stripPtr e). reflexivity. Qed.

Lemma nonLeaf_struct ft :
  nonLeaf ft = true -> exists nm sc fs, snd (stripPtr ft) = StructOf nm sc fs.
Proof.
  unfold nonLeaf.
  destruct (snd (stripPtr ft)) as [| | |nm sc fs]; try discriminate. eauto.
Qed.

Lemma determineField_leaf rec tsp ft n :
  nonLeaf ft = false -> determineField reg rec tsp ft n = (Ok None, tsp).
Proof.
  revert n. induction ft as [k|e IH|e IH|nm s fs _] using type_fields_ind;
    intros n H; try reflexivity.
  - simpl. apply IH. rewrite <- nonLeaf_PtrTo. exact H.
  - unfold nonLeaf in H. simpl in *. apply negb_false_iff in H. rewrite H. reflexivity.
Qed.

Lemma determineField_nonLeaf rec tsp ft n :
  nonLeaf ft = true ->
  determineField reg rec tsp ft n =
  match rec tsp (snd (stripPtr ft)) with
  | (Ok provider, tsp') => (Ok (Some (n + fst (stripPtr ft), provider)), tsp')
  | (Fail e, tsp') => (Fail e, tsp')
  | (Panic, tsp') => (Panic, tsp')
  | (Hang, tsp') => (Hang, tsp')
  end.
Proof.
  revert n. induction ft as [k|e IH|e IH|nm s fs _] using type_fields_ind;
    intros n H; try discriminate.
  - simpl. rewrite IH by (rewrite <- nonLeaf_PtrTo; exact H).
    destruct (stripPtr e) as [m base]. simpl.
    replace (S (n + m)) with (n + S m) by lia. reflexivity.
  - unfold nonLeaf in H. simpl in *. apply negb_true_iff in H. rewrite H.
    rewrite Nat.add_0_r. reflexivity.
Qed.

Lemma initActionsOfFields_cons rec field rest i tsp initActions :
  initActionsOfFields reg rec (field :: rest) i tsp initActions =
  match determineField reg rec tsp (Typ field) 0 with
  | (Ok (Some (ptrNesting, provider)), tsp') =>
      initActionsOfFields reg rec rest (S i) tsp'
        (initActions ++ [(i, ptrNesting, provider)])
  | (Ok None, tsp') => initActionsOfFields reg rec rest (S i) tsp' initActions
  | (Fail e, tsp') => (Fail e, tsp')
  | (Panic, tsp') => (Panic, tsp')
  | (Hang, tsp') => (Hang, tsp')
  end.
Proof. reflexivity. Qed.

(** *** Invariants of the provider cache

    [G t p] is what is to hold of a provider [p] cached for a type [t]. *)

Section CacheInvariant.

Variable G : type -> structProvider -> Prop.

Definition cacheHolds (tsp : providers) : Prop :=
  forall t p, providerOf tsp t = Some p -> G t p.

Lemma cacheHolds_nil : cacheHolds [].
Proof. intros t p. discriminate. Qed.

Lemma cacheHolds_cons tsp t p : G t p -> cacheHolds tsp -> cacheHolds ((t, p) :: tsp).
Proof.
  intros Hg Hc t' p'. rewrite providerOf_cons.
  destruct (decide (t = t')) as [->|_]; [intros [= <-]; exact Hg | apply Hc].
Qed.

(** [rec] builds a provider for a type, keeping the invariant. *)
Definition builds (rec : providers -> type -> outcome structProvider * providers)
    (t : type) : Prop :=
  forall tsp, cacheHolds tsp ->
    exists p tsp', rec tsp t = (Ok p, tsp') /\ G t p /\ cacheHolds tsp'.

(** The init actions of the fields from index [i] on. *)
Inductive actionsFor : list (StructField type) -> nat ->
    list (nat * nat * structProvider) -> Prop :=
| actionsFor_nil i : actionsFor [] i []
| actionsFor_leaf f rest i acts :
    nonLeaf (Typ f) = false ->
    actionsFor rest (S i) acts ->
    actionsFor (f :: rest) i acts
| actionsFor_struct f rest i acts p :
    nonLeaf (Typ f) = true ->
    G (snd (stripPtr (Typ f))) p ->
    actionsFor rest (S i) acts ->
    actionsFor (f :: rest) i ((i, fst (stripPtr (Typ f)), p) :: acts).

Lemma initActionsOfFields_builds rec fields :
  Forall (fun f => nonLeaf (Typ f) = true -> builds rec (snd (stripPtr (Typ f)))) fields ->
  forall i tsp acts0, cacheHolds tsp ->
    exists acts tsp',
      initActionsOfFields reg rec fields i tsp acts0 = (Ok (acts0 ++ acts), tsp') /\
      actionsFor fields i acts /\ cacheHolds tsp'.
Proof.
  induction 1 as [|f rest Hf _ IH]; intros i tsp acts0 Hc.
  - exists [], tsp. simpl. rewrite app_nil_r.
    split; [reflexivity | split; [constructor | exact Hc]].
  - rewrite initActionsOfFields_cons. destruct (nonLeaf (Typ f)) eqn:Hleaf.
    + rewrite determineField_nonLeaf by exact Hleaf.
      destruct (Hf eq_refl tsp Hc) as (p & tsp1 & Hrec & Hgood & Hc1). rewrite Hrec.
      destruct (IH (S i) tsp1 (acts0 ++ [(i, fst (stripPtr (Typ f)), p)]) Hc1)
        as (acts & tsp' & Hrun & Hacts & Hc').
      exists ((i, fst (stripPtr (Typ f)), p) :: acts), tsp'.
      change (0 + fst (stripPtr (Typ f))) with (fst (stripPtr (Typ f))).
      rewrite Hrun, <- app_assoc.
      split; [reflexivity | split; [constructor; assumption | exact Hc']].
    + rewrite determineField_leaf by exact Hleaf.
      destruct (IH (S i) tsp acts0 Hc) as (acts & tsp' & Hrun & Hacts & Hc').
      exists acts, tsp'.
      split; [exact Hrun | split; [constructor; assumption | exact Hc']].
Qed.

(** The invariant holds of a provider built from init actions that have it. *)
Hypothesis G_new : forall k nm sc fields acts,
  actionsFor fields 0 acts ->
  G (PtrToTimes k (StructOf nm sc fields)) (Provider (StructOf nm sc fields) k acts).

(** [createProvider] at a type [levels] pointers under [forType]. *)
Definition creates (t : type) : Prop :=
  forall forType levels tsp,
    cacheHolds tsp -> structRooted t -> PtrToTimes levels t = forType ->
    exists p tsp',
      createProvider reg (getOrCreate reg) tsp forType t levels = (Ok p, tsp') /\
      G forType p /\ cacheHolds tsp'.

Lemma creates_builds t : structRooted t -> creates t -> builds (getOrCreate reg) t.
Proof.
  intros Hroot Hcreates tsp Hc.
  destruct (providerOf tsp t) as [p|] eqn:Hp.
  - exists p, tsp. split; [|split; [apply Hc; exact Hp | exact Hc]].
    destruct t; simpl; rewrite Hp; reflexivity.
  - destruct (Hcreates t 0 tsp Hc Hroot eq_refl) as (p & tsp' & Hrun & Hg & Hc').
    exists p, tsp'. split; [|split; assumption].
    destruct t; simpl; rewrite Hp; exact Hrun.
Qed.

Lemma creates_all t : creates (snd (stripPtr t)) /\ creates t.
Proof.
  induction t as [k|e [IHb IH]|e _|nm sc fs IH] using type_fields_ind.
  - split; intros forType levels tsp _ (? & ? & ? & Hroot); discriminate.
  - split.
    + simpl. destruct (stripPtr e). exact IHb.
    + intros forType levels tsp Hc Hroot Hty. simpl.
      apply IH; [exact Hc | | rewrite <- Hty, PtrToTimes_PtrTo; reflexivity].
      destruct Hroot as (a & b & c & Hroot). exists a, b, c.
      simpl in Hroot. destruct (stripPtr e). exact Hroot.
  - split; intros forType levels tsp _ (? & ? & ? & Hroot); discriminate.
  - assert (Hthis : creates (StructOf nm sc fs)).
    { intros forType levels tsp Hc _ Hty. simpl.
      destruct (initActionsOfFields_builds (getOrCreate reg) fs) with (i := 0)
        (tsp := tsp) (acts0 := @nil (nat * nat * structProvider))
        as (acts & tsp' & Hrun & Hacts & Hc'); [|exact Hc|].
      - eapply Forall_impl; [exact IH|]. intros f [Hb _] Hleaf.
        apply creates_builds; [|exact Hb].
        destruct (nonLeaf_struct _ Hleaf) as (a & b & c & Hbase).
        exists a, b, c. rewrite Hbase. reflexivity.
      - rewrite Hrun. simpl. eexists _, _. split; [reflexivity|].
        assert (Hg : G forType (Provider (StructOf nm sc fs) levels acts)).
        { rewrite <- Hty. apply G_new. exact Hacts. }
        split; [exact Hg | apply cacheHolds_cons; assumption]. }
    split; exact Hthis.
Qed.

Lemma getOrCreate_builds t : structRooted t -> builds (getOrCreate reg) t.
Proof. intros Hroot. apply creates_builds; [exact Hroot | apply creates_all]. Qed.

End CacheInvariant.

(** *** The instance a provider returns *)



















(** The provider cache holds, for a type, providers of values of the type. *)
Definition typedProviders (tsp : providers) : Prop :=
  cacheHolds (fun t p => providedType p = t) tsp.

Lemma getOrCreate_typed t tsp :
  structRooted t -> typedProviders tsp ->
  exists p tsp',
    getOrCreate reg tsp t = (Ok p, tsp') /\ providedType p = t /\ typedProviders tsp'.
Proof.
  intros Hroot Hc.
  exact (getOrCreate_builds (fun t p => providedType p = t)
           (fun k nm sc fields acts _ => eq_refl) t Hroot tsp Hc).
Qed.

End ProviderShape.


(** ** Accessor resolution *)

(** The registrations in the order the resolver makes them, each with the
    key, the field's type and the index path of the field: the fields in
    declaration order, and for a field that is a struct or a pointer to
    one, what is under it before the field itself. *)
Definition registrationsOfFields
    (rec : list nat -> type -> list (string * (type * list nat)))
    (folding : list nat) :=
  fix loop (fields : list (StructField type)) (i : nat)
      : list (string * (type * list nat)) :=
    match fields with
    | [] => []
    | field :: rest =>
        (if isStructOrPtrToStruct (Typ field)
         then rec (folding ++ [i]) (Typ field) else []) ++
        (columnAliasOf field, (Typ field, folding ++ [i])) :: loop rest (S i)
    end.

Fixpoint registrations (folding : list nat) (t : type)
    : list (string * (type * list nat)) :=
  match t with
  | PtrTo elem => registrations folding elem
  | StructOf _ _ fields => registrationsOfFields registrations folding fields 0
  | _ => []
  end.

(** Later registrations overwrite earlier ones of the same key. *)
Definition overwrite {V} (m : gmap string V) (regs : list (string * V))
    : gmap string V :=
  foldl (fun m r => <[fst r := snd r]> m) m regs.

Lemma overwrite_app {V} (m : gmap string V) r1 r2 :
  overwrite m (r1 ++ r2) = overwrite (overwrite m r1) r2.
Proof. apply foldl_app. Qed.

Lemma overwrite_fmap {V W} (g : V -> W) (m : gmap string V) regs :
  g <$> overwrite m regs = overwrite (g <$> m) (prod_map id g <$> regs).
Proof.
  revert m. induction regs as [|[k v] regs IH]; intros m; [reflexivity|].
  simpl. rewrite IH, fmap_insert. reflexivity.
Qed.

(** What an accessor says without the heap: the type and the length of the path. *)
Definition outline (a : fieldAccessor) : type * nat :=
  (fieldType a, len (fieldIndex a)).

(** What an accessor denotes in a heap. *)
Definition denotation (h : heap) (a : fieldAccessor) : type * list nat :=
  (fieldType a, elems h (fieldIndex a)).

Lemma append_len h s x : len (snd (append h s x)) = S (len s).
Proof. unfold append. destruct (decide (len s < cap s)); reflexivity. Qed.

Lemma accessorsOfFields_cons rec folding field rest i m h :
  accessorsOfFields rec folding (field :: rest) i m h =
  ('(m1, h1) ←
     (if isStructOrPtrToStruct (Typ field) then
        let '(h0, folding') := append h folding i in
        rec m h0 folding' (Typ field)
      else Ok (m, h));
   let '(h2, index) := append h1 folding i in
   accessorsOfFields rec folding rest (S i)
     (<[columnAliasOf field := mkAccessor (Typ field) index]> m1) h2).
Proof. reflexivity. Qed.

Lemma registrationsOfFields_cons rec folding field rest i :
  registrationsOfFields rec folding (field :: rest) i =
  (if isStructOrPtrToStruct (Typ field)
   then rec (folding ++ [i]) (Typ field) else []) ++
  (columnAliasOf field, (Typ field, folding ++ [i])) ::
  registrationsOfFields rec folding rest (S i).
Proof. reflexivity. Qed.

Lemma isStructOrPtrToStruct_rooted t :
  isStructOrPtrToStruct t = true -> structRooted t.
Proof.
  destruct t as [k|[k|e|e|nm sc fs]|e|nm sc fs]; try discriminate; intros _.
  - exists nm, sc, fs. reflexivity.
  - exists nm, sc, fs. reflexivity.
Qed.

Definition outlineOf (r : string * (type * list nat)) : string * (type * nat) :=
  prod_map id (prod_map id length) r.

(** The resolver returns for every record type, and the map it fills is
    the one the registrations give, the later overwriting the earlier. *)
Lemma createFieldsAccessorsRecursively_outline t :
  structRooted t ->
  forall m h folding p, length p = len folding ->
    exists m' h',
      createFieldsAccessorsRecursively m h folding t = Ok (m', h') /\
      outline <$> m' = overwrite (outline <$> m) (outlineOf <$> registrations p t).
Proof.
  induction t as [k|e IH|e _|nm sc fs IH] using type_fields_ind; intros Hroot.
  - destruct Hroot as (? & ? & ? & ?); discriminate.
  - intros m h folding p Hp. simpl. apply IH; [|exact Hp].
    destruct Hroot as (a & b & c & Hroot). exists a, b, c.
    simpl in Hroot. destruct (stripPtr e). exact Hroot.
  - destruct Hroot as (? & ? & ? & ?); discriminate.
  - clear Hroot. intros m h folding p Hp. simpl. generalize 0 as i. revert m h.
    induction IH as [|f rest Hf _ IHrest]; intros m h i.
    + exists m, h. split; reflexivity.
    + rewrite accessorsOfFields_cons, registrationsOfFields_cons.
      assert (Hchild : exists m1 h1,
        (if isStructOrPtrToStruct (Typ f) then
           let '(h0, folding') := append h folding i in
           createFieldsAccessorsRecursively m h0 folding' (Typ f)
         else Ok (m, h)) = Ok (m1, h1) /\
        outline <$> m1 =
        overwrite (outline <$> m)
          (outlineOf <$> (if isStructOrPtrToStruct (Typ f)
                          then registrations (p ++ [i]) (Typ f) else []))).
      { destruct (isStructOrPtrToStruct (Typ f)) eqn:Hs.
        - pose proof (append_len h folding i) as Hlen.
          destruct (append h folding i) as [h0 folding'].
          apply Hf; [apply isStructOrPtrToStruct_rooted; exact Hs|].
          rewrite length_app. simpl in *. lia.
        - exists m, h. split; reflexivity. }
      destruct Hchild as (m1 & h1 & Hrun & Hm1). rewrite Hrun.
      cbn [mbind outcome_bind].
      pose proof (append_len h1 folding i) as Hlen.
      destruct (append h1 folding i) as [h2 index].
      destruct (IHrest (<[columnAliasOf f := mkAccessor (Typ f) index]> m1) h2 (S i))
        as (m' & h' & Hloop & Hm').
      exists m', h'. split; [exact Hloop|].
      rewrite Hm', fmap_app, overwrite_app, fmap_cons, fmap_insert, Hm1.
      simpl in Hlen. unfold outline at 1, outlineOf at 3. simpl.
      rewrite length_app, Hlen, Hp. simpl. rewrite Nat.add_1_r. reflexivity.
Qed.

(** *** Index paths of shallow record types

    A slice whose capacity is its length is copied by [append]; the gc
    runtime grows a slice of no capacity to 1, of 1 to 2 and of 2 to 4, so
    that the index paths of length up to 3 have backing arrays of their
    own. *)

(** The longest index path of a type. *)
Definition depthOfFields (rec : type -> nat) :=
  fix loop (fields : list (StructField type)) : nat :=
    match fields with
    | [] => 0
    | field :: rest =>
        max (S (if isStructOrPtrToStruct (Typ field) then rec (Typ field) else 0))
            (loop rest)
    end.

Fixpoint depth (t : type) : nat :=
  match t with
  | PtrTo elem => depth elem
  | StructOf _ _ fields => depthOfFields depth fields
  | _ => 0
  end.

(** A slice denotes a path in a heap. *)
Definition denotes (h : heap) (s : slice) (p : list nat) : Prop :=
  elems h s = p /\ length p = len s /\ (len s = 0 \/ arr s < length h).

(** The accessors of a map have their backing arrays in the heap. *)
Definition backed (h : heap) (m : gmap string fieldAccessor) : Prop :=
  forall k a, m !! k = Some a -> arr (fieldIndex a) < length h.

Lemma elems_extend h ext s :
  len s = 0 \/ arr s < length h -> elems (h ++ ext) s = elems h s.
Proof.
  unfold elems. intros [H0|Hlt].
  - rewrite H0. reflexivity.
  - rewrite lookup_app_l by exact Hlt. reflexivity.
Qed.

Lemma denotes_extend h ext s p : denotes h s p -> denotes (h ++ ext) s p.
Proof.
  intros (He & Hl & Hv). split; [|split; [exact Hl|]].
  - rewrite elems_extend by exact Hv. exact He.
  - destruct Hv as [H0|Hlt]; [left; exact H0 | right].
    rewrite length_app. lia.
Qed.

Lemma backed_extend h ext m : backed h m -> backed (h ++ ext) m.
Proof. intros Hb k a Hk. specialize (Hb k a Hk). rewrite length_app. lia. Qed.

Lemma denotation_extend h ext m :
  backed h m -> denotation (h ++ ext) <$> m = denotation h <$> m.
Proof.
  intros Hb. apply map_eq. intros k. rewrite !lookup_fmap.
  destruct (m !! k) as [a|] eqn:Hk; [|reflexivity]. simpl.
  unfold denotation. rewrite elems_extend; [reflexivity|].
  right. exact (Hb k a Hk).
Qed.

Lemma take_snoc_padded (p : list nat) x pad n :
  length p = n -> take (S n) (p ++ x :: pad) = p ++ [x].
Proof.
  intros Hn. rewrite cons_middle, app_assoc.
  apply take_app_length'. rewrite length_app. simpl. lia.
Qed.

(** [append] to a slice whose capacity is its length. *)
Lemma append_copies h s x p :
  cap s = len s -> denotes h s p ->
  exists ext s',
    append h s x = (h ++ ext, s') /\ denotes (h ++ ext) s' (p ++ [x]) /\
    arr s' = length h /\ len s' = S (len s) /\
    cap s' = growslice (len s) (S (len s)).
Proof.
  intros Hcap (He & Hl & Hv). unfold append.
  destruct (decide (len s < cap s)) as [Hlt|_]; [lia|].
  eexists _, _. split; [reflexivity|]. rewrite Hcap. simpl.
  split; [|auto].
  split; [|split].
  - unfold elems. simpl. rewrite lookup_app_r by lia. rewrite Nat.sub_diag. simpl.
    fold (elems h s). rewrite He. apply take_snoc_padded. exact Hl.
  - simpl. rewrite length_app. simpl. lia.
  - right. simpl. rewrite length_app. simpl. lia.
Qed.

Lemma growslice_small n : n ≤ 1 -> growslice n (S n) = S n.
Proof. intros Hn. destruct n as [|[|n]]; [reflexivity | reflexivity | lia]. Qed.

Lemma denotes_prefix h h' s p : h `prefix_of` h' -> denotes h s p -> denotes h' s p.
Proof. intros [ext ->]. apply denotes_extend. Qed.

Lemma backed_prefix h h' m : h `prefix_of` h' -> backed h m -> backed h' m.
Proof. intros [ext ->]. apply backed_extend. Qed.

Lemma denotation_prefix h h' m :
  h `prefix_of` h' -> backed h m -> denotation h' <$> m = denotation h <$> m.
Proof. intros [ext ->]. apply denotation_extend. Qed.

Lemma backed_insert h m k a :
  arr (fieldIndex a) < length h -> backed h m -> backed h (<[k := a]> m).
Proof.
  intros Ha Hb k' a'. rewrite lookup_insert. case_decide.
  - intros [= <-]. exact Ha.
  - apply Hb.
Qed.

Lemma depth_zero_fields fields : depthOfFields depth fields = 0 -> fields = [].
Proof. destruct fields; [reflexivity|]. simpl. lia. Qed.

(** What the resolver does on a type whose paths fit: the heap only grows,
    and the accessors denote the paths of the registrations. *)
Definition resolvesPaths (t : type) : Prop :=
  forall m h folding p,
    denotes h folding p -> backed h m ->
    depth t = 0 \/ (cap folding = len folding /\ len folding + depth t ≤ 3) ->
    exists m' h',
      createFieldsAccessorsRecursively m h folding t = Ok (m', h') /\
      h `prefix_of` h' /\ backed h' m' /\
      denotation h' <$> m' = overwrite (denotation h <$> m) (registrations p t).

Lemma accessorsOfFields_paths folding p fields :
  Forall (fun f => structRooted (Typ f) -> resolvesPaths (Typ f)) fields ->
  forall i m h,
    denotes h folding p -> backed h m ->
    fields = [] \/
      (cap folding = len folding /\ len folding + depthOfFields depth fields ≤ 3) ->
    exists m' h',
      accessorsOfFields createFieldsAccessorsRecursively folding fields i m h =
        Ok (m', h') /\
      h `prefix_of` h' /\ backed h' m' /\
      denotation h' <$> m' =
        overwrite (denotation h <$> m)
          (registrationsOfFields registrations p fields i).
Proof.
  induction 1 as [|f rest Hf _ IHrest]; intros i m h Hden Hback Hfit.
  - exists m, h. split; [reflexivity|]. split; [reflexivity|]. split; [exact Hback|reflexivity].
  - destruct Hfit as [Hnil|[Htight Hfit]]; [discriminate|].
    cbn [depthOfFields] in Hfit.
    rewrite accessorsOfFields_cons, registrationsOfFields_cons.
    assert (Hchild : exists m1 h1,
      (if isStructOrPtrToStruct (Typ f) then
         let '(h0, folding') := append h folding i in
         createFieldsAccessorsRecursively m h0 folding' (Typ f)
       else Ok (m, h)) = Ok (m1, h1) /\
      h `prefix_of` h1 /\ backed h1 m1 /\
      denotation h1 <$> m1 =
        overwrite (denotation h <$> m)
          (if isStructOrPtrToStruct (Typ f)
           then registrations (p ++ [i]) (Typ f) else [])).
    { destruct (isStructOrPtrToStruct (Typ f)) eqn:Hs.
      - destruct (append_copies h folding i p Htight Hden)
          as (ext0 & folding' & Happ & Hden' & _ & Hlen' & Hcap').
        rewrite Happ.
        destruct (Hf (isStructOrPtrToStruct_rooted _ Hs) m (h ++ ext0) folding' (p ++ [i]))
          as (m1 & h1 & Hrun & Hpre & Hback1 & Hm1).
        + exact Hden'.
        + apply backed_extend. exact Hback.
        + destruct (depth (Typ f)) as [|d] eqn:Hd; [left; reflexivity | right].
          rewrite Hcap', Hlen'. split; [apply growslice_small|]; lia.
        + exists m1, h1. split; [exact Hrun|].
          split; [etrans; [apply prefix_app_r; reflexivity | exact Hpre]|].
          split; [exact Hback1|].
          rewrite Hm1, denotation_extend by exact Hback. reflexivity.
      - exists m, h. split; [reflexivity|]. split; [reflexivity|].
        split; [exact Hback | reflexivity]. }
    destruct Hchild as (m1 & h1 & Hrun & Hpre1 & Hback1 & Hm1). rewrite Hrun.
    cbn [mbind outcome_bind].
    destruct (append_copies h1 folding i p Htight (denotes_prefix _ _ _ _ Hpre1 Hden))
      as (ext2 & index & Happ & Hden2 & Harr & Hlen2 & _).
    rewrite Happ.
    destruct (IHrest (S i) (<[columnAliasOf f := mkAccessor (Typ f) index]> m1)
                (h1 ++ ext2))
      as (m' & h' & Hloop & Hpre' & Hback' & Hm').
    + apply denotes_extend. exact (denotes_prefix _ _ _ _ Hpre1 Hden).
    + apply backed_insert; [|apply backed_extend; exact Hback1].
      destruct Hden2 as (_ & _ & [H0|Hlt]); [|exact Hlt].
      cbn [fieldIndex] in *. lia.
    + destruct rest as [|f' rest']; [left; reflexivity | right].
      split; [exact Htight | lia].
    + exists m', h'. split; [exact Hloop|].
      split; [etrans; [exact Hpre1 | etrans; [apply prefix_app_r; reflexivity | exact Hpre']]|].
      split; [exact Hback'|].
      rewrite Hm', overwrite_app. cbn [overwrite foldl fst snd].
      rewrite fmap_insert, (denotation_extend h1 ext2 m1 Hback1), Hm1.
      unfold denotation at 1. cbn [fieldType fieldIndex].
      destruct Hden2 as (He & _). rewrite He. reflexivity.
Qed.

Lemma createFieldsAccessorsRecursively_paths t : structRooted t -> resolvesPaths t.
Proof.
  induction t as [k|e IH|e _|nm sc fs IH] using type_fields_ind; intros Hroot.
  - destruct Hroot as (? & ? & ? & ?); discriminate.
  - intros m h folding p Hden Hback Hfit. simpl. apply IH; try assumption.
    destruct Hroot as (a & b & c & Hroot). exists a, b, c.
    simpl in Hroot. destruct (stripPtr e). exact Hroot.
  - destruct Hroot as (? & ? & ? & ?); discriminate.
  - intros m h folding p Hden Hback Hfit. simpl.
    apply accessorsOfFields_paths; try assumption.
    destruct Hfit as [H0|Hfit]; [left; apply depth_zero_fields; exact H0 | right; exact Hfit].
Qed.

(** *** What the resolver returns *)

(** The last registration of a key. *)
Definition lastRegistered {V} (k : string) (regs : list (string * V)) : option V :=
  snd <$> List.find (fun r => bool_decide (fst r = k)) (reverse regs).

Lemma overwrite_snoc {V} (m : gmap string V) regs r :
  overwrite m (regs ++ [r]) = <[fst r := snd r]> (overwrite m regs).
Proof. rewrite overwrite_app. reflexivity. Qed.

Lemma overwrite_lookup {V} (m : gmap string V) regs k :
  overwrite m regs !! k =
  match lastRegistered k regs with
  | Some v => Some v
  | None => m !! k
  end.
Proof.
  induction regs as [|r regs IH] using rev_ind; [reflexivity|].
  rewrite overwrite_snoc. unfold lastRegistered in *. rewrite reverse_snoc. simpl.
  rewrite lookup_insert. destruct (decide (fst r = k)) as [Hk|Hk].
  - rewrite bool_decide_eq_true_2 by exact Hk. reflexivity.
  - rewrite bool_decide_eq_false_2 by exact Hk. exact IH.
Qed.

Lemma lastRegistered_fmap {V W} (g : V -> W) k (regs : list (string * V)) :
  lastRegistered k (prod_map id g <$> regs) = g <$> lastRegistered k regs.
Proof.
  unfold lastRegistered. rewrite <- fmap_reverse.
  induction (reverse regs) as [|[k' v] l IH]; [reflexivity|].
  simpl. destruct (bool_decide (k' = k)); [reflexivity | exact IH].
Qed.

Lemma lastRegistered_app_None {V} k (r1 r2 : list (string * V)) :
  lastRegistered k r2 = None -> lastRegistered k (r1 ++ r2) = lastRegistered k r1.
Proof.
  unfold lastRegistered. rewrite reverse_app.
  induction (reverse r2) as [|[k' v] l IH]; [reflexivity|].
  simpl. destruct (bool_decide (k' = k)); [discriminate | exact IH].
Qed.

Lemma lastRegistered_snoc {V} k (regs : list (string * V)) v :
  lastRegistered k (regs ++ [(k, v)]) = Some v.
Proof.
  unfold lastRegistered. rewrite reverse_snoc. simpl.
  rewrite bool_decide_eq_true_2 by reflexivity. reflexivity.
Qed.

Lemma registrations_PtrToTimes n p t :
  registrations p (PtrToTimes n t) = registrations p t.
Proof. induction n as [|n IH]; [reflexivity | exact IH]. Qed.

Lemma registrationsOfFields_app rec folding before after i :
  registrationsOfFields rec folding (before ++ after) i =
  registrationsOfFields rec folding before i ++
  registrationsOfFields rec folding after (i + length before).
Proof.
  revert i. induction before as [|f before IH]; intros i.
  - simpl. rewrite Nat.add_0_r. reflexivity.
  - rewrite <- app_comm_cons, !registrationsOfFields_cons, IH.
    rewrite <- app_assoc. simpl.
    replace (S (i + length before)) with (i + S (length before)) by lia.
    reflexivity.
Qed.

Lemma denotes_nil : denotes [] nilSlice [].
Proof. split; [reflexivity | split; [reflexivity | left; reflexivity]]. Qed.

Lemma backed_empty h : backed h ∅.
Proof. intros k a. rewrite lookup_empty. discriminate. Qed.

(** For every record type the resolver returns, and every key of the map
    holds the type and the path length of the last registration made under
    it; when the longest path is at most 3 the path is the registration's. *)
Lemma createFieldsAccessors_resolved t :
  structRooted t ->
  exists m h,
    createFieldsAccessors t = Ok (m, h) /\
    (forall k, outline <$> m !! k =
               prod_map id length <$> lastRegistered k (registrations [] t)) /\
    (depth t ≤ 3 ->
     forall k, denotation h <$> m !! k = lastRegistered k (registrations [] t)).
Proof.
  intros Hroot.
  destruct (createFieldsAccessorsRecursively_outline t Hroot ∅ [] nilSlice [] eq_refl)
    as (m & h & Hrun & Hm).
  exists m, h. split; [exact Hrun|]. split.
  - intros k. rewrite <- lookup_fmap, Hm, overwrite_lookup, fmap_empty, lookup_empty.
    unfold outlineOf. rewrite lastRegistered_fmap.
    destruct (lastRegistered k (registrations [] t)); reflexivity.
  - intros Hdepth k.
    destruct (createFieldsAccessorsRecursively_paths t Hroot ∅ [] nilSlice []
                denotes_nil (backed_empty []))
      as (m' & h' & Hrun' & _ & _ & Hm').
    { right. split; [reflexivity | simpl; lia]. }
    unfold createFieldsAccessors in Hrun. rewrite Hrun in Hrun'.
    injection Hrun' as <- <-.
    rewrite <- lookup_fmap, Hm', overwrite_lookup, fmap_empty, lookup_empty.
    destruct (lastRegistered k (registrations [] t)); reflexivity.
Qed.

(** C3.  For every record type the resolver returns a map in which every
    key holds the type and the path length of the last registration made
    under it, the registrations being made field by field in declaration
    order, for a struct or pointer-to-struct field those under it first and
    then the field itself under its tag or its lower-cased name; when the
    longest path is at most 3 the paths are those of the registrations.
    So a field of a struct kept under the key [k], with no later field
    registering [k], holds the entry of [k] whatever was registered under
    it from the struct it contains. *)
Theorem accessor_resolution_last_write_wins t :
  structRooted t ->
  exists m h,
    createFieldsAccessors t = Ok (m, h) /\
    (forall k, outline <$> m !! k =
               prod_map id length <$> lastRegistered k (registrations [] t)) /\
    (depth t ≤ 3 ->
     forall k, denotation h <$> m !! k = lastRegistered k (registrations [] t)) /\
    (forall n nm sc before f after,
       t = PtrToTimes n (StructOf nm sc (before ++ f :: after)) ->
       lastRegistered (columnAliasOf f)
         (registrationsOfFields registrations [] after (S (length before))) = None ->
       outline <$> m !! columnAliasOf f = Some (Typ f, 1)).
Proof.
  intros Hroot.
  destruct (createFieldsAccessors_resolved t Hroot) as (m & h & Hrun & Hkeys & Hpaths).
  exists m, h. split; [exact Hrun|]. split; [exact Hkeys|]. split; [exact Hpaths|].
  intros n nm sc before f after -> Hlater. rewrite Hkeys.
  rewrite registrations_PtrToTimes. cbn [registrations].
  rewrite registrationsOfFields_app, registrationsOfFields_cons.
  rewrite app_assoc, cons_middle, app_assoc.
  rewrite lastRegistered_app_None by (rewrite Nat.add_0_l; exact Hlater).
  rewrite lastRegistered_snoc. reflexivity.
Qed.


(** ** Binding columns to fields *)

(** The supplier a column gets from a map of accessors. *)
Definition bindingOf (m : gmap string fieldAccessor) (h : heap)
    (columnType : sql.ColumnType) : holderSupplier :=
  match m !! ToLower (sql.name columnType) with
  | Some accessor => holderByFieldIndexPath (elems h (fieldIndex accessor))
  | None => holderSkipColumn
  end.

Lemma holderSuppliersLoop_Ok camtChk ctChk m h cols acc hs :
  holderSuppliersLoop camtChk ctChk m h cols acc = Ok hs ->
  hs = acc ++ map (bindingOf m h) cols.
Proof.
  revert acc. induction cols as [|c cols IH]; intros acc; simpl.
  - intros [= <-]. rewrite app_nil_r. reflexivity.
  - unfold bindingOf at 1. destruct (m !! ToLower (sql.name c)) as [a|].
    + destruct (ctChk && negb (bool_decide (sql.scanType c = fieldType a)));
        [discriminate|].
      intros H. rewrite (IH _ H), <- app_assoc. reflexivity.
    + destruct camtChk; [discriminate|].
      intros H. rewrite (IH _ H), <- app_assoc. reflexivity.
Qed.

Lemma holderSuppliersLoop_lenient m h cols acc :
  holderSuppliersLoop false false m h cols acc = Ok (acc ++ map (bindingOf m h) cols).
Proof.
  revert acc. induction cols as [|c cols IH]; intros acc; simpl.
  - rewrite app_nil_r. reflexivity.
  - unfold bindingOf at 1. destruct (m !! ToLower (sql.name c)) as [a|];
      rewrite IH, <- app_assoc; reflexivity.
Qed.

(** The errors of plan compilation that the strictness flags raise. *)
Definition strictnessError (ctChk : bool) (cols : list sql.ColumnType) (e : error)
    : Prop :=
  (exists c, c ∈ cols /\ e = ErrNoMapping (sql.name c)) \/
  (ctChk = true /\
   exists c ft, c ∈ cols /\ e = ErrTypeCheck (sql.name c) ft (sql.scanType c)).

Lemma strictnessError_cons ctChk c cols e :
  strictnessError ctChk cols e -> strictnessError ctChk (c :: cols) e.
Proof.
  intros [(c' & Hin & He)|(Hct & c' & ft & Hin & He)]; [left | right; split; [exact Hct|]].
  - exists c'. split; [right; exact Hin | exact He].
  - exists c', ft. split; [right; exact Hin | exact He].
Qed.

Lemma holderSuppliersLoop_strict ctChk m h cols acc :
  Exists (fun c => m !! ToLower (sql.name c) = None) cols ->
  exists e, holderSuppliersLoop true ctChk m h cols acc = Fail e /\
            strictnessError ctChk cols e.
Proof.
  intros Hex. revert acc. induction Hex as [c cols Hc|c cols _ IH]; intros acc; simpl.
  - rewrite Hc. eexists. split; [reflexivity|]. left. exists c.
    split; [left | reflexivity].
  - destruct (m !! ToLower (sql.name c)) as [a|].
    + destruct ctChk; simpl.
      * destruct (bool_decide (sql.scanType c = fieldType a)); simpl.
        -- destruct (IH (acc ++ [holderByFieldIndexPath (elems h (fieldIndex a))]))
             as (e & He & Hs).
           exists e. split; [exact He | apply strictnessError_cons; exact Hs].
        -- eexists. split; [reflexivity|]. right. split; [reflexivity|].
           exists c, (fieldType a). split; [left | reflexivity].
      * destruct (IH (acc ++ [holderByFieldIndexPath (elems h (fieldIndex a))]))
          as (e & He & Hs).
        exists e. split; [exact He | apply strictnessError_cons; exact Hs].
    + eexists. split; [reflexivity|]. left. exists c. split; [left | reflexivity].
Qed.





(** ** The package state *)

(** The scan definitions cached for a type. *)
Definition cachedFor (st : state) (t : type) : list scanDefinition :=
  default [] (scanDefinitionsOf (scanDefinitionsMgr st) t).

(** A mapper fits a type when the elements it makes are of the type. *)
Definition fits (t : type) (m : rowsMapper) : Prop :=
  match m with
  | singleColumnRows forType => forType = t
  | multiColumnRows _ provider => providedType provider = t
  end.

(** What holds of the caches of every state the package reaches. *)
Definition wellFormed (st : state) : Prop :=
  typedProviders (structProviderMgr st) /\
  forall t d, d ∈ cachedFor st t -> fits t (mapper d).

Lemma wellFormed_initialState : wellFormed initialState.
Proof.
  split; [apply cacheHolds_nil|]. intros t d Hd.
  apply elem_of_nil in Hd. contradiction.
Qed.

Lemma scanDefinitionsOf_cons byType t ds t' :
  scanDefinitionsOf ((t, ds) :: byType) t' =
  if decide (t = t') then Some ds else scanDefinitionsOf byType t'.
Proof.
  unfold scanDefinitionsOf. simpl. destruct (decide (t = t')) as [->|Hne].
  - rewrite bool_decide_eq_true_2 by reflexivity. reflexivity.
  - rewrite bool_decide_eq_false_2 by assumption. reflexivity.
Qed.

Lemma createFieldsAccessorsRecursively_rooted t m h folding r :
  createFieldsAccessorsRecursively m h folding t = Ok r -> structRooted t.
Proof.
  revert m h folding. induction t as [k|e IH|e _|nm sc fs _] using type_fields_ind;
    intros m h folding; simpl; try discriminate.
  - intros H. destruct (IH _ _ _ H) as (a & b & c & Hroot). exists a, b, c.
    simpl. destruct (stripPtr e). exact Hroot.
  - intros _. exists nm, sc, fs. reflexivity.
Qed.

Lemma createHolderSuppliers_rooted camtChk ctChk t cols hs :
  createHolderSuppliers camtChk ctChk t cols = Ok hs -> structRooted t.
Proof.
  unfold createHolderSuppliers, createFieldsAccessors.
  destruct (createFieldsAccessorsRecursively ∅ [] nilSlice t) as [r|e| |] eqn:Hrun;
    try discriminate.
  intros _. exact (createFieldsAccessorsRecursively_rooted _ _ _ _ _ Hrun).
Qed.

Lemma getOrCreateSync_typed reg tsp t :
  structRooted t -> typedProviders tsp ->
  exists p tsp',
    getOrCreateSync reg tsp t = (Ok p, tsp') /\ providedType p = t /\
    typedProviders tsp'.
Proof.
  intros Hroot Hc. unfold getOrCreateSync.
  destruct (providerOf tsp t) as [p|] eqn:Hp.
  - exists p, tsp. split; [reflexivity|]. split; [exact (Hc t p Hp) | exact Hc].
  - apply getOrCreate_typed; assumption.
Qed.

Lemma createRowsMapper_fits st t cols r tsp :
  typedProviders (structProviderMgr st) ->
  createRowsMapper st t cols = (r, tsp) ->
  typedProviders tsp /\ forall m, r = Ok m -> fits t m.
Proof.
  intros Htyped. unfold createRowsMapper, multiColumnMapper.
  destruct (isSingleBasicType (smallestStructDecompositions st) t).
  { intros [= <- <-]. split; [exact Htyped|]. intros m [= <-]. reflexivity. }
  destruct (createHolderSuppliers _ _ t cols) as [hs|e| |] eqn:Hhs;
    try (intros [= <- <-]; split; [exact Htyped | intros m; discriminate]).
  destruct (getOrCreateSync_typed (smallestStructDecompositions st)
              (structProviderMgr st) t (createHolderSuppliers_rooted _ _ _ _ _ Hhs) Htyped)
    as (p & tsp' & Hrun & Hty & Htyped').
  rewrite Hrun. intros [= <- <-]. split; [exact Htyped'|].
  intros m [= <-]. exact Hty.
Qed.

Lemma create_wellFormed st t cols r st' :
  wellFormed st -> create st t cols = (r, st') ->
  wellFormed st' /\ forall d, r = Ok d -> fits t (mapper d).
Proof.
  intros [Htyped Hfits]. unfold create.
  destruct (createRowsMapper st t cols) as [rm tsp] eqn:Hrm.
  destruct (createRowsMapper_fits st t cols rm tsp Htyped Hrm) as [Htyped' Hm].
  destruct rm as [m|e| |]; intros [= <- <-];
    try (split; [split; [exact Htyped' | exact Hfits] | intros d; discriminate]).
  split; [split; [exact Htyped'|] | intros d [= <-]; apply Hm; reflexivity].
  intros t' d. unfold cachedFor. cbn [scanDefinitionsMgr].
  rewrite scanDefinitionsOf_cons. destruct (decide (t = t')) as [<-|Hne].
  - cbn [default from_option id]. fold (cachedFor st t).
    rewrite elem_of_app, list_elem_of_singleton.
    intros [Hold| ->]; [apply Hfits; exact Hold | apply Hm; reflexivity].
  - apply Hfits.
Qed.

Lemma find_cached st t cols d :
  find (scanDefinitionsMgr st) t cols = Some d ->
  d ∈ cachedFor st t /\ columnTypes d = cols.
Proof.
  unfold find, cachedFor.
  destruct (scanDefinitionsOf (scanDefinitionsMgr st) t) as [ds|]; [|discriminate].
  intros H. destruct (find_loop_Some _ _ _ H) as (before & after & -> & Hc & _).
  split; [|exact Hc]. simpl. rewrite elem_of_app. right. apply list_elem_of_here.
Qed.

Lemma find_None st t cols :
  find (scanDefinitionsMgr st) t cols = None <->
  Forall (fun d => columnTypes d ≠ cols) (cachedFor st t).
Proof.
  unfold find, cachedFor.
  destruct (scanDefinitionsOf (scanDefinitionsMgr st) t) as [ds|]; simpl.
  - apply find_loop_None.
  - split; [constructor | reflexivity].
Qed.

Lemma scanDefinitionsGetOrCreateSync_unfold st t cols :
  scanDefinitionsGetOrCreateSync st t cols =
  match find (scanDefinitionsMgr st) t cols with
  | Some scanDef => (Ok scanDef, st)
  | None => create st t cols
  end.
Proof.
  unfold scanDefinitionsGetOrCreateSync.
  destruct (find (scanDefinitionsMgr st) t cols); reflexivity.
Qed.

Lemma scanDefinitionsGetOrCreateSync_wellFormed st t cols r st' :
  wellFormed st -> scanDefinitionsGetOrCreateSync st t cols = (r, st') ->
  wellFormed st' /\ forall d, r = Ok d -> fits t (mapper d).
Proof.
  intros Hwf. rewrite scanDefinitionsGetOrCreateSync_unfold.
  destruct (find (scanDefinitionsMgr st) t cols) as [d|] eqn:Hfind.
  - intros [= <- <-]. split; [exact Hwf|]. intros d' [= <-].
    apply Hwf. apply (find_cached st t cols d Hfind).
  - apply create_wellFormed. exact Hwf.
Qed.

(** Every call of [Propagate] keeps the caches well formed. *)
Lemma Propagate_wellFormed convertAssign st dst rows :
  wellFormed st -> wellFormed (stateAfter (Propagate convertAssign st dst rows)).
Proof.
  intros Hwf. unfold Propagate.
  destruct (ColumnTypes rows) as [cols|e| |]; try exact Hwf.
  destruct (holderType dst) as [k|[k|e|e|nm sc fs]|e|nm sc fs]; try exact Hwf.
  destruct (elementType (SliceOf e)) as [et|err| |]; try exact Hwf.
  destruct (scanDefinitionsGetOrCreateSync st et cols) as [r st'] eqn:Hplan.
  destruct (scanDefinitionsGetOrCreateSync_wellFormed st et cols r st' Hwf Hplan)
    as [Hwf' _].
  destruct r as [d|err| |]; try exact Hwf'.
  destruct (runMapper convertAssign (mapper d) dst rows) as [[r' dst'] rows'].
  exact Hwf'.
Qed.

Lemma StrictColumnTypeCheck_wellFormed strict st :
  wellFormed st -> wellFormed (StrictColumnTypeCheck strict st).
Proof. intros Hwf. exact Hwf. Qed.

Lemma StrictColumnAmountCheck_wellFormed strict st :
  wellFormed st -> wellFormed (StrictColumnAmountCheck strict st).
Proof. intros Hwf. exact Hwf. Qed.

Lemma SmallestStructDecomposition_wellFormed t st :
  wellFormed st -> wellFormed (SmallestStructDecomposition t st).
Proof. intros Hwf. exact Hwf. Qed.


(** ** Propagate *)

Section PropagateFacts.

Variable convertAssign : type -> sql.driverValue -> option value.

Lemma Propagate_runs st dst rows T holderElementType d st' :
  holderType dst = PtrTo (SliceOf T) ->
  closed rows = false ->
  elementType (SliceOf T) = Ok holderElementType ->
  scanDefinitionsGetOrCreateSync st holderElementType (columns rows) = (Ok d, st') ->
  Propagate convertAssign st dst rows =
  let '(r, dst', rows') := runMapper convertAssign (mapper d) dst rows in
  mkPropagated r st' dst' rows'.
Proof.
  intros Hty Hclosed Helem Hplan. unfold Propagate, ColumnTypes.
  rewrite Hclosed, Hty, Helem, Hplan. reflexivity.
Qed.

(** The result of a call whose value is dropped. *)
Definition discard {A} (r : outcome A) : outcome unit :=
  match r with
  | Ok _ => Ok ()
  | Fail e => Fail e
  | Panic => Panic
  | Hang => Hang
  end.

Lemma Propagate_without_plan st dst rows T holderElementType r st' :
  holderType dst = PtrTo (SliceOf T) ->
  closed rows = false ->
  elementType (SliceOf T) = Ok holderElementType ->
  scanDefinitionsGetOrCreateSync st holderElementType (columns rows) = (r, st') ->
  (forall d, r <> Ok d) ->
  Propagate convertAssign st dst rows = mkPropagated (discard r) st' dst rows.
Proof.
  intros Hty Hclosed Helem Hplan Hnok. unfold Propagate, ColumnTypes.
  rewrite Hclosed, Hty, Helem, Hplan.
  destruct r as [d|e| |]; [destruct (Hnok d); reflexivity|..]; reflexivity.
Qed.

(** C7.  In a call of Propagate that maps records, when the scan of a row
    fails after the rows before it were scanned and appended, the call
    returns that error at once: the destination holds its elements and the
    elements of the rows before, and the rows after the failing one are
    still pending in the stream. *)
Theorem scan_failure_keeps_appended_rows
    st dst rows T d st' holderSuppliers provider pre bad post vs e :
  wellFormed st ->
  holderType dst = PtrTo (SliceOf T) ->
  closed rows = false ->
  elementType (SliceOf T) = Ok T ->
  scanDefinitionsGetOrCreateSync st T (columns rows) = (Ok d, st') ->
  mapper d = multiColumnRows holderSuppliers provider ->
  pending rows = pre ++ bad :: post ->
  Forall2 (fun cells v =>
             multiColumnElement convertAssign holderSuppliers provider cells = Ok v)
    pre vs ->
  multiColumnElement convertAssign holderSuppliers provider bad = Fail e ->
  let after := Propagate convertAssign st dst rows in
  result after = Fail e /\
  holderElements (dstAfter after) = holderElements dst ++ vs /\
  pending (rowsAfter after) = post /\
  closed (rowsAfter after) = false.
Proof.
  intros Hwf Hty Hclosed Helem Hplan Hmapper Hpend Hpre Hbad after. subst after.
  destruct (scanDefinitionsGetOrCreateSync_wellFormed _ _ _ _ _ Hwf Hplan) as [_ Hfits].
  specialize (Hfits d eq_refl). rewrite Hmapper in Hfits. simpl in Hfits.
  rewrite (Propagate_runs _ _ _ _ _ _ _ Hty Hclosed Helem Hplan), Hmapper.
  unfold runMapper, runMultiColumn. rewrite Hty. cbn [prepareInjector]. rewrite Hfits.
  destruct (forRowsNext_stops (multiColumnRow convertAssign holderSuppliers provider)
              (multiColumnElement convertAssign holderSuppliers provider)
              (multiColumnRow_element convertAssign holderSuppliers provider)
              T (S (length (pending rows))) rows (holderElements dst)
              pre bad post vs (Fail e))
    as (rs' & r' & Hrun & Hr & Hc & Hp);
    [assumption | assumption | rewrite Hpend, length_app; lia | assumption
    | assumption | intros v; discriminate |].
  rewrite Hrun. destruct r' as [u|e'| |]; try contradiction. subst e'.
  simpl. auto.
Qed.

(** The element of a row of one cell. *)
Lemma singleColumnElement_cell forType c :
  singleColumnElement convertAssign forType [c] =
  match convertAssign forType c with
  | Some v => Ok v
  | None => Fail (ErrScan 0)
  end.
Proof.
  unfold singleColumnElement, scanRow. simpl.
  destruct (convertAssign forType c); reflexivity.
Qed.


Lemma find_or_create_single st T cols :
  isSingleBasicType (smallestStructDecompositions st) T = true ->
  Forall (fun d => mapper d = singleColumnRows T) (cachedFor st T) ->
  exists d st',
    scanDefinitionsGetOrCreateSync st T cols = (Ok d, st') /\
    mapper d = singleColumnRows T.
Proof.
  intros Hbasic Hcached. rewrite scanDefinitionsGetOrCreateSync_unfold.
  destruct (find (scanDefinitionsMgr st) T cols) as [d|] eqn:Hfind.
  - exists d, st. split; [reflexivity|].
    rewrite Forall_forall in Hcached. apply Hcached.
    apply (find_cached st T cols d Hfind).
  - unfold create, createRowsMapper. rewrite Hbasic.
    eexists _, _. split; reflexivity.
Qed.


Lemma createHolderSuppliers_lenient t cols :
  structRooted t -> exists hs, createHolderSuppliers false false t cols = Ok hs.
Proof.
  intros Hroot.
  destruct (createFieldsAccessors_resolved t Hroot) as (m & h & Hrun & _).
  unfold createHolderSuppliers. rewrite Hrun. cbn [mbind outcome_bind].
  eexists. apply holderSuppliersLoop_lenient.
Qed.

Lemma createHolderSuppliers_strict ctChk t cols :
  structRooted t ->
  Exists (fun c => lastRegistered (ToLower (sql.name c)) (registrations [] t) = None)
    cols ->
  exists e, createHolderSuppliers true ctChk t cols = Fail e /\
            strictnessError ctChk cols e.
Proof.
  intros Hroot Hex.
  destruct (createFieldsAccessors_resolved t Hroot) as (m & h & Hrun & Hkeys & _).
  unfold createHolderSuppliers. rewrite Hrun. cbn [mbind outcome_bind].
  apply holderSuppliersLoop_strict. eapply Exists_impl; [exact Hex|].
  intros c Hc. specialize (Hkeys (ToLower (sql.name c))). rewrite Hc in Hkeys.
  destruct (m !! ToLower (sql.name c)); [discriminate | reflexivity].
Qed.

(** A mapper on a stream that has no row and ends without an error. *)
Lemma runMapper_no_rows m dst rows T :
  holderType dst = PtrTo (SliceOf T) ->
  closed rows = false -> pending rows = [] ->
  driverErr rows = None -> closeErr rows = None ->
  exists rows',
    runMapper convertAssign m dst rows = (Ok (), dst, rows') /\ closed rows' = true.
Proof.
  intros Hty Hclosed Hpend Hderr Hcerr. destruct dst as [ty elements].
  simpl in Hty. subst ty.
  destruct m as [forType|hs p]; simpl; unfold runSingleColumn, runMultiColumn;
    cbn [holderType holderElements prepareInjector];
    rewrite Hpend; cbn [length forRowsNext];
    rewrite Next_ends by assumption; unfold Err, ended; cbn [lasterr];
    rewrite Hderr.
  - unfold Close. cbn [closed closeErr]. eexists. split; reflexivity.
  - eexists. split; reflexivity.
Qed.

(** C10, as amended.  For every destination that is a pointer to a slice
    with a supported element type, a call of Propagate on a stream that has
    no row and ends without an error leaves the destination as it was, and
    returns what obtaining the scan plan returns: nil when a plan is cached
    or compiles, as it does for a single basic element type and, with both
    strictness checks off, for a record element type; an error of plan
    compilation otherwise. *)
Theorem no_rows_leave_the_destination st dst rows T holderElementType :
  wellFormed st ->
  holderType dst = PtrTo (SliceOf T) ->
  elementType (SliceOf T) = Ok holderElementType ->
  closed rows = false -> pending rows = [] ->
  driverErr rows = None -> closeErr rows = None ->
  let after := Propagate convertAssign st dst rows in
  dstAfter after = dst /\
  result after =
    discard (fst (scanDefinitionsGetOrCreateSync st holderElementType (columns rows))) /\
  (isSingleBasicType (smallestStructDecompositions st) holderElementType = true ->
   result after = Ok ()) /\
  (columnAmountCheck st = false -> columnTypeCheck st = false ->
   structRooted holderElementType -> result after = Ok ()).
Proof.
  intros Hwf Hty Helem Hclosed Hpend Hderr Hcerr after. subst after.
  destruct (scanDefinitionsGetOrCreateSync st holderElementType (columns rows))
    as [r st'] eqn:Hplan.
  assert (Hrun : dstAfter (Propagate convertAssign st dst rows) = dst /\
                 result (Propagate convertAssign st dst rows) = discard r).
  { destruct r as [d|e| |].
    - rewrite (Propagate_runs _ _ _ _ _ _ _ Hty Hclosed Helem Hplan).
      destruct (runMapper_no_rows (mapper d) dst rows T Hty Hclosed Hpend Hderr Hcerr)
        as (rows' & -> & _). split; reflexivity.
    - rewrite (Propagate_without_plan _ _ _ _ _ _ _ Hty Hclosed Helem Hplan)
        by (intros d; discriminate). split; reflexivity.
    - rewrite (Propagate_without_plan _ _ _ _ _ _ _ Hty Hclosed Helem Hplan)
        by (intros d; discriminate). split; reflexivity.
    - rewrite (Propagate_without_plan _ _ _ _ _ _ _ Hty Hclosed Helem Hplan)
        by (intros d; discriminate). split; reflexivity. }
  destruct Hrun as [Hdst Hres]. split; [exact Hdst|]. split; [exact Hres|].
  rewrite Hres. rewrite scanDefinitionsGetOrCreateSync_unfold in Hplan.
  destruct (find (scanDefinitionsMgr st) holderElementType (columns rows)) as [d|].
  { injection Hplan as <- <-. split; reflexivity. }
  unfold create, createRowsMapper in Hplan. split.
  - intros Hbasic. rewrite Hbasic in Hplan. injection Hplan as <- <-. reflexivity.
  - intros Hamt Hct Hroot.
    destruct (isSingleBasicType _ holderElementType).
    { injection Hplan as <- <-. reflexivity. }
    unfold multiColumnMapper in Hplan. rewrite Hamt, Hct in Hplan.
    destruct (createHolderSuppliers_lenient holderElementType (columns rows) Hroot)
      as (hs & Hhs).
    rewrite Hhs in Hplan.
    destruct (getOrCreateSync_typed (smallestStructDecompositions st)
                (structProviderMgr st) holderElementType Hroot (proj1 Hwf))
      as (p & tsp' & Hp & _ & _).
    rewrite Hp in Hplan. injection Hplan as <- <-. reflexivity.
Qed.

(** C6, as amended.  With the strict column amount check on, a call of
    Propagate into a record element type that has no cached plan for the
    columns of the stream, one of which has no matching field, returns an
    error of plan compilation (that no mapping exists for a column, or, with
    the type check on as well, that a column's type does not fit), appends
    nothing to the destination and caches no plan. *)
Theorem strict_amount_check_rejects_unmatched_columns
    st dst rows T holderElementType :
  columnAmountCheck st = true ->
  holderType dst = PtrTo (SliceOf T) ->
  elementType (SliceOf T) = Ok holderElementType ->
  closed rows = false ->
  structRooted holderElementType ->
  isSingleBasicType (smallestStructDecompositions st) holderElementType = false ->
  find (scanDefinitionsMgr st) holderElementType (columns rows) = None ->
  Exists (fun c => lastRegistered (ToLower (sql.name c))
                     (registrations [] holderElementType) = None) (columns rows) ->
  let after := Propagate convertAssign st dst rows in
  (exists e, result after = Fail e /\
             strictnessError (columnTypeCheck st) (columns rows) e) /\
  dstAfter after = dst /\
  scanDefinitionsMgr (stateAfter after) = scanDefinitionsMgr st.
Proof.
  intros Hamt Hty Helem Hclosed Hroot Hbasic Hfind Hex after. subst after.
  destruct (createHolderSuppliers_strict (columnTypeCheck st) holderElementType
              (columns rows) Hroot Hex) as (e & Hhs & Hstrict).
  assert (Hplan : scanDefinitionsGetOrCreateSync st holderElementType (columns rows) =
                  (Fail e, withProviders st (structProviderMgr st))).
  { rewrite scanDefinitionsGetOrCreateSync_unfold, Hfind.
    unfold create, createRowsMapper, multiColumnMapper.
    rewrite Hbasic, Hamt, Hhs. reflexivity. }
  rewrite (Propagate_without_plan _ _ _ _ _ _ _ Hty Hclosed Helem Hplan)
    by (intros d; discriminate).
  split; [exists e; split; [reflexivity | exact Hstrict]|]. split; reflexivity.
Qed.

End PropagateFacts.

(** C4, as amended.  A scan definition cached for an element type is
    reused for the column types of a call exactly when its own column types
    are as many and, one by one, equal to them as values of [sql.ColumnType],
    the first such definition being the one reused and the state staying as
    it was; when there is none a new definition is compiled, and either it
    is added after the ones the type has, those of the other types staying
    as they were, or compilation fails and no definition is added. *)
Theorem plan_reuse_needs_equal_column_types st t cols :
  match find (scanDefinitionsMgr st) t cols with
  | Some d =>
      d ∈ cachedFor st t /\ columnTypes d = cols /\
      scanDefinitionsGetOrCreateSync st t cols = (Ok d, st)
  | None =>
      Forall (fun d => columnTypes d ≠ cols) (cachedFor st t) /\
      match scanDefinitionsGetOrCreateSync st t cols with
      | (Ok d, st') =>
          columnTypes d = cols /\
          cachedFor st' t = cachedFor st t ++ [d] /\
          forall t', t' ≠ t -> cachedFor st' t' = cachedFor st t'
      | (_, st') => scanDefinitionsMgr st' = scanDefinitionsMgr st
      end
  end.
Proof.
  rewrite scanDefinitionsGetOrCreateSync_unfold.
  destruct (find (scanDefinitionsMgr st) t cols) as [d|] eqn:Hfind.
  - destruct (find_cached st t cols d Hfind) as [Hin Hc]. auto.
  - split; [apply find_None; exact Hfind|].
    unfold create. destruct (createRowsMapper st t cols) as [[m|e| |] tsp];
      try reflexivity.
    split; [reflexivity|]. unfold cachedFor. cbn [scanDefinitionsMgr]. split.
    + rewrite scanDefinitionsOf_cons. destruct (decide (t = t)); [reflexivity | contradiction].
    + intros t' Hne. rewrite scanDefinitionsOf_cons.
      destruct (decide (t = t')); [subst; contradiction | reflexivity].
Qed.


(** ** What the provider initializes *)



(** ** The instance after the scan *)



Lemma prefix_cons_same {A} (i : A) p q : p `prefix_of` q -> (i :: p) `prefix_of` (i :: q).
Proof. apply prefix_cons. Qed.





Lemma unwrapPtrStructValue_loop_wrapPtr n : forall nm sc fs v levels,
  unwrapPtrStructValue_loop (PtrToTimes n (StructOf nm sc fs)) (wrapPtr n v) levels =
  Ok (StructOf nm sc fs, v, n + levels).
Proof.
  induction n as [|n IH]; intros nm sc fs v levels; [reflexivity|].
  simpl. rewrite IH. f_equal. f_equal. lia.
Qed.


Section Initialization.

Variable reg : list type.





End Initialization.

(** ** Concurrent callers of the scan definition cache

    The callers of [scanDefinitionsManager.getOrCreateSync] run
    interleaved, one statement at a time, on the shared package state and
    the read-write lock of the manager: [RLock] waits while a writer holds
    the lock, [Lock] waits while a writer or a reader holds it. *)

Lemma create_cached st t cols r st' :
  create st t cols = (r, st') ->
  match r with
  | Ok d =>
      columnTypes d = cols /\
      cachedFor st' t = cachedFor st t ++ [d] /\
      forall t', t' ≠ t -> cachedFor st' t' = cachedFor st t'
  | _ => scanDefinitionsMgr st' = scanDefinitionsMgr st
  end.
Proof.
  unfold create. destruct (createRowsMapper st t cols) as [[m|e| |] tsp];
    intros [= <- <-]; try reflexivity.
  split; [reflexivity|]. unfold cachedFor. cbn [scanDefinitionsMgr]. split.
  - rewrite scanDefinitionsOf_cons. destruct (decide (t = t)); [reflexivity | contradiction].
  - intros t' Hne. rewrite scanDefinitionsOf_cons.
    destruct (decide (t = t')); [subst; contradiction | reflexivity].
Qed.

Module Concurrent.

(** Where a caller is in [getOrCreateSync]. *)
Inductive position :=
| BeforeRLock
| HoldsRLock
    (* [sdm.RLock()] has returned *)
| FoundUnderRLock (found : option scanDefinition)
    (* the first [find] has returned *)
| BeforeLock
    (* the read lock is released, nothing was found *)
| HoldsLock
    (* [sdm.Lock()] has returned *)
| FoundUnderLock (scanDef : scanDefinition)
    (* the second [find] has found a definition *)
| BeforeCreate
    (* the second [find] has found none *)
| Created (r : outcome scanDefinition)
    (* [create] has returned *)
| Returned (r : outcome scanDefinition).

(** A caller: the element type and the column types it asks for, and where
    it is. *)
Record caller := mkCaller {
  wantedType : type;
  wantedColumns : list sql.ColumnType;
  at_ : position
}.

(** The shared state, the lock (the number of readers, and the caller that
    holds it as the writer) and the callers. *)
Record world := mkWorld {
  shared : state;
  readers : nat;
  writer : option nat;
  callers : list caller
}.

Definition returns {A} (r : outcome A) : bool :=
  match r with Ok _ | Fail _ => true | Panic | Hang => false end.

Definition moved (c : caller) (p : position) : caller :=
  mkCaller (wantedType c) (wantedColumns c) p.

Definition sameCaches (st st' : state) : Prop :=
  scanDefinitionsMgr st' = scanDefinitionsMgr st /\
  structProviderMgr st' = structProviderMgr st.

Inductive step : world -> world -> Prop :=
| step_RLock st n i c cs :
    cs !! i = Some c -> at_ c = BeforeRLock ->
    step (mkWorld st n None cs)
         (mkWorld st (S n) None (<[i := moved c HoldsRLock]> cs))
| step_find st n w i c cs :
    cs !! i = Some c -> at_ c = HoldsRLock ->
    step (mkWorld st n w cs)
         (mkWorld st n w
            (<[i := moved c (FoundUnderRLock
                               (find (scanDefinitionsMgr st) (wantedType c)
                                  (wantedColumns c)))]> cs))
| step_RUnlock_found st n w i c cs d :
    cs !! i = Some c -> at_ c = FoundUnderRLock (Some d) ->
    step (mkWorld st n w cs)
         (mkWorld st (pred n) w (<[i := moved c (Returned (Ok d))]> cs))
| step_RUnlock_missed st n w i c cs :
    cs !! i = Some c -> at_ c = FoundUnderRLock None ->
    step (mkWorld st n w cs)
         (mkWorld st (pred n) w (<[i := moved c BeforeLock]> cs))
| step_Lock st i c cs :
    cs !! i = Some c -> at_ c = BeforeLock ->
    step (mkWorld st 0 None cs)
         (mkWorld st 0 (Some i) (<[i := moved c HoldsLock]> cs))
| step_find_again st n w i c cs :
    cs !! i = Some c -> at_ c = HoldsLock ->
    step (mkWorld st n w cs)
         (mkWorld st n w
            (<[i := moved c
                     match find (scanDefinitionsMgr st) (wantedType c)
                             (wantedColumns c) with
                     | Some d => FoundUnderLock d
                     | None => BeforeCreate
                     end]> cs))
| step_Unlock_found st n w i c cs d :
    cs !! i = Some c -> at_ c = FoundUnderLock d ->
    step (mkWorld st n w cs)
         (mkWorld st n None (<[i := moved c (Returned (Ok d))]> cs))
| step_create st n w i c cs r st' :
    cs !! i = Some c -> at_ c = BeforeCreate ->
    create st (wantedType c) (wantedColumns c) = (r, st') ->
    step (mkWorld st n w cs)
         (mkWorld st' n w (<[i := moved c (Created r)]> cs))
| step_Unlock_created st n w i c cs r :
    (* a panic inside [create] leaves the lock held: there is no [defer] *)
    cs !! i = Some c -> at_ c = Created r -> returns r = true ->
    step (mkWorld st n w cs)
         (mkWorld st n None (<[i := moved c (Returned r)]> cs))
| step_configure st st' n w cs :
    (* StrictColumnTypeCheck, StrictColumnAmountCheck,
       SmallestStructDecomposition *)
    sameCaches st st' ->
    step (mkWorld st n w cs) (mkWorld st' n w cs).

(** The next statement of caller [i], when it can run. *)
Definition advance (i : nat) (w : world) : option world :=
  let st := shared w in
  let cs := callers w in
  c ← cs !! i;
  let goes p := <[i := moved c p]> cs in
  match at_ c with
  | BeforeRLock =>
      match writer w with
      | None => Some (mkWorld st (S (readers w)) None (goes HoldsRLock))
      | Some _ => None
      end
  | HoldsRLock =>
      Some (mkWorld st (readers w) (writer w)
              (goes (FoundUnderRLock
                       (find (scanDefinitionsMgr st) (wantedType c)
                          (wantedColumns c)))))
  | FoundUnderRLock (Some d) =>
      Some (mkWorld st (pred (readers w)) (writer w) (goes (Returned (Ok d))))
  | FoundUnderRLock None =>
      Some (mkWorld st (pred (readers w)) (writer w) (goes BeforeLock))
  | BeforeLock =>
      match readers w, writer w with
      | 0, None => Some (mkWorld st 0 (Some i) (goes HoldsLock))
      | _, _ => None
      end
  | HoldsLock =>
      Some (mkWorld st (readers w) (writer w)
              (goes match find (scanDefinitionsMgr st) (wantedType c)
                            (wantedColumns c) with
                    | Some d => FoundUnderLock d
                    | None => BeforeCreate
                    end))
  | FoundUnderLock d =>
      Some (mkWorld st (readers w) None (goes (Returned (Ok d))))
  | BeforeCreate =>
      let '(r, st') := create st (wantedType c) (wantedColumns c) in
      Some (mkWorld st' (readers w) (writer w) (goes (Created r)))
  | Created r =>
      if returns r
      then Some (mkWorld st (readers w) None (goes (Returned r)))
      else None
  | Returned _ => None
  end.

(** The callers run in the order of a schedule. *)
Fixpoint scheduled (order : list nat) (w : world) : option world :=
  match order with
  | [] => Some w
  | i :: order => w' ← advance i w; scheduled order w'
  end.

(** No two scan definitions cached for a type have the same column types. *)
Definition noDuplicates (st : state) : Prop :=
  forall t, NoDup (columnTypes <$> cachedFor st t).

(** Whether a caller is between [sdm.Lock()] and [sdm.Unlock()]. *)
Definition locked (p : position) : bool :=
  match p with
  | HoldsLock | FoundUnderLock _ | BeforeCreate | Created _ => true
  | _ => false
  end.

(** Whether a caller is between [sdm.RLock()] and [sdm.RUnlock()]. *)
Definition reading (p : position) : bool :=
  match p with
  | HoldsRLock | FoundUnderRLock _ => true
  | _ => false
  end.

(** The callers that hold the lock as readers. *)
Definition readersAmong (cs : list caller) : nat :=
  sum_list_with (fun c => if reading (at_ c) then 1 else 0) cs.

(** The invariant: the cache has no duplicates, the writer is the one caller
    between [Lock] and [Unlock], a caller about to create has found no
    definition for its request in the cache as it is, the readers of the
    lock are the callers between [RLock] and [RUnlock], and there is none
    while a caller holds the lock as the writer. *)
Definition invariant (w : world) : Prop :=
  noDuplicates (shared w) /\
  (forall i c, callers w !! i = Some c ->
     (locked (at_ c) = true <-> writer w = Some i)) /\
  (forall i c, callers w !! i = Some c -> at_ c = BeforeCreate ->
     find (scanDefinitionsMgr (shared w)) (wantedType c) (wantedColumns c) = None) /\
  readers w = readersAmong (callers w) /\
  (forall i, writer w = Some i -> readers w = 0).

Definition owned (cs : list caller) (w : option nat) : Prop :=
  forall i c, cs !! i = Some c -> (locked (at_ c) = true <-> w = Some i).

Definition fresh (cs : list caller) (st : state) : Prop :=
  forall i c, cs !! i = Some c -> at_ c = BeforeCreate ->
    find (scanDefinitionsMgr st) (wantedType c) (wantedColumns c) = None.

Lemma lookup_moved (cs : list caller) (i : nat) c p (j : nat) c' :
  cs !! i = Some c -> <[i := moved c p]> cs !! j = Some c' ->
  (i = j /\ c' = moved c p) \/ (i ≠ j /\ cs !! j = Some c').
Proof.
  intros Hi Hj. destruct (decide (i = j)) as [<-|Hne].
  - left. rewrite list_lookup_insert_eq in Hj by (eapply lookup_lt_Some; exact Hi).
    injection Hj as <-. split; reflexivity.
  - right. rewrite list_lookup_insert_ne in Hj by exact Hne. split; assumption.
Qed.

Lemma owned_moved cs w i c p :
  owned cs w -> cs !! i = Some c -> locked p = locked (at_ c) ->
  owned (<[i := moved c p]> cs) w.
Proof.
  intros Hown Hi Hp j c' Hj.
  destruct (lookup_moved _ _ _ _ _ _ Hi Hj) as [[<- ->]|[_ Hj']].
  - cbn [at_ moved]. rewrite Hp. apply Hown. exact Hi.
  - apply Hown. exact Hj'.
Qed.

Lemma owned_acquired cs i c p :
  owned cs None -> cs !! i = Some c -> locked p = true ->
  owned (<[i := moved c p]> cs) (Some i).
Proof.
  intros Hown Hi Hp j c' Hj.
  destruct (lookup_moved _ _ _ _ _ _ Hi Hj) as [[<- ->]|[Hne Hj']].
  - cbn [at_ moved]. rewrite Hp. split; reflexivity.
  - split.
    + intros Hl. apply (Hown j c' Hj') in Hl. discriminate.
    + intros [= ->]. contradiction.
Qed.

Lemma owned_released cs w i c p :
  owned cs w -> cs !! i = Some c -> locked (at_ c) = true -> locked p = false ->
  owned (<[i := moved c p]> cs) None.
Proof.
  intros Hown Hi Hl Hp j c' Hj.
  destruct (lookup_moved _ _ _ _ _ _ Hi Hj) as [[<- ->]|[Hne Hj']].
  - cbn [at_ moved]. rewrite Hp. split; discriminate.
  - split; [|discriminate]. intros Hl'.
    apply (Hown i c Hi) in Hl. apply (Hown j c' Hj') in Hl'. congruence.
Qed.

Lemma fresh_moved cs st i c p :
  fresh cs st -> cs !! i = Some c ->
  (p = BeforeCreate ->
   find (scanDefinitionsMgr st) (wantedType c) (wantedColumns c) = None) ->
  fresh (<[i := moved c p]> cs) st.
Proof.
  intros Hfresh Hi Hp j c' Hj Hat.
  destruct (lookup_moved _ _ _ _ _ _ Hi Hj) as [[<- ->]|[_ Hj']].
  - apply Hp. exact Hat.
  - apply (Hfresh j c' Hj' Hat).
Qed.

(** The one caller between [Lock] and [Unlock] is the only one that can
    be about to create. *)
Lemma fresh_after_create cs w st' i c r :
  owned cs w -> cs !! i = Some c -> locked (at_ c) = true ->
  fresh (<[i := moved c (Created r)]> cs) st'.
Proof.
  intros Hown Hi Hl j c' Hj Hat.
  destruct (lookup_moved _ _ _ _ _ _ Hi Hj) as [[<- ->]|[Hne Hj']].
  - discriminate.
  - exfalso. apply Hne.
    assert (Hl' : locked (at_ c') = true) by (rewrite Hat; reflexivity).
    apply (Hown i c Hi) in Hl. apply (Hown j c' Hj') in Hl'. congruence.
Qed.

Lemma noDuplicates_create st t cols r st' :
  noDuplicates st -> find (scanDefinitionsMgr st) t cols = None ->
  create st t cols = (r, st') -> noDuplicates st'.
Proof.
  intros Hdup Hfind Hcreate. pose proof (create_cached _ _ _ _ _ Hcreate) as Hc.
  apply find_None in Hfind.
  assert (Hsame : scanDefinitionsMgr st' = scanDefinitionsMgr st -> noDuplicates st').
  { intros Heq t'. unfold cachedFor. rewrite Heq. apply Hdup. }
  destruct r as [d|e| |]; try (apply Hsame; exact Hc).
  destruct Hc as (Hcols & Hthis & Hothers). intros t'.
  destruct (decide (t' = t)) as [->|Hne]; [|rewrite (Hothers t' Hne); apply Hdup].
  rewrite Hthis, fmap_app. apply NoDup_app. split; [apply Hdup|]. split.
  - intros x Hx Hx'. apply list_elem_of_singleton in Hx'. subst x.
    apply list_elem_of_fmap in Hx as (d' & Hd' & Hin).
    rewrite Forall_forall in Hfind. apply (Hfind d' Hin). congruence.
  - apply NoDup_singleton.
Qed.

Lemma readersAmong_moved cs i c p :
  cs !! i = Some c ->
  readersAmong (<[i := moved c p]> cs) + (if reading (at_ c) then 1 else 0) =
  readersAmong cs + (if reading p then 1 else 0).
Proof.
  unfold readersAmong. revert i.
  induction cs as [|c' cs IH]; intros i Hi; [discriminate|].
  destruct i as [|i]; simpl in *.
  - injection Hi as ->. lia.
  - specialize (IH i Hi). lia.
Qed.

Lemma readersAmong_same cs i c p :
  cs !! i = Some c -> reading p = reading (at_ c) ->
  readersAmong (<[i := moved c p]> cs) = readersAmong cs.
Proof.
  intros Hi Hp. pose proof (readersAmong_moved cs i c p Hi) as H.
  rewrite Hp in H. lia.
Qed.

Lemma invariant_step w w' : step w w' -> invariant w -> invariant w'.
Proof.
  intros Hstep (Hdup & Hown & Hfresh & Hreaders & Hexcl).
  fold (owned (callers w) (writer w)) in Hown.
  fold (fresh (callers w) (shared w)) in Hfresh.
  unfold invariant.
  fold (owned (callers w') (writer w')). fold (fresh (callers w') (shared w')).
  destruct Hstep as
    [st n i c cs Hi Hat | st n w i c cs Hi Hat | st n w i c cs d Hi Hat
    | st n w i c cs Hi Hat | st i c cs Hi Hat | st n w i c cs Hi Hat
    | st n w i c cs d Hi Hat | st n w i c cs r st' Hi Hat Hcreate
    | st n w i c cs r Hi Hat Hret | st st' n w cs [Hsdm Htsp]];
    cbn [shared writer callers readers] in *.
  - split; [exact Hdup|]. split; [|split; [|split]].
    + apply owned_moved; [assumption..|]. rewrite Hat. reflexivity.
    + apply fresh_moved; [assumption..|]. discriminate.
    + pose proof (readersAmong_moved cs i c HoldsRLock Hi) as H.
      rewrite Hat in H. simpl in H. lia.
    + discriminate.
  - split; [exact Hdup|]. split; [|split; [|split]].
    + apply owned_moved; [assumption..|]. rewrite Hat. reflexivity.
    + apply fresh_moved; [assumption..|]. discriminate.
    + rewrite readersAmong_same; [assumption..|]. rewrite Hat. reflexivity.
    + exact Hexcl.
  - pose proof (readersAmong_moved cs i c (Returned (Ok d)) Hi) as H.
    rewrite Hat in H. simpl in H.
    split; [exact Hdup|]. split; [|split; [|split]].
    + apply owned_moved; [assumption..|]. rewrite Hat. reflexivity.
    + apply fresh_moved; [assumption..|]. discriminate.
    + lia.
    + intros j Hj. specialize (Hexcl j Hj). lia.
  - pose proof (readersAmong_moved cs i c BeforeLock Hi) as H.
    rewrite Hat in H. simpl in H.
    split; [exact Hdup|]. split; [|split; [|split]].
    + apply owned_moved; [assumption..|]. rewrite Hat. reflexivity.
    + apply fresh_moved; [assumption..|]. discriminate.
    + lia.
    + intros j Hj. specialize (Hexcl j Hj). lia.
  - split; [exact Hdup|]. split; [|split; [|split]].
    + apply owned_acquired; [assumption..|]. reflexivity.
    + apply fresh_moved; [assumption..|]. discriminate.
    + rewrite readersAmong_same; [assumption..|]. rewrite Hat. reflexivity.
    + reflexivity.
  - split; [exact Hdup|]. split; [|split; [|split]].
    + apply owned_moved; [assumption..|]. rewrite Hat.
      destruct (find _ _ _); reflexivity.
    + apply fresh_moved; [assumption..|].
      destruct (find _ _ _); [discriminate | reflexivity].
    + rewrite readersAmong_same; [assumption..|]. rewrite Hat.
      destruct (find _ _ _); reflexivity.
    + exact Hexcl.
  - split; [exact Hdup|]. split; [|split; [|split]].
    + apply (owned_released cs w); [assumption..| |reflexivity].
      rewrite Hat. reflexivity.
    + apply fresh_moved; [assumption..|]. discriminate.
    + rewrite readersAmong_same; [assumption..|]. rewrite Hat. reflexivity.
    + discriminate.
  - split; [|split; [|split; [|split]]].
    + apply (noDuplicates_create st (wantedType c) (wantedColumns c) r); try assumption.
      apply (Hfresh i c Hi Hat).
    + apply owned_moved; [assumption..|]. rewrite Hat. reflexivity.
    + apply (fresh_after_create cs w); [assumption..|]. rewrite Hat. reflexivity.
    + rewrite readersAmong_same; [assumption..|]. rewrite Hat. reflexivity.
    + exact Hexcl.
  - split; [exact Hdup|]. split; [|split; [|split]].
    + apply (owned_released cs w); [assumption..| |reflexivity].
      rewrite Hat. reflexivity.
    + apply fresh_moved; [assumption..|]. discriminate.
    + rewrite readersAmong_same; [assumption..|]. rewrite Hat. reflexivity.
    + discriminate.
  - split; [|split; [exact Hown|split; [|split; assumption]]].
    + intros t. unfold cachedFor. rewrite Hsdm. apply Hdup.
    + intros i c Hi Hat. rewrite Hsdm. exact (Hfresh i c Hi Hat).
Qed.

Lemma advance_step i w w' : advance i w = Some w' -> step w w'.
Proof.
  destruct w as [st n wr cs]. unfold advance. cbn [shared callers readers writer].
  destruct (cs !! i) as [c|] eqn:Hi; [|discriminate]. cbn [mbind option_bind].
  destruct (at_ c) as [| |[d|]| | |d| |r|r] eqn:Hat.
  - destruct wr; [discriminate|]. intros [= <-]. apply step_RLock; assumption.
  - intros [= <-]. apply step_find; assumption.
  - intros [= <-]. apply step_RUnlock_found; assumption.
  - intros [= <-]. apply step_RUnlock_missed; assumption.
  - destruct n; [|discriminate]. destruct wr; [discriminate|].
    intros [= <-]. apply step_Lock; assumption.
  - intros [= <-]. apply step_find_again; assumption.
  - intros [= <-]. apply step_Unlock_found; assumption.
  - destruct (create st (wantedType c) (wantedColumns c)) as [r st'] eqn:Hcreate.
    intros [= <-]. apply step_create; assumption.
  - destruct (returns r) eqn:Hret; [|discriminate].
    intros [= <-]. apply step_Unlock_created; assumption.
  - discriminate.
Qed.

Lemma scheduled_steps order : forall w w',
  scheduled order w = Some w' -> rtc step w w'.
Proof.
  induction order as [|i order IH]; intros w w'; cbn [scheduled].
  - intros [= <-]. apply rtc_refl.
  - destruct (advance i w) as [w1|] eqn:Hadv; [|discriminate].
    cbn [mbind option_bind]. intros Hrest.
    eapply rtc_l; [apply (advance_step _ _ _ Hadv) | apply IH; exact Hrest].
Qed.

Lemma invariant_start st cs :
  noDuplicates st -> Forall (fun c => at_ c = BeforeRLock) cs ->
  invariant (mkWorld st 0 None cs).
Proof.
  intros Hdup Hall.
  split; [exact Hdup|]. cbn [callers writer shared readers].
  split; [|split; [|split]].
  - rewrite Forall_lookup in Hall.
    intros i c Hi. rewrite (Hall i c Hi). split; discriminate.
  - rewrite Forall_lookup in Hall.
    intros i c Hi Hat. rewrite (Hall i c Hi) in Hat. discriminate.
  - unfold readersAmong. induction Hall as [|c cs Hc _ IH]; [reflexivity|].
    simpl. rewrite Hc. exact IH.
  - discriminate.
Qed.

(** C9.  However the statements of concurrent callers of
    [getOrCreateSync] interleave, from a cache without duplicates and callers
    that have not yet started: no two scan definitions cached for an
    element type have the same column types; a caller is between [Lock] and
    [Unlock] exactly when it holds the lock as the writer; a caller that is
    about to compile has found no definition for its request in the cache as
    it is at that moment, having looked again under the exclusive lock; and
    no caller is between [RLock] and [RUnlock] while another holds the lock
    as the writer. *)
Theorem concurrent_callers_cache_no_duplicates st cs w :
  noDuplicates st ->
  Forall (fun c => at_ c = BeforeRLock) cs ->
  rtc step (mkWorld st 0 None cs) w ->
  invariant w.
Proof.
  intros Hdup Hall Hrun.
  pose proof (invariant_start st cs Hdup Hall) as Hinv.
  induction Hrun as [w|w1 w2 w3 Hstep _ IH]; [exact Hinv|].
  apply IH. exact (invariant_step _ _ Hstep Hinv).
Qed.

End Concurrent.

(** * Sample programs *)

Definition intType : type := Opaque reflect.Int.
Definition stringType : type := Opaque reflect.String.
Definition boolType : type := Opaque reflect.Bool.
Definition uint8Type : type := Opaque reflect.Uint8.

(** A scan capability in the manner of [convertAssign] of database/sql:
    a pointer takes nil for NULL and a pointer to the converted value
    otherwise, a byte slice takes NULL, bytes and strings, a string takes
    every value but NULL, a number takes integers, and a struct (time.Time)
    takes a time. *)
Fixpoint sampleConvertAssign (t : type) (d : sql.driverValue) : option value :=
  match t with
  | PtrTo e =>
      match d with
      | sql.Null => Some VNil
      | _ => VPtr <$> sampleConvertAssign e d
      end
  | SliceOf _ =>
      match d with
      | sql.Null => Some VZero
      | sql.BytesValue _ | sql.StringValue _ => Some (VData d)
      | _ => None
      end
  | Opaque reflect.String =>
      match d with
      | sql.Null => None
      | _ => Some (VData d)
      end
  | Opaque _ =>
      match d with
      | sql.Int64Value _ => Some (VData d)
      | _ => None
      end
  | StructOf _ _ _ =>
      match d with
      | sql.TimeValue _ => Some (VData d)
      | _ => None
      end
  end.

Definition column (name : string) (scanType : type) : sql.ColumnType :=
  sql.mkColumnType name false false false false 0 "" 0 0 scanType.

Definition rowsOf (cols : list sql.ColumnType)
    (cells : list (list sql.driverValue)) : Rows :=
  mkRows cols cells None None None None false.

Definition valStruct : type :=
  StructOf "valStruct" false
    [mkField "Id" false None intType;
     mkField "Col1" false None stringType;
     mkField "COL2" false None (PtrTo stringType)].



Definition inner : type :=
  StructOf "inner" false [mkField "Id" false None intType].

Definition outer : type :=
  StructOf "outer" false
    [mkField "Inner" false (Some "id") inner;
     mkField "Name" false None stringType].

Definition customer : type :=
  StructOf "customer" false [mkField "Name" false None (PtrTo stringType)].

Definition order : type :=
  StructOf "order" false
    [mkField "Id" false None intType;
     mkField "By" false None (PtrTo customer);
     mkField "At" false None time_Time].


(** ** The claims at the sample programs *)

Lemma structRooted_outer : structRooted outer.
Proof. eexists _, _, _. reflexivity. Defined.

(** At [outer] the field [Inner], tagged [id], is registered after the
    field [Id] of the struct it holds and takes the key. *)
Lemma accessor_resolution_last_write_wins_witness :
  exists m h,
    createFieldsAccessors outer = Ok (m, h) /\
    denotation h <$> m !! "id" = Some (inner, [0]) /\
    denotation h <$> m !! "name" = Some (stringType, [1]) /\
    outline <$> m !! "id" = Some (inner, 1).
Proof.
  destruct (accessor_resolution_last_write_wins outer structRooted_outer)
    as (m & h & Hrun & Hkeys & Hpaths & Hself).
  assert (Hdepth : depth outer ≤ 3) by (vm_compute; lia).
  exists m, h. split; [exact Hrun|].
  split; [rewrite (Hpaths Hdepth "id"); reflexivity|].
  split; [rewrite (Hpaths Hdepth "name"); reflexivity|].
  exact (Hself 0 "outer" false [] (mkField "Inner" false (Some "id") inner)
           [mkField "Name" false None stringType] eq_refl eq_refl).
Defined.





(** ** The stream after a scan failure *)

(** C8.  The stream is not closed on every exit path: in a call of
    Propagate into a slice of a single basic type (the scan definitions
    cached for it being those of a single basic type), when a cell does not
    convert after the rows before it were scanned, the call returns the scan
    error and leaves the stream open, the rows after the failing one still
    pending. *)
Theorem scan_failure_leaves_rows_open convertAssign st dst rows T pre c post vs :
  isSingleBasicType (smallestStructDecompositions st) T = true ->
  Forall (fun d => mapper d = singleColumnRows T) (cachedFor st T) ->
  holderType dst = PtrTo (SliceOf T) ->
  elementType (SliceOf T) = Ok T ->
  closed rows = false ->
  pending rows = pre ++ [c] :: post ->
  Forall2 (fun cells v => exists c, cells = [c] /\ convertAssign T c = Some v)
    pre vs ->
  convertAssign T c = None ->
  let after := Propagate convertAssign st dst rows in
  result after = Fail (ErrScan 0) /\
  closed (rowsAfter after) = false /\
  pending (rowsAfter after) = post.
Proof.
  intros Hbasic Hcached Hty Helem Hclosed Hpend Hpre Hbad after. subst after.
  destruct (find_or_create_single st T (columns rows) Hbasic Hcached)
    as (d & st' & Hplan & Hmapper).
  rewrite (Propagate_runs _ _ _ _ _ _ _ _ Hty Hclosed Helem Hplan), Hmapper.
  unfold runMapper, runSingleColumn. rewrite Hty. cbn [prepareInjector].
  destruct (forRowsNext_stops (singleColumnRow convertAssign T)
              (singleColumnElement convertAssign T)
              (singleColumnRow_element convertAssign T)
              T (S (length (pending rows))) rows (holderElements dst)
              pre [c] post vs (Fail (ErrScan 0)))
    as (rs' & r' & Hrun & Hr & Hc & Hp);
    [assumption | assumption | rewrite Hpend, length_app; lia | |
    | intros v; discriminate |].
  { eapply Forall2_impl; [exact Hpre|]. intros cells v (c' & -> & Hv).
    rewrite singleColumnElement_cell, Hv. reflexivity. }
  { rewrite singleColumnElement_cell, Hbad. reflexivity. }
  rewrite Hrun. destruct r' as [u|e'| |]; try contradiction. subst e'.
  simpl. auto.
Qed.


(** *** Single columns *)




(** A NULL cell in the second of three rows of integers. *)
Lemma scan_failure_leaves_rows_open_witness :
  let after :=
    Propagate sampleConvertAssign initialState
      (mkHolder (PtrTo (SliceOf intType)) [])
      (rowsOf [column "id" intType]
         [[sql.Int64Value 1]; [sql.Null]; [sql.Int64Value 3]]) in
  result after = Fail (ErrScan 0) /\
  closed (rowsAfter after) = false /\
  pending (rowsAfter after) = [[sql.Int64Value 3]].
Proof.
  apply (scan_failure_leaves_rows_open sampleConvertAssign initialState
           (mkHolder (PtrTo (SliceOf intType)) [])
           (rowsOf [column "id" intType]
              [[sql.Int64Value 1]; [sql.Null]; [sql.Int64Value 3]])
           intType [[sql.Int64Value 1]] sql.Null [[sql.Int64Value 3]]
           [VData (sql.Int64Value 1)]);
    try reflexivity.
  - apply Forall_nil_2.
  - constructor; [eexists; split; reflexivity | constructor].
Defined.

(** *** Records *)

Definition vals : Rows :=
  rowsOf [column "id" intType; column "col1" stringType; column "col2" stringType]
    [[sql.Int64Value 1; sql.StringValue "a"; sql.Null];
     [sql.Int64Value 2; sql.Null; sql.StringValue "c"];
     [sql.Int64Value 3; sql.StringValue "b"; sql.StringValue "c"]].

(** The second of three rows has NULL for the string field [Col1]. *)
Lemma scan_failure_keeps_appended_rows_witness :
  let after :=
    Propagate sampleConvertAssign initialState
      (mkHolder (PtrTo (SliceOf valStruct)) []) vals in
  result after = Fail (ErrScan 1) /\
  holderElements (dstAfter after) =
    [VStruct [VData (sql.Int64Value 1); VData (sql.StringValue "a"); VNil]] /\
  pending (rowsAfter after) =
    [[sql.Int64Value 3; sql.StringValue "b"; sql.StringValue "c"]] /\
  closed (rowsAfter after) = false.
Proof.
  eapply (scan_failure_keeps_appended_rows sampleConvertAssign initialState
            (mkHolder (PtrTo (SliceOf valStruct)) []) vals valStruct _ _ _ _
            [[sql.Int64Value 1; sql.StringValue "a"; sql.Null]]
            [sql.Int64Value 2; sql.Null; sql.StringValue "c"]
            [[sql.Int64Value 3; sql.StringValue "b"; sql.StringValue "c"]]
            [VStruct [VData (sql.Int64Value 1); VData (sql.StringValue "a"); VNil]]
            (ErrScan 1)).
  - exact wellFormed_initialState.
  - reflexivity.
  - reflexivity.
  - reflexivity.
  - vm_compute. reflexivity.
  - reflexivity.
  - reflexivity.
  - constructor; [vm_compute; reflexivity | constructor].
  - vm_compute. reflexivity.
Defined.

(** *** No rows *)

(** No row for a slice of integers that holds an element, and no row for a
    slice of records. *)
Lemma no_rows_leave_the_destination_witness :
  (let dst := mkHolder (PtrTo (SliceOf intType)) [VData (sql.Int64Value 7)] in
   let after :=
     Propagate sampleConvertAssign initialState dst
       (rowsOf [column "id" intType] []) in
   dstAfter after = dst /\ result after = Ok ()) /\
  (let dst := mkHolder (PtrTo (SliceOf valStruct)) [] in
   let after :=
     Propagate sampleConvertAssign initialState dst
       (rowsOf [column "id" intType; column "zzz" stringType] []) in
   dstAfter after = dst /\ result after = Ok ()).
Proof.
  split.
  - destruct (no_rows_leave_the_destination sampleConvertAssign initialState
                (mkHolder (PtrTo (SliceOf intType)) [VData (sql.Int64Value 7)])
                (rowsOf [column "id" intType] []) intType intType
                wellFormed_initialState eq_refl eq_refl eq_refl eq_refl eq_refl
                eq_refl)
      as (Hdst & _ & Hbasic & _).
    split; [exact Hdst | exact (Hbasic eq_refl)].
  - destruct (no_rows_leave_the_destination sampleConvertAssign initialState
                (mkHolder (PtrTo (SliceOf valStruct)) [])
                (rowsOf [column "id" intType; column "zzz" stringType] [])
                valStruct valStruct
                wellFormed_initialState eq_refl eq_refl eq_refl eq_refl eq_refl
                eq_refl)
      as (Hdst & _ & _ & Hrecord).
    split; [exact Hdst|]. apply (Hrecord eq_refl eq_refl).
    eexists _, _, _. reflexivity.
Defined.

(** With the strict column amount check on, no row and no error of the
    stream, and yet an error: the plan does not compile. *)
Lemma no_rows_and_yet_an_error :
  let rows := rowsOf [column "id" intType; column "zzz" stringType] [] in
  let after :=
    Propagate sampleConvertAssign (StrictColumnAmountCheck true initialState)
      (mkHolder (PtrTo (SliceOf valStruct)) []) rows in
  pending rows = [] /\ driverErr rows = None /\ closeErr rows = None /\
  result after = Fail (ErrNoMapping "zzz").
Proof. repeat split; vm_compute; reflexivity. Qed.

(** *** The strict column amount check *)

Definition unmatched : Rows :=
  rowsOf [column "id" intType; column "zzz" stringType]
    [[sql.Int64Value 1; sql.StringValue "a"]].

Lemma strict_amount_check_rejects_unmatched_columns_witness :
  let dst := mkHolder (PtrTo (SliceOf valStruct)) [] in
  let after :=
    Propagate sampleConvertAssign (StrictColumnAmountCheck true initialState)
      dst unmatched in
  (exists e, result after = Fail e /\ strictnessError false (columns unmatched) e) /\
  dstAfter after = dst /\
  scanDefinitionsMgr (stateAfter after) = [].
Proof.
  apply (strict_amount_check_rejects_unmatched_columns sampleConvertAssign
           (StrictColumnAmountCheck true initialState)
           (mkHolder (PtrTo (SliceOf valStruct)) []) unmatched valStruct valStruct);
    try reflexivity.
  - eexists _, _, _. reflexivity.
  - apply Exists_cons_tl, Exists_cons_hd. reflexivity.
Defined.

(** The check is read when a plan is compiled: a plan compiled with the
    check off is used with the check on, and the row is appended. *)
Lemma strict_amount_check_misses_cached_plans :
  let dst := mkHolder (PtrTo (SliceOf valStruct)) [] in
  let before := Propagate sampleConvertAssign initialState dst unmatched in
  let st := StrictColumnAmountCheck true (stateAfter before) in
  let after := Propagate sampleConvertAssign st dst unmatched in
  columnAmountCheck st = true /\
  result after = Ok () /\
  holderElements (dstAfter after) = [VStruct [VData (sql.Int64Value 1); VZero; VNil]].
Proof. repeat split; vm_compute; reflexivity. Qed.

(** *** Plan reuse *)

(** Two lists of one column with the same name and the same scan type, and
    another database type: the plan of the first is not reused for the
    second. *)
Lemma same_name_and_scan_type_not_reused :
  let decimal := sql.mkColumnType "id" false false false false 0 "DECIMAL" 0 0 intType in
  let integer := sql.mkColumnType "id" false false false false 0 "INT" 0 0 intType in
  let st := snd (scanDefinitionsGetOrCreateSync initialState intType [decimal]) in
  let st' := snd (scanDefinitionsGetOrCreateSync st intType [integer]) in
  (sql.name decimal, sql.scanType decimal) = (sql.name integer, sql.scanType integer) /\
  length (cachedFor st intType) = 1 /\
  find (scanDefinitionsMgr st) intType [integer] = None /\
  length (cachedFor st' intType) = 2.
Proof. repeat split; vm_compute; reflexivity. Qed.

(** *** The provider *)


(** *** Two callers at once *)

Definition firstUse : Concurrent.caller :=
  Concurrent.mkCaller intType [column "id" intType] Concurrent.BeforeRLock.

(** Both callers miss the cache under the read lock; the first then takes
    the lock, creates the scan definition and returns, and the second
    finds it under the lock. *)
Definition race : list nat := [0; 1; 0; 1; 0; 1; 0; 0; 0; 0; 1; 1; 1].

Lemma concurrent_callers_cache_no_duplicates_witness :
  exists w d,
    Concurrent.scheduled race
      (Concurrent.mkWorld initialState 0 None [firstUse; firstUse]) = Some w /\
    Concurrent.invariant w /\
    cachedFor (Concurrent.shared w) intType = [d] /\
    Concurrent.at_ <$> Concurrent.callers w =
      [Concurrent.Returned (Ok d); Concurrent.Returned (Ok d)].
Proof.
  destruct (Concurrent.scheduled race
              (Concurrent.mkWorld initialState 0 None [firstUse; firstUse]))
    as [w|] eqn:Hrun; [|vm_compute in Hrun; discriminate].
  exists w, (mkScanDefinition [column "id" intType] (singleColumnRows intType)).
  split; [reflexivity|]. split.
  - apply (Concurrent.concurrent_callers_cache_no_duplicates initialState
             [firstUse; firstUse] w).
    + intros t. apply NoDup_nil_2.
    + repeat constructor.
    + apply (Concurrent.scheduled_steps race). exact Hrun.
  - vm_compute in Hrun. injection Hrun as <-. split; reflexivity.
Defined.


(** ** Further properties *)

(** A destination that points to a slice of bytes: [elementType] stops at
    the slice itself, the mapper scans each row into a slice of bytes, and
    the injector appends to the slice of the destination, whose elements are
    bytes: [reflect.Append] panics at the first row that scans. *)
Theorem byte_slice_destination_panics convertAssign st dst rows c rest v :
  Forall (fun d => mapper d = singleColumnRows (SliceOf uint8Type))
    (cachedFor st (SliceOf uint8Type)) ->
  holderType dst = PtrTo (SliceOf uint8Type) ->
  closed rows = false ->
  pending rows = [c] :: rest ->
  convertAssign (SliceOf uint8Type) c = Some v ->
  let after := Propagate convertAssign st dst rows in
  result after = Panic /\ dstAfter after = dst.
Proof.
  intros Hcached Hty Hclosed Hpend Hv after. subst after.
  destruct (find_or_create_single st (SliceOf uint8Type) (columns rows) eq_refl Hcached)
    as (d & st' & Hplan & Hmapper).
  rewrite (Propagate_runs _ _ _ _ uint8Type (SliceOf uint8Type) _ _ Hty Hclosed
             eq_refl Hplan), Hmapper.
  unfold runMapper, runSingleColumn. rewrite Hty. cbn [prepareInjector].
  rewrite Hpend. cbn [length forRowsNext].
  rewrite (Next_delivers rows [c] rest Hclosed Hpend).
  rewrite (singleColumnRow_element convertAssign _ _ [c]) by reflexivity.
  rewrite singleColumnElement_cell, Hv. unfold inject.
  rewrite bool_decide_eq_false_2 by discriminate.
  destruct dst as [ty elements]. simpl in Hty. subst ty. split; reflexivity.
Qed.

Lemma byte_slice_destination_panics_witness :
  result
    (Propagate sampleConvertAssign initialState
       (mkHolder (PtrTo (SliceOf uint8Type)) [])
       (rowsOf [column "data" (SliceOf uint8Type)] [[sql.BytesValue "ab"]])) =
  Panic.
Proof.
  apply (byte_slice_destination_panics sampleConvertAssign initialState
           (mkHolder (PtrTo (SliceOf uint8Type)) [])
           (rowsOf [column "data" (SliceOf uint8Type)] [[sql.BytesValue "ab"]])
           (sql.BytesValue "ab") [] (VData (sql.BytesValue "ab"))
           (Forall_nil_2 _) eq_refl eq_refl eq_refl eq_refl).
Defined.

(** In a call of Propagate that maps records, when every row scans and the
    stream ends without an error, the call returns nil, the destination
    holds its elements followed by the elements of the rows in row order,
    and the stream is closed, by [Next] at its end. *)
Theorem record_rows_are_appended
    convertAssign st dst rows T d st' holderSuppliers provider vs :
  wellFormed st ->
  holderType dst = PtrTo (SliceOf T) ->
  closed rows = false ->
  elementType (SliceOf T) = Ok T ->
  scanDefinitionsGetOrCreateSync st T (columns rows) = (Ok d, st') ->
  mapper d = multiColumnRows holderSuppliers provider ->
  driverErr rows = None ->
  Forall2 (fun cells v =>
             multiColumnElement convertAssign holderSuppliers provider cells = Ok v)
    (pending rows) vs ->
  let after := Propagate convertAssign st dst rows in
  result after = Ok () /\
  holderElements (dstAfter after) = holderElements dst ++ vs /\
  closed (rowsAfter after) = true.
Proof.
  intros Hwf Hty Hclosed Helem Hplan Hmapper Hderr Hall after. subst after.
  destruct (scanDefinitionsGetOrCreateSync_wellFormed _ _ _ _ _ Hwf Hplan) as [_ Hfits].
  specialize (Hfits d eq_refl). rewrite Hmapper in Hfits. simpl in Hfits.
  rewrite (Propagate_runs _ _ _ _ _ _ _ _ Hty Hclosed Helem Hplan), Hmapper.
  unfold runMapper, runMultiColumn. rewrite Hty. cbn [prepareInjector]. rewrite Hfits.
  destruct (forRowsNext_all (multiColumnRow convertAssign holderSuppliers provider)
              (multiColumnElement convertAssign holderSuppliers provider)
              (multiColumnRow_element convertAssign holderSuppliers provider)
              T (S (length (pending rows))) rows (holderElements dst) vs)
    as (rs' & Hrun & Hc & Hp & Hl & Hce); [assumption | lia | assumption |].
  rewrite Hrun. unfold Err. rewrite Hl, Hderr. simpl. auto.
Qed.

Lemma record_rows_are_appended_witness :
  let after :=
    Propagate sampleConvertAssign initialState
      (mkHolder (PtrTo (SliceOf (PtrTo valStruct))) [])
      (rowsOf [column "ID" intType; column "col2" stringType]
         [[sql.Int64Value 1; sql.Null]; [sql.Int64Value 2; sql.StringValue "c"]]) in
  result after = Ok () /\
  holderElements (dstAfter after) =
    [VPtr (VStruct [VData (sql.Int64Value 1); VZero; VNil]);
     VPtr (VStruct [VData (sql.Int64Value 2); VZero;
                    VPtr (VData (sql.StringValue "c"))])] /\
  closed (rowsAfter after) = true.
Proof.
  eapply (record_rows_are_appended sampleConvertAssign initialState
            (mkHolder (PtrTo (SliceOf (PtrTo valStruct))) [])
            (rowsOf [column "ID" intType; column "col2" stringType]
               [[sql.Int64Value 1; sql.Null];
                [sql.Int64Value 2; sql.StringValue "c"]])
            (PtrTo valStruct)).
  - exact wellFormed_initialState.
  - reflexivity.
  - reflexivity.
  - reflexivity.
  - vm_compute. reflexivity.
  - reflexivity.
  - reflexivity.
  - constructor; [vm_compute; reflexivity|].
    constructor; [vm_compute; reflexivity | constructor].
Defined.

(** Index paths of length 4 share their array: [append(folding, i)] writes
    into the array of [folding] when it has room, as it has at length 3, so
    the paths of all fields of a struct three structs down end in the index
    of its last field.  The columns x and y are both bound to [Y]. *)
Definition deepD : type :=
  StructOf "D" false
    [mkField "X" false None intType; mkField "Y" false None intType].
Definition deepC : type := StructOf "C" false [mkField "D" false None (PtrTo deepD)].
Definition deepB : type := StructOf "B" false [mkField "C" false None (PtrTo deepC)].
Definition deepA : type := StructOf "A" false [mkField "B" false None (PtrTo deepB)].

Lemma deep_index_paths_share_their_array :
  lastRegistered "x" (registrations [] deepA) = Some (intType, [0; 0; 0; 0]) /\
  createHolderSuppliers false false deepA [column "x" intType; column "y" intType] =
    Ok [holderByFieldIndexPath [0; 0; 0; 1]; holderByFieldIndexPath [0; 0; 0; 1]] /\
  holderElements
    (dstAfter
       (Propagate sampleConvertAssign initialState
          (mkHolder (PtrTo (SliceOf deepA)) [])
          (rowsOf [column "x" intType; column "y" intType]
             [[sql.Int64Value 1; sql.Int64Value 2]]))) =
    [VStruct [VPtr (VStruct [VPtr (VStruct [VPtr (VStruct
       [VZero; VData (sql.Int64Value 2)])])])]].
Proof. repeat split; vm_compute; reflexivity. Qed.

(** Every call of Propagate keeps the caches of the package well formed:
    the provider cached for a type provides values of the type, and so does
    the mapper of every scan definition cached for it. *)
Theorem propagate_keeps_the_caches_well_formed convertAssign st dst rows :
  wellFormed st -> wellFormed (stateAfter (Propagate convertAssign st dst rows)).
Proof. apply Propagate_wellFormed. Qed.

Lemma propagate_keeps_the_caches_well_formed_witness :
  wellFormed
    (stateAfter
       (Propagate sampleConvertAssign initialState
          (mkHolder (PtrTo (SliceOf valStruct)) []) vals)).
Proof.
  apply (propagate_keeps_the_caches_well_formed sampleConvertAssign initialState).
  exact wellFormed_initialState.
Defined.

(** ** The scan definition cache as a cache *)

Lemma find_cachedFor st t cols :
  find (scanDefinitionsMgr st) t cols = find_loop (cachedFor st t) cols.
Proof.
  unfold find, cachedFor.
  destruct (scanDefinitionsOf (scanDefinitionsMgr st) t); reflexivity.
Qed.

Lemma find_loop_app_Some ds ds' cols d :
  find_loop ds cols = Some d -> find_loop (ds ++ ds') cols = Some d.
Proof.
  induction ds as [|x ds IH]; [discriminate|].
  rewrite <- app_comm_cons, !find_loop_step.
  destruct (sameColumnTypes (columnTypes x) cols); [trivial | exact IH].
Qed.

Lemma find_loop_app_None ds ds' cols :
  find_loop ds cols = None -> find_loop (ds ++ ds') cols = find_loop ds' cols.
Proof.
  induction ds as [|x ds IH]; [reflexivity|].
  rewrite <- app_comm_cons, !find_loop_step.
  destruct (sameColumnTypes (columnTypes x) cols); [discriminate | exact IH].
Qed.

(** What [getOrCreateSync] does to the cache: a definition that was found
    before is found after, for every type and every list of columns. *)
Lemma scanDefinitionsGetOrCreateSync_keeps st t cols r st' :
  scanDefinitionsGetOrCreateSync st t cols = (r, st') ->
  forall t' cols' d',
    find (scanDefinitionsMgr st) t' cols' = Some d' ->
    find (scanDefinitionsMgr st') t' cols' = Some d'.
Proof.
  rewrite scanDefinitionsGetOrCreateSync_unfold.
  destruct (find (scanDefinitionsMgr st) t cols) as [d|] eqn:Hfind.
  - intros [= <- <-]. trivial.
  - intros Hcreate t' cols' d' Hfound.
    pose proof (create_cached _ _ _ _ _ Hcreate) as Hc.
    assert (Hsame : scanDefinitionsMgr st' = scanDefinitionsMgr st ->
                    find (scanDefinitionsMgr st') t' cols' = Some d')
      by (intros ->; exact Hfound).
    destruct r as [d|e| |]; try (apply Hsame; exact Hc).
    destruct Hc as (_ & Hthis & Hothers).
    rewrite find_cachedFor in Hfound |- *.
    destruct (decide (t' = t)) as [->|Hne].
    + rewrite Hthis. apply find_loop_app_Some. exact Hfound.
    + rewrite (Hothers t' Hne). exact Hfound.
Qed.

(** The scan definition [getOrCreateSync] returns is the one it returns
    from then on for the same element type and columns, and the state stays
    as the call left it: nothing is compiled twice. *)
Theorem scan_definition_is_returned_again st t cols d st' :
  scanDefinitionsGetOrCreateSync st t cols = (Ok d, st') ->
  find (scanDefinitionsMgr st') t cols = Some d /\
  scanDefinitionsGetOrCreateSync st' t cols = (Ok d, st').
Proof.
  intros Hrun.
  assert (Hfound : find (scanDefinitionsMgr st') t cols = Some d).
  { rewrite scanDefinitionsGetOrCreateSync_unfold in Hrun.
    destruct (find (scanDefinitionsMgr st) t cols) as [d0|] eqn:Hfind.
    - injection Hrun as <- <-. exact Hfind.
    - destruct (create_cached _ _ _ _ _ Hrun) as (Hcols & Hthis & _).
      rewrite find_cachedFor in Hfind |- *.
      rewrite Hthis, (find_loop_app_None _ _ _ Hfind), find_loop_step.
      replace (sameColumnTypes (columnTypes d) cols) with true; [reflexivity|].
      symmetry. apply sameColumnTypes_true. exact Hcols. }
  split; [exact Hfound|].
  rewrite scanDefinitionsGetOrCreateSync_unfold, Hfound. reflexivity.
Qed.

Lemma scan_definition_is_returned_again_witness :
  exists d st',
    scanDefinitionsGetOrCreateSync initialState valStruct
      [column "id" intType; column "zzz" stringType] = (Ok d, st') /\
    mapper d =
      multiColumnRows [holderByFieldIndexPath [0]; holderSkipColumn]
        (Provider valStruct 0 []) /\
    scanDefinitionsGetOrCreateSync st' valStruct
      [column "id" intType; column "zzz" stringType] = (Ok d, st').
Proof.
  destruct (scanDefinitionsGetOrCreateSync initialState valStruct
              [column "id" intType; column "zzz" stringType])
    as [[d|e| |] st'] eqn:Hrun; try (vm_compute in Hrun; discriminate).
  exists d, st'. split; [reflexivity|]. split.
  - vm_compute in Hrun. injection Hrun as <- _. reflexivity.
  - exact (proj2 (scan_definition_is_returned_again _ _ _ _ _ Hrun)).
Defined.

(** Propagate never evicts or replaces a cached scan definition: what
    [find] returned before a call, for any element type and columns, it
    returns after it, whatever the call does. *)
Theorem propagate_keeps_cached_scan_definitions
    convertAssign st dst rows t cols d :
  find (scanDefinitionsMgr st) t cols = Some d ->
  find (scanDefinitionsMgr (stateAfter (Propagate convertAssign st dst rows)))
    t cols = Some d.
Proof.
  intros Hfound. unfold Propagate.
  destruct (ColumnTypes rows) as [columnTypes'|e| |]; try exact Hfound.
  destruct (holderType dst) as [k|[k|e|e|nm sc fs]|e|nm sc fs]; try exact Hfound.
  destruct (elementType (SliceOf e)) as [et|err| |]; try exact Hfound.
  destruct (scanDefinitionsGetOrCreateSync st et columnTypes') as [r st'] eqn:Hplan.
  pose proof (scanDefinitionsGetOrCreateSync_keeps _ _ _ _ _ Hplan t cols d Hfound)
    as Hkept.
  destruct r as [d'|err| |]; try exact Hkept.
  destruct (runMapper convertAssign (mapper d') dst rows) as [[r' dst'] rows'].
  exact Hkept.
Qed.

Lemma propagate_keeps_cached_scan_definitions_witness :
  let cols := [column "id" intType; column "zzz" stringType] in
  let st := snd (scanDefinitionsGetOrCreateSync initialState valStruct cols) in
  exists d,
    find (scanDefinitionsMgr st) valStruct cols = Some d /\
    find (scanDefinitionsMgr
            (stateAfter
               (Propagate sampleConvertAssign st
                  (mkHolder (PtrTo (SliceOf valStruct)) []) vals)))
      valStruct cols = Some d.
Proof.
  destruct (find (scanDefinitionsMgr
              (snd (scanDefinitionsGetOrCreateSync initialState valStruct
                      [column "id" intType; column "zzz" stringType])))
              valStruct [column "id" intType; column "zzz" stringType])
    as [d|] eqn:Hfound; [|vm_compute in Hfound; discriminate].
  exists d. split; [exact Hfound|].
  apply propagate_keeps_cached_scan_definitions. exact Hfound.
Defined.

(** A cached scan definition is used as it was compiled: for a call whose
    element type and columns have one, the result, the destination and the
    stream are the same in every state with the same scan definitions,
    whatever the strictness flags, the registered smallest decompositions
    and the provider cache are by then. *)
Theorem cached_scan_definition_ignores_configuration
    convertAssign st st' dst rows E T d :
  scanDefinitionsMgr st' = scanDefinitionsMgr st ->
  holderType dst = PtrTo (SliceOf E) ->
  closed rows = false ->
  elementType (SliceOf E) = Ok T ->
  find (scanDefinitionsMgr st) T (columns rows) = Some d ->
  let before := Propagate convertAssign st dst rows in
  let after := Propagate convertAssign st' dst rows in
  result after = result before /\
  dstAfter after = dstAfter before /\
  rowsAfter after = rowsAfter before /\
  stateAfter after = st'.
Proof.
  intros Hsame Hty Hclosed Helem Hfound before after. subst before after.
  assert (Hplan : forall s, scanDefinitionsMgr s = scanDefinitionsMgr st ->
            scanDefinitionsGetOrCreateSync s T (columns rows) = (Ok d, s)).
  { intros s Hs. rewrite scanDefinitionsGetOrCreateSync_unfold, Hs, Hfound.
    reflexivity. }
  rewrite (Propagate_runs _ st _ _ _ _ _ _ Hty Hclosed Helem (Hplan st eq_refl)).
  rewrite (Propagate_runs _ st' _ _ _ _ _ _ Hty Hclosed Helem (Hplan st' Hsame)).
  destruct (runMapper convertAssign (mapper d) dst rows) as [[r dst'] rows'].
  repeat split.
Qed.

Lemma cached_scan_definition_ignores_configuration_witness :
  let dst := mkHolder (PtrTo (SliceOf valStruct)) [] in
  let st := stateAfter (Propagate sampleConvertAssign initialState dst unmatched) in
  let strict := StrictColumnTypeCheck true (StrictColumnAmountCheck true st) in
  result (Propagate sampleConvertAssign strict dst unmatched) = Ok () /\
  dstAfter (Propagate sampleConvertAssign strict dst unmatched) =
    dstAfter (Propagate sampleConvertAssign st dst unmatched).
Proof.
  destruct (find (scanDefinitionsMgr
              (stateAfter (Propagate sampleConvertAssign initialState
                 (mkHolder (PtrTo (SliceOf valStruct)) []) unmatched)))
              valStruct (columns unmatched)) as [d|] eqn:Hfound;
    [|vm_compute in Hfound; discriminate].
  destruct (cached_scan_definition_ignores_configuration sampleConvertAssign
              (stateAfter (Propagate sampleConvertAssign initialState
                 (mkHolder (PtrTo (SliceOf valStruct)) []) unmatched))
              (StrictColumnTypeCheck true (StrictColumnAmountCheck true
                 (stateAfter (Propagate sampleConvertAssign initialState
                    (mkHolder (PtrTo (SliceOf valStruct)) []) unmatched))))
              (mkHolder (PtrTo (SliceOf valStruct)) []) unmatched
              valStruct valStruct d eq_refl eq_refl eq_refl eq_refl Hfound)
    as (Hresult & Hdst & _).
  split; [|exact Hdst].
  etransitivity; [exact Hresult|]. vm_compute. reflexivity.
Defined.

(** ** Streams that do not fit the destination *)



(** The element a mapper makes of the cells of a row. *)
Definition elementOf (convertAssign : type -> sql.driverValue -> option value)
    (m : rowsMapper) (cells : list sql.driverValue) : outcome value :=
  match m with
  | singleColumnRows forType => singleColumnElement convertAssign forType cells
  | multiColumnRows holderSuppliers provider =>
      multiColumnElement convertAssign holderSuppliers provider cells
  end.

(** A destination whose slice has elements of another type than the
    element type [elementType] finds (a slice of slices, or a slice of
    bytes, whose element type is the slice of bytes itself): the mapper
    makes elements of the element type, and [reflect.Append] panics at the
    first row of which an element is made; nothing was appended. *)
Theorem slice_of_another_element_type_panics
    convertAssign st dst rows E T d st' cells rest v :
  wellFormed st ->
  holderType dst = PtrTo (SliceOf E) ->
  closed rows = false ->
  elementType (SliceOf E) = Ok T ->
  T ≠ E ->
  scanDefinitionsGetOrCreateSync st T (columns rows) = (Ok d, st') ->
  pending rows = cells :: rest ->
  elementOf convertAssign (mapper d) cells = Ok v ->
  let after := Propagate convertAssign st dst rows in
  result after = Panic /\ dstAfter after = dst.
Proof.
  intros Hwf Hty Hclosed Helem Hne Hplan Hpend Hv after. subst after.
  destruct (scanDefinitionsGetOrCreateSync_wellFormed _ _ _ _ _ Hwf Hplan) as [_ Hfits].
  specialize (Hfits d eq_refl).
  rewrite (Propagate_runs _ _ _ _ _ _ _ _ Hty Hclosed Helem Hplan).
  destruct dst as [ty elements]. simpl in Hty. subst ty.
  destruct (mapper d) as [forType|hs p]; simpl in Hfits, Hv;
    unfold runMapper, runSingleColumn, runMultiColumn;
    cbn [holderType holderElements prepareInjector];
    rewrite Hpend; cbn [length forRowsNext];
    rewrite (Next_delivers rows cells rest Hclosed Hpend).
  - rewrite (singleColumnRow_element convertAssign _ _ cells) by reflexivity.
    rewrite Hv. unfold inject. subst forType.
    rewrite bool_decide_eq_false_2 by exact Hne. split; reflexivity.
  - rewrite (multiColumnRow_element convertAssign _ _ _ cells) by reflexivity.
    rewrite Hv. unfold inject. rewrite Hfits.
    rewrite bool_decide_eq_false_2 by exact Hne. split; reflexivity.
Qed.

Lemma slice_of_another_element_type_panics_witness :
  let after :=
    Propagate sampleConvertAssign initialState
      (mkHolder (PtrTo (SliceOf (SliceOf valStruct))) []) vals in
  result after = Panic /\
  dstAfter after = mkHolder (PtrTo (SliceOf (SliceOf valStruct))) [].
Proof.
  eapply (slice_of_another_element_type_panics sampleConvertAssign initialState
            (mkHolder (PtrTo (SliceOf (SliceOf valStruct))) []) vals
            (SliceOf valStruct) valStruct).
  - exact wellFormed_initialState.
  - reflexivity.
  - reflexivity.
  - reflexivity.
  - discriminate.
  - vm_compute. reflexivity.
  - reflexivity.
  - vm_compute. reflexivity.
Defined.

(** ** Element types the accessor resolver has no case for *)

Lemma createFieldsAccessorsRecursively_Hang t : forall m h folding,
  ¬ structRooted t -> createFieldsAccessorsRecursively m h folding t = Hang.
Proof.
  induction t as [k|e IH|e _|nm sc fs _] using type_fields_ind;
    intros m h folding Hroot; try reflexivity.
  - simpl. apply IH. intros (a & b & c & Hbase). apply Hroot. exists a, b, c.
    simpl. destruct (stripPtr e). exact Hbase.
  - destruct Hroot. eexists _, _, _. reflexivity.
Qed.

(** The accessor resolver returns a map for a struct behind any number of
    pointers and never returns for any other type: its error return is
    unreachable. *)
Theorem accessor_resolver_returns_or_never t :
  (structRooted t /\ exists m h, createFieldsAccessors t = Ok (m, h)) \/
  (¬ structRooted t /\ createFieldsAccessors t = Hang).
Proof.
  destruct (snd (stripPtr t)) as [k|e|e|nm sc fs] eqn:Hbase.
  4: { left. assert (Hroot : structRooted t) by (eexists _, _, _; exact Hbase).
       split; [exact Hroot|].
       destruct (createFieldsAccessors_resolved t Hroot) as (m & h & Hrun & _).
       exists m, h. exact Hrun. }
  all: right;
    assert (Hroot : ¬ structRooted t)
      by (intros (a & b & c & Habs); rewrite Hbase in Habs; discriminate);
    split; [exact Hroot|];
    apply createFieldsAccessorsRecursively_Hang; exact Hroot.
Qed.

(** An element type that is no single basic type and no struct behind
    pointers, such as bool or a slice of such: with no scan definition cached
    for the columns, Propagate never returns. *)
Theorem unsupported_element_kind_never_returns
    convertAssign st dst rows E T :
  holderType dst = PtrTo (SliceOf E) ->
  closed rows = false ->
  elementType (SliceOf E) = Ok T ->
  isSingleBasicType (smallestStructDecompositions st) T = false ->
  ¬ structRooted T ->
  find (scanDefinitionsMgr st) T (columns rows) = None ->
  let after := Propagate convertAssign st dst rows in
  result after = Hang /\ dstAfter after = dst /\ rowsAfter after = rows.
Proof.
  intros Hty Hclosed Helem Hbasic Hroot Hfind after. subst after.
  assert (Hplan : scanDefinitionsGetOrCreateSync st T (columns rows) =
                  (Hang, withProviders st (structProviderMgr st))).
  { rewrite scanDefinitionsGetOrCreateSync_unfold, Hfind.
    unfold create, createRowsMapper. rewrite Hbasic.
    unfold multiColumnMapper, createHolderSuppliers, createFieldsAccessors.
    rewrite (createFieldsAccessorsRecursively_Hang T _ _ _ Hroot). reflexivity. }
  rewrite (Propagate_without_plan _ _ _ _ _ _ _ _ Hty Hclosed Helem Hplan);
    [repeat split | intros d; discriminate].
Qed.

Lemma unsupported_element_kind_never_returns_witness :
  createFieldsAccessors boolType = Hang /\
  result
    (Propagate sampleConvertAssign initialState
       (mkHolder (PtrTo (SliceOf boolType)) [])
       (rowsOf [column "flag" boolType] [[sql.BoolValue true]])) = Hang.
Proof.
  split; [vm_compute; reflexivity|].
  apply (unsupported_element_kind_never_returns sampleConvertAssign initialState
           (mkHolder (PtrTo (SliceOf boolType)) [])
           (rowsOf [column "flag" boolType] [[sql.BoolValue true]])
           boolType boolType eq_refl eq_refl eq_refl eq_refl);
    [|reflexivity].
  intros (nm & sc & fs & Hbase). discriminate.
Defined.

(** ** What every call leaves of the destination and the stream *)

(** The rows a run of the loop has read and the elements it has appended. *)
Definition readAndAppended (rs rs' : Rows) (elements elements' : list value)
    (r : outcome unit) : Prop :=
  exists consumed added,
    pending rs = consumed ++ pending rs' /\
    elements' = elements ++ added /\
    length added ≤ length consumed /\
    (r = Ok () -> closed rs = false ->
     length added = length consumed /\ pending rs' = [] /\ closed rs' = true).

Lemma readAndAppended_none rs rs' elements r :
  pending rs' = pending rs ->
  (r = Ok () -> closed rs = false -> pending rs' = [] /\ closed rs' = true) ->
  readAndAppended rs rs' elements elements r.
Proof.
  intros Hp Hok. exists [], []. split; [rewrite Hp; reflexivity|].
  split; [symmetry; apply app_nil_r|]. split; [simpl; lia|].
  intros Hr Hc. split; [reflexivity | exact (Hok Hr Hc)].
Qed.

Lemma readAndAppended_stop rs rs1 elements cells rest r :
  pending rs = cells :: rest -> pending rs1 = rest -> r ≠ Ok () ->
  readAndAppended rs rs1 elements elements r.
Proof.
  intros Hp Hp1 Hr. exists [cells], []. split; [rewrite Hp, Hp1; reflexivity|].
  split; [symmetry; apply app_nil_r|]. split; [simpl; lia|].
  intros Hr'. contradiction.
Qed.

Lemma forRowsNext_appends row sliceElem valueType fuel :
  forall rs elements r elements' rs',
    forRowsNext fuel row sliceElem valueType rs elements = (r, elements', rs') ->
    readAndAppended rs rs' elements elements' r.
Proof.
  induction fuel as [|fuel IH]; intros rs elements r elements' rs' Hrun; simpl in Hrun.
  { injection Hrun as <- <- <-. apply readAndAppended_none; [reflexivity|discriminate]. }
  unfold Next in Hrun. destruct (closed rs) eqn:Hclosed.
  { injection Hrun as <- <- <-. apply readAndAppended_none; [reflexivity|].
    intros _ Hc. congruence. }
  destruct (pending rs) as [|cells rest] eqn:Hpend.
  { unfold Close in Hrun. cbn [closed snd] in Hrun. injection Hrun as <- <- <-.
    apply readAndAppended_none; [symmetry; exact Hpend|].
    intros _ _. split; reflexivity. }
  cbn [fst snd] in Hrun.
  destruct (row _) as [holderElement|e| |];
    try (injection Hrun as <- <- <-;
         apply (readAndAppended_stop _ _ _ cells rest); try assumption;
         [reflexivity | discriminate]).
  unfold inject in Hrun. destruct (bool_decide (valueType = sliceElem)).
  - destruct (IH _ _ _ _ _ Hrun) as (consumed & added & Hp & He & Hlen & Hok).
    cbn [pending closed] in Hp, Hok.
    exists (cells :: consumed), (holderElement :: added).
    split; [rewrite Hpend, Hp; reflexivity|].
    split; [rewrite He, <- app_assoc; reflexivity|].
    split; [simpl; lia|].
    intros Hr _. destruct (Hok Hr eq_refl) as (H1 & H2 & H3).
    split; [simpl; lia | split; assumption].
  - injection Hrun as <- <- <-.
    apply (readAndAppended_stop _ _ _ cells rest); try assumption;
      [reflexivity | discriminate].
Qed.

Lemma readAndAppended_closed rs rs' rs'' elements elements' r :
  readAndAppended rs rs' elements elements' r ->
  pending rs'' = pending rs' -> closed rs'' = true ->
  readAndAppended rs rs'' elements elements' r.
Proof.
  intros (consumed & added & Hp & He & Hlen & Hok) Hp' Hc'.
  exists consumed, added. rewrite Hp'.
  split; [exact Hp|]. split; [exact He|]. split; [exact Hlen|].
  intros Hr Hc. destruct (Hok Hr Hc) as (H1 & H2 & H3).
  split; [exact H1|]. split; [exact H2 | exact Hc'].
Qed.

Lemma readAndAppended_failed rs rs' elements elements' r r' :
  readAndAppended rs rs' elements elements' r -> r' ≠ Ok () ->
  readAndAppended rs rs' elements elements' r'.
Proof.
  intros (consumed & added & Hp & He & Hlen & Hok) Hr'.
  exists consumed, added.
  split; [exact Hp|]. split; [exact He|]. split; [exact Hlen|].
  intros Hr. contradiction.
Qed.

Lemma runMapper_appends convertAssign m dst rows r dst' rows' :
  runMapper convertAssign m dst rows = (r, dst', rows') ->
  holderType dst' = holderType dst /\
  readAndAppended rows rows' (holderElements dst) (holderElements dst') r.
Proof.
  destruct dst as [ty elements].
  destruct m as [forType|hs p]; unfold runMapper, runSingleColumn, runMultiColumn;
    cbn [holderType holderElements].
  - destruct (prepareInjector ty) as [sliceElem|e| |].
    2: { intros [= <- <- <-]. split; [reflexivity|].
         apply readAndAppended_none; [|discriminate].
         unfold Close. destruct (closed rows); reflexivity. }
    2,3: intros [= <- <- <-]; split;
           [reflexivity | apply readAndAppended_none; [reflexivity|discriminate]].
    destruct (forRowsNext _ _ _ _ _ _) as [[r0 elements0] rs0] eqn:Hloop.
    pose proof (forRowsNext_appends _ _ _ _ _ _ _ _ _ Hloop) as Hread.
    destruct r0 as [[]|e| |];
      try (intros [= <- <- <-]; split; [reflexivity | exact Hread]).
    destruct (Err rs0) as [e|].
    + intros [= <- <- <-]. split; [reflexivity|].
      apply (readAndAppended_failed _ _ _ _ _ _ Hread). discriminate.
    + unfold Close. destruct (closed rs0) eqn:Hc0.
      * intros [= <- <- <-]. split; [reflexivity | exact Hread].
      * intros [= <- <- <-]. split; [reflexivity|]. cbn [holderElements].
        apply (readAndAppended_closed rows rs0); [|reflexivity..].
        destruct (closeErr rs0); [|exact Hread].
        apply (readAndAppended_failed _ _ _ _ _ _ Hread). discriminate.
  - destruct (prepareInjector ty) as [sliceElem|e| |].
    2,3,4: intros [= <- <- <-]; split;
             [reflexivity | apply readAndAppended_none; [reflexivity|discriminate]].
    destruct (forRowsNext _ _ _ _ _ _) as [[r0 elements0] rs0] eqn:Hloop.
    pose proof (forRowsNext_appends _ _ _ _ _ _ _ _ _ Hloop) as Hread.
    destruct r0 as [[]|e| |];
      try (intros [= <- <- <-]; split; [reflexivity | exact Hread]).
    intros [= <- <- <-]. split; [reflexivity|].
    destruct (Err rs0); [|exact Hread].
    apply (readAndAppended_failed _ _ _ _ _ _ Hread). discriminate.
Qed.

(** Whatever a call of Propagate does (return nil or an error, panic or
    never return), it only appends to the destination and only reads the
    stream from its front: the destination keeps its type and its elements,
    in order, followed by at most one new element per row read, and the
    rows left in the stream are the last of those it had.  When the call
    returns nil every row was read and gave one element, and the stream is
    closed. *)
Theorem propagate_only_appends convertAssign st dst rows :
  let after := Propagate convertAssign st dst rows in
  holderType (dstAfter after) = holderType dst /\
  exists consumed added,
    pending rows = consumed ++ pending (rowsAfter after) /\
    holderElements (dstAfter after) = holderElements dst ++ added /\
    length added ≤ length consumed /\
    (result after = Ok () ->
     length added = length (pending rows) /\
     pending (rowsAfter after) = [] /\
     closed (rowsAfter after) = true).
Proof.
  intros after.
  assert (Hread : holderType (dstAfter after) = holderType dst /\
                  (result after = Ok () -> closed rows = false) /\
                  readAndAppended rows (rowsAfter after) (holderElements dst)
                    (holderElements (dstAfter after)) (result after)).
  { assert (Hnothing : forall (r : outcome unit) st', r ≠ Ok () ->
      holderType (dstAfter (mkPropagated r st' dst rows)) = holderType dst /\
      (result (mkPropagated r st' dst rows) = Ok () -> closed rows = false) /\
      readAndAppended rows (rowsAfter (mkPropagated r st' dst rows))
        (holderElements dst)
        (holderElements (dstAfter (mkPropagated r st' dst rows)))
        (result (mkPropagated r st' dst rows))).
    { intros r st' Hr. split; [reflexivity|]. split; [intros Habs; contradiction|].
      apply readAndAppended_none; [reflexivity | intros Habs; contradiction]. }
    subst after. unfold Propagate, ColumnTypes. destruct (closed rows) eqn:Hclosed.
    { apply Hnothing. discriminate. }
    destruct (holderType dst) as [k|[k|e|e|nm sc fs]|e|nm sc fs] eqn:Hty;
      try (apply Hnothing; discriminate).
    destruct (elementType (SliceOf e)) as [et|err| |];
      try (apply Hnothing; discriminate).
    destruct (scanDefinitionsGetOrCreateSync st et (columns rows)) as [[d|err| |] st'];
      try (apply Hnothing; discriminate).
    destruct (runMapper convertAssign (mapper d) dst rows) as [[r dst'] rows'] eqn:Hrun.
    destruct (runMapper_appends _ _ _ _ _ _ _ Hrun) as (Hty' & Hread).
    cbn [dstAfter rowsAfter result]. split; [congruence|]. split; [reflexivity|].
    exact Hread. }
  destruct Hread as (Hty & Hclosed & consumed & added & Hp & He & Hlen & Hok).
  split; [exact Hty|]. exists consumed, added.
  split; [exact Hp|]. split; [exact He|]. split; [exact Hlen|].
  intros Hr. destruct (Hok Hr (Hclosed Hr)) as (H1 & H2 & H3).
  split; [|split; assumption].
  rewrite Hp, H2, app_nil_r. exact H1.
Qed.

(** ** The strict column type check *)

(** The field a column is bound to has the scan type of the column. *)
Definition sameTypeAsField (t : type) (c : sql.ColumnType) : Prop :=
  forall ft p,
    lastRegistered (ToLower (sql.name c)) (registrations [] t) = Some (ft, p) ->
    sql.scanType c = ft.

Lemma holderSuppliersLoop_app camtChk ctChk m h pre rest : forall acc hs,
  holderSuppliersLoop camtChk ctChk m h pre acc = Ok hs ->
  holderSuppliersLoop camtChk ctChk m h (pre ++ rest) acc =
  holderSuppliersLoop camtChk ctChk m h rest hs.
Proof.
  induction pre as [|c pre IH]; intros acc hs; simpl.
  - intros [= <-]. reflexivity.
  - destruct (m !! ToLower (sql.name c)) as [a|].
    + destruct (ctChk && negb (bool_decide (sql.scanType c = fieldType a)));
        [discriminate | apply IH].
    + destruct camtChk; [discriminate | apply IH].
Qed.

Lemma holderSuppliersLoop_typed camtChk (m : gmap string fieldAccessor) h cols :
  forall acc hs,
  holderSuppliersLoop camtChk true m h cols acc = Ok hs ->
  Forall (fun c => forall a, m !! ToLower (sql.name c) = Some a ->
                             sql.scanType c = fieldType a) cols.
Proof.
  induction cols as [|c cols IH]; intros acc hs; simpl; [constructor|].
  destruct (m !! ToLower (sql.name c)) as [a|] eqn:Ha.
  - destruct (bool_decide (sql.scanType c = fieldType a)) eqn:Hty; [|discriminate].
    simpl. intros Hrun. constructor; [|exact (IH _ _ Hrun)].
    intros a' Ha'. rewrite Ha in Ha'. injection Ha' as <-.
    apply bool_decide_eq_true in Hty. exact Hty.
  - destruct camtChk; [discriminate|]. intros Hrun.
    constructor; [intros a' Ha'; congruence | exact (IH _ _ Hrun)].
Qed.

Lemma resolved_fieldType t (m : gmap string fieldAccessor) k ft p :
  (forall k, outline <$> m !! k =
             prod_map id length <$> lastRegistered k (registrations [] t)) ->
  lastRegistered k (registrations [] t) = Some (ft, p) ->
  exists a, m !! k = Some a /\ fieldType a = ft.
Proof.
  intros Hkeys Hlast. specialize (Hkeys k). rewrite Hlast in Hkeys.
  destruct (m !! k) as [a|]; [|discriminate]. injection Hkeys as Hty _.
  exists a. split; [reflexivity | exact Hty].
Qed.

(** With the strict column type check on, a plan compiles only when every
    column that is bound to a field has the type of the field as its scan
    type; compilation stops at the first column that has not, with an error
    that names the column, the type of the field and the scan type. *)
Theorem strict_type_check_compares_scan_types camtChk t cols :
  structRooted t ->
  (forall hs, createHolderSuppliers camtChk true t cols = Ok hs ->
     Forall (sameTypeAsField t) cols) /\
  (forall pre c post hs ft p,
     cols = pre ++ c :: post ->
     createHolderSuppliers camtChk true t pre = Ok hs ->
     lastRegistered (ToLower (sql.name c)) (registrations [] t) = Some (ft, p) ->
     sql.scanType c ≠ ft ->
     createHolderSuppliers camtChk true t cols =
       Fail (ErrTypeCheck (sql.name c) ft (sql.scanType c))).
Proof.
  intros Hroot.
  destruct (createFieldsAccessors_resolved t Hroot) as (m & h & Hrun & Hkeys & _).
  unfold createHolderSuppliers. rewrite Hrun. cbn [mbind outcome_bind]. split.
  - intros hs Hhs. pose proof (holderSuppliersLoop_typed _ _ _ _ _ _ Hhs) as Hall.
    eapply Forall_impl; [exact Hall|]. intros c Hc ft p Hlast.
    destruct (resolved_fieldType t m _ ft p Hkeys Hlast) as (a & Ha & <-).
    exact (Hc a Ha).
  - intros pre c post hs ft p -> Hpre Hlast Hne.
    rewrite (holderSuppliersLoop_app _ _ _ _ _ _ _ _ Hpre). simpl.
    destruct (resolved_fieldType t m _ ft p Hkeys Hlast) as (a & Ha & <-).
    rewrite Ha, bool_decide_eq_false_2 by exact Hne. reflexivity.
Qed.

Lemma strict_type_check_compares_scan_types_witness :
  createHolderSuppliers false true valStruct
    [column "id" intType; column "col1" intType; column "col2" stringType] =
  Fail (ErrTypeCheck "col1" stringType intType).
Proof.
  assert (Hroot : structRooted valStruct) by (eexists _, _, _; reflexivity).
  apply (proj2 (strict_type_check_compares_scan_types false valStruct
                  [column "id" intType; column "col1" intType;
                   column "col2" stringType] Hroot)
           [column "id" intType] (column "col1" intType)
           [column "col2" stringType] [holderByFieldIndexPath [0]]
           stringType [1]); try reflexivity.
  discriminate.
Defined.

(** ** Discarded columns *)

Lemma supplyAll_shape t underlyingValue hs : forall dests,
  supplyAll t underlyingValue hs = Ok dests ->
  Forall2 (fun s d => match s with
                      | holderSkipColumn => d = None
                      | holderByFieldIndexPath _ => d ≠ None
                      end) hs dests.
Proof.
  induction hs as [|s hs IH]; intros dests Hrun; simpl in Hrun.
  - injection Hrun as <-. constructor.
  - destruct (supply t underlyingValue s) as [d|e| |] eqn:Hs; try discriminate.
    simpl in Hrun.
    destruct (supplyAll t underlyingValue hs) as [ds|e| |] eqn:Hds; try discriminate.
    simpl in Hrun. injection Hrun as <-. constructor; [|apply IH; reflexivity].
    destruct s as [path|]; simpl in Hs.
    + destruct (FieldByIndex_loop t underlyingValue path true false false)
        as [[ft ro]|e| |]; try discriminate.
      simpl in Hs. destruct ro; [discriminate|]. injection Hs as <-. discriminate.
    + injection Hs as <-. reflexivity.
Qed.

(** Two rows agree on the cells that are scanned into a field. *)
Inductive agreeOnBound {A} : list (option A) -> list sql.driverValue ->
    list sql.driverValue -> Prop :=
| agree_done dests : agreeOnBound dests [] []
| agree_none cells cells' : agreeOnBound [] cells cells'
| agree_skip dests c c' cells cells' :
    agreeOnBound dests cells cells' ->
    agreeOnBound (None :: dests) (c :: cells) (c' :: cells')
| agree_same d dests c cells cells' :
    agreeOnBound dests cells cells' ->
    agreeOnBound (d :: dests) (c :: cells) (c :: cells').

Lemma scanCells_agree convertAssign dests cells cells' :
  agreeOnBound dests cells cells' ->
  forall i root overwritten,
    scanCells convertAssign dests cells i root overwritten =
    scanCells convertAssign dests cells' i root overwritten.
Proof.
  induction 1 as [dests|cells cells'|dests c c' cells cells' _ IH
                 |d dests c cells cells' _ IH]; intros i root ow.
  - reflexivity.
  - destruct cells, cells'; reflexivity.
  - simpl. apply IH.
  - destruct d as [[p ty]|]; simpl; [|apply IH].
    destruct (convertAssign ty c); [|reflexivity].
    destruct (detached ow p); apply IH.
Qed.

Lemma agreeOnBound_suppliers {A} hs (dests : list (option A)) :
  Forall2 (fun s d => match s with
                      | holderSkipColumn => d = None
                      | holderByFieldIndexPath _ => d ≠ None
                      end) hs dests ->
  forall cells cells',
    length cells = length cells' ->
    (forall i path, hs !! i = Some (holderByFieldIndexPath path) ->
                    cells !! i = cells' !! i) ->
    agreeOnBound dests cells cells'.
Proof.
  induction 1 as [|s d hs dests Hsd _ IH]; intros cells cells' Hlen Hsame.
  - apply agree_none.
  - destruct cells as [|c cells], cells' as [|c' cells']; try discriminate.
    + apply agree_done.
    + injection Hlen as Hlen.
      assert (Hrest : agreeOnBound dests cells cells').
      { apply IH; [exact Hlen|]. intros i path Hi. exact (Hsame (S i) path Hi). }
      destruct s as [path|].
      * specialize (Hsame 0 path eq_refl). injection Hsame as <-.
        apply agree_same. exact Hrest.
      * subst d. apply agree_skip. exact Hrest.
Qed.

(** The element of a row does not depend on the cells of the columns that
    are bound to no field: two rows of the same length that agree on the
    cells of the bound columns give the same element, or the same failure. *)
Theorem discarded_cells_do_not_matter convertAssign hs provider cells cells' :
  length cells = length cells' ->
  (forall i path, hs !! i = Some (holderByFieldIndexPath path) ->
                  cells !! i = cells' !! i) ->
  multiColumnElement convertAssign hs provider cells =
  multiColumnElement convertAssign hs provider cells'.
Proof.
  intros Hlen Hsame. unfold multiColumnElement.
  destruct (runProvider provider) as [holderElement|e| |]; try reflexivity.
  cbn [mbind outcome_bind].
  destruct (unwrapPtrStructValue _ holderElement) as [[[t v] levels]|e| |];
    try reflexivity.
  cbn [mbind outcome_bind].
  destruct (supplyAll t v hs) as [dests|e| |] eqn:Hdests; try reflexivity.
  cbn [mbind outcome_bind]. unfold scanRow. rewrite <- Hlen.
  destruct (bool_decide (length dests = length cells)); [|reflexivity].
  rewrite (scanCells_agree convertAssign dests cells cells'); [reflexivity|].
  apply (agreeOnBound_suppliers hs); [|assumption..].
  exact (supplyAll_shape _ _ _ _ Hdests).
Qed.

Lemma discarded_cells_do_not_matter_witness :
  multiColumnElement sampleConvertAssign
    [holderByFieldIndexPath [0]; holderSkipColumn] (Provider valStruct 0 [])
    [sql.Int64Value 1; sql.StringValue "a"] =
  multiColumnElement sampleConvertAssign
    [holderByFieldIndexPath [0]; holderSkipColumn] (Provider valStruct 0 [])
    [sql.Int64Value 1; sql.Null].
Proof.
  apply discarded_cells_do_not_matter; [reflexivity|].
  intros [|[|i]] path Hi; [reflexivity | discriminate | discriminate].
Defined.

(** ** The states the package reaches *)

(** The states of the package: the one its declarations and [init] set up,
    and those the exported functions lead to. *)
Inductive reachable : state -> Prop :=
| reachable_init : reachable initialState
| reachable_StrictColumnTypeCheck strict st :
    reachable st -> reachable (StrictColumnTypeCheck strict st)
| reachable_StrictColumnAmountCheck strict st :
    reachable st -> reachable (StrictColumnAmountCheck strict st)
| reachable_SmallestStructDecomposition t st :
    reachable st -> reachable (SmallestStructDecomposition t st)
| reachable_Propagate convertAssign st dst rows :
    reachable st -> reachable (stateAfter (Propagate convertAssign st dst rows)).

(** The destinations a mapper passes to [rows.Scan]. *)
Definition destinations (m : rowsMapper) : nat :=
  match m with
  | singleColumnRows _ => 1
  | multiColumnRows holderSuppliers _ => length holderSuppliers
  end.

Lemma createHolderSuppliers_length camtChk ctChk t cols hs :
  createHolderSuppliers camtChk ctChk t cols = Ok hs -> length hs = length cols.
Proof.
  unfold createHolderSuppliers.
  destruct (createFieldsAccessors t) as [[m h]|e| |]; try discriminate.
  cbn [mbind outcome_bind]. intros Hrun.
  rewrite (holderSuppliersLoop_Ok _ _ _ _ _ _ _ Hrun). simpl.
  apply length_map.
Qed.

Lemma reachable_wellFormed st : reachable st -> wellFormed st.
Proof.
  induction 1 as [|strict st _ IH|strict st _ IH|t st _ IH|conv st dst rows _ IH].
  - exact wellFormed_initialState.
  - exact IH.
  - exact IH.
  - exact IH.
  - apply Propagate_wellFormed. exact IH.
Qed.

(** The scan definition a call gets has the columns of the stream. *)
Lemma scanDefinitionsGetOrCreateSync_columns st t cols d st' :
  scanDefinitionsGetOrCreateSync st t cols = (Ok d, st') ->
  columnTypes d = cols /\ d ∈ cachedFor st' t.
Proof.
  rewrite scanDefinitionsGetOrCreateSync_unfold.
  destruct (find (scanDefinitionsMgr st) t cols) as [d0|] eqn:Hfind.
  - intros [= <- <-]. destruct (find_cached _ _ _ _ Hfind). split; assumption.
  - intros Hcreate. destruct (create_cached _ _ _ _ _ Hcreate) as (Hc & Hthis & _).
    split; [exact Hc|]. rewrite Hthis, elem_of_app, list_elem_of_singleton. auto.
Qed.

Section LoopFailure.

Variable row : Rows -> outcome value.
Variable element : list sql.driverValue -> outcome value.
Hypothesis row_element : forall rs cells,
  closed rs = false -> lastcols rs = Some cells -> row rs = element cells.

(** An error of the loop over the rows is the error of the element of one
    of the rows. *)
Lemma forRowsNext_Fail sliceElem valueType fuel :
  forall rs elements e elements' rs',
    forRowsNext fuel row sliceElem valueType rs elements = (Fail e, elements', rs') ->
    exists cells, cells ∈ pending rs /\ element cells = Fail e.
Proof.
  induction fuel as [|fuel IH]; intros rs elements e elements' rs' Hrun;
    simpl in Hrun; [discriminate|].
  unfold Next in Hrun. destruct (closed rs) eqn:Hclosed; [discriminate|].
  destruct (pending rs) as [|cells rest] eqn:Hpend; [discriminate|].
  cbn [fst snd] in Hrun. rewrite (row_element _ cells) in Hrun by reflexivity.
  destruct (element cells) as [v|e0| |] eqn:Hel; try discriminate.
  - unfold inject in Hrun. destruct (bool_decide (valueType = sliceElem));
      [|discriminate].
    destruct (IH _ _ _ _ _ Hrun) as (cells' & Hin & Hfail).
    exists cells'. split; [right; exact Hin | exact Hfail].
  - injection Hrun as <- _ _. exists cells. split; [left | exact Hel].
Qed.

End LoopFailure.

Lemma supplyAll_length t underlyingValue hs : forall dests,
  supplyAll t underlyingValue hs = Ok dests -> length dests = length hs.
Proof.
  induction hs as [|s hs IH]; intros dests Hrun; simpl in Hrun.
  - injection Hrun as <-. reflexivity.
  - destruct (supply t underlyingValue s) as [d|e| |]; try discriminate.
    simpl in Hrun.
    destruct (supplyAll t underlyingValue hs) as [ds|e| |]; try discriminate.
    simpl in Hrun. injection Hrun as <-. simpl. rewrite (IH ds eq_refl). reflexivity.
Qed.

Lemma AddrTimes_no_Fail n : forall v canAddr e, AddrTimes n v canAddr ≠ Fail e.
Proof.
  induction n as [|n IH]; intros v canAddr e; simpl; [discriminate|].
  destruct canAddr; [apply IH | discriminate].
Qed.

(** A provider returns an instance or panics: the error its callers check
    for is never returned. *)
Lemma runProvider_no_Fail : forall p e, runProvider p ≠ Fail e.
Proof.
  fix IH 1. intros [actualType ptrDepth acts] e. cbn [runProvider].
  assert (Hacts : forall holderValue e',
            runInitActions runProvider actualType acts holderValue ≠ Fail e').
  { induction acts as [|[[idx ptrNesting] provider] acts IHacts];
      intros holderValue e'; cbn [runInitActions]; [discriminate|].
    destruct (runProvider provider) as [v|e0| |] eqn:Hp;
      cbn [mbind outcome_bind]; try discriminate.
    - destruct (AddrTimes ptrNesting v (providesAddressable provider))
        as [v'|e0| |] eqn:Ha; cbn [mbind outcome_bind]; try discriminate.
      + unfold SetField.
        destruct holderValue as [| | | |vs]; cbn [mbind outcome_bind];
          try discriminate.
        destruct (fieldsOf actualType !! idx) as [field|];
          cbn [mbind outcome_bind]; try discriminate.
        destruct (isExported field); cbn [mbind outcome_bind];
          [apply IHacts | discriminate].
      + destruct (AddrTimes_no_Fail _ _ _ _ Ha).
    - destruct (IH provider e0 Hp). }
  destruct (runInitActions runProvider actualType acts (zeroValue actualType))
    as [v|e0| |] eqn:Hrun; cbn [mbind outcome_bind]; try discriminate.
  - apply AddrTimes_no_Fail.
  - destruct (Hacts _ _ Hrun).
Qed.

Lemma FieldByIndex_loop_no_Fail index : forall t v first sticky ro e,
  FieldByIndex_loop t v index first sticky ro ≠ Fail e.
Proof.
  induction index as [|x rest IH]; intros t v first sticky ro e;
    cbn [FieldByIndex_loop]; [discriminate|].
  assert (Hstep : forall t' v',
    match t', v' with
    | StructOf _ _ fields, VStruct vs =>
        match fields !! x, vs !! x with
        | Some field, Some fv =>
            FieldByIndex_loop (Typ field) fv rest false
              (sticky || (negb (isExported field) && negb (Anonymous field)))
              (negb (isExported field))
        | _, _ => Panic
        end
    | _, _ => Panic
    end ≠ Fail e).
  { intros t' v'. destruct t' as [k|el|el|nm sc fields]; try discriminate.
    destruct v' as [| | | |vs]; try discriminate.
    destruct (fields !! x) as [field|]; [|discriminate].
    destruct (vs !! x) as [fv|]; [apply IH | discriminate]. }
  destruct first; cbn [mbind outcome_bind]; [exact (Hstep t v)|].
  destruct t as [k|[k|el|el|nm sc fields]|el|nm sc fields];
    cbn [mbind outcome_bind]; try discriminate.
  - destruct v as [| | |pointee|vs]; cbn [mbind outcome_bind]; try discriminate.
    exact (Hstep (StructOf nm sc fields) pointee).
  - exact (Hstep (StructOf nm sc fields) v).
Qed.

Lemma supplyAll_no_Fail t underlyingValue hs : forall e,
  supplyAll t underlyingValue hs ≠ Fail e.
Proof.
  induction hs as [|s hs IH]; intros e; simpl; [discriminate|].
  destruct (supply t underlyingValue s) as [d|e0| |] eqn:Hs;
    cbn [mbind outcome_bind]; try discriminate.
  - destruct (supplyAll t underlyingValue hs) as [ds|e0| |] eqn:Hds;
      cbn [mbind outcome_bind]; try discriminate.
    destruct (IH e0 eq_refl).
  - destruct s as [path|]; simpl in Hs; [|discriminate].
    destruct (FieldByIndex_loop t underlyingValue path true false false)
      as [[ft ro]|e1| |] eqn:Hf; simpl in Hs; try discriminate.
    + destruct ro; discriminate.
    + destruct (FieldByIndex_loop_no_Fail _ _ _ _ _ _ _ Hf).
Qed.

Lemma forRowsNext_Ok_end row sliceElem valueType fuel :
  forall rs elements elements' rs',
    closed rs = false ->
    forRowsNext fuel row sliceElem valueType rs elements = (Ok (), elements', rs') ->
    lasterr rs' = driverErr rs /\ closeErr rs' = closeErr rs /\ closed rs' = true.
Proof.
  induction fuel as [|fuel IH]; intros rs elements elements' rs' Hclosed Hrun;
    simpl in Hrun; [discriminate|].
  unfold Next in Hrun. rewrite Hclosed in Hrun.
  destruct (pending rs) as [|cells rest].
  { unfold Close in Hrun. cbn [closed snd] in Hrun. injection Hrun as _ <-.
    repeat split. }
  cbn [fst snd] in Hrun. destruct (row _) as [v|e| |]; try discriminate.
  unfold inject in Hrun. destruct (bool_decide (valueType = sliceElem));
    [|discriminate].
  apply (IH _ _ _ _ (eq_refl : closed (mkRows (columns rs) rest (driverErr rs)
                                         (closeErr rs) (Some cells) None false) = false)
           Hrun).
Qed.

(** Where an error of a mapper comes from: the holder, the stream, or the
    element of one of the rows. *)
Lemma runMapper_Fail convertAssign m dst rows e dst' rows' :
  closed rows = false ->
  runMapper convertAssign m dst rows = (Fail e, dst', rows') ->
  prepareInjector (holderType dst) = Fail e \/
  Some e = driverErr rows \/
  exists cells, cells ∈ pending rows /\ elementOf convertAssign m cells = Fail e.
Proof.
  intros Hclosed. destruct dst as [ty elements].
  destruct m as [forType|hs p]; unfold runMapper, runSingleColumn, runMultiColumn;
    cbn [holderType holderElements elementOf].
  - destruct (prepareInjector ty) as [sliceElem|e0| |] eqn:Hinj; try discriminate.
    2: { intros [= <- _ _]. left. reflexivity. }
    destruct (forRowsNext _ _ _ _ _ _) as [[r0 elements0] rs0] eqn:Hloop.
    destruct r0 as [[]|e0| |]; try discriminate.
    + destruct (forRowsNext_Ok_end _ _ _ _ _ _ _ _ Hclosed Hloop) as (Hl & Hc & Hcl).
      unfold Err, Close. rewrite Hl, Hcl.
      destruct (driverErr rows) as [e1|]; [intros [= <- _ _]; auto|].
      discriminate.
    + intros [= <- _ _]. right. right.
      exact (forRowsNext_Fail _ _ (singleColumnRow_element convertAssign forType)
               _ _ _ _ _ _ _ _ Hloop).
  - destruct (prepareInjector ty) as [sliceElem|e0| |] eqn:Hinj; try discriminate.
    2: { intros [= <- _ _]. left. reflexivity. }
    destruct (forRowsNext _ _ _ _ _ _) as [[r0 elements0] rs0] eqn:Hloop.
    destruct r0 as [[]|e0| |]; try discriminate.
    + destruct (forRowsNext_Ok_end _ _ _ _ _ _ _ _ Hclosed Hloop) as (Hl & Hc & Hcl).
      unfold Err. rewrite Hl.
      destruct (driverErr rows) as [e1|]; [intros [= <- _ _]; auto | discriminate].
    + intros [= <- _ _]. right. right.
      exact (forRowsNext_Fail _ _ (multiColumnRow_element convertAssign hs p)
               _ _ _ _ _ _ _ _ Hloop).
Qed.

(** ** The errors of Propagate *)

(** A provider as [getOrCreate] makes it: of a struct type, for the type
    that is the struct behind as many pointers as the provider adds. *)
Definition structured (t : type) (p : structProvider) : Prop :=
  match p with
  | Provider (StructOf nm sc fs) ptrDepth _ =>
      t = PtrToTimes ptrDepth (StructOf nm sc fs)
  | _ => False
  end.

(** What holds of the caches of every state the package reaches, besides
    their being well formed: the providers are as [getOrCreate] makes them,
    and a scan definition that maps records has a supplier for each of its
    columns. *)
Definition sound (st : state) : Prop :=
  cacheHolds structured (structProviderMgr st) /\
  forall t d holderSuppliers provider,
    d ∈ cachedFor st t ->
    mapper d = multiColumnRows holderSuppliers provider ->
    structured t provider /\
    length holderSuppliers = length (columnTypes d).

Lemma structured_new reg k nm sc fields acts :
  actionsFor reg structured fields 0 acts ->
  structured (PtrToTimes k (StructOf nm sc fields))
    (Provider (StructOf nm sc fields) k acts).
Proof. intros _. reflexivity. Qed.

Lemma getOrCreateSync_structured reg tsp t :
  structRooted t -> cacheHolds structured tsp ->
  exists p tsp',
    getOrCreateSync reg tsp t = (Ok p, tsp') /\ structured t p /\
    cacheHolds structured tsp'.
Proof.
  intros Hroot Hc. unfold getOrCreateSync.
  destruct (providerOf tsp t) as [p|] eqn:Hp.
  - exists p, tsp. split; [reflexivity|]. split; [exact (Hc t p Hp) | exact Hc].
  - exact (getOrCreate_builds reg structured (structured_new reg) t Hroot tsp Hc).
Qed.

Lemma create_sound st t cols r st' :
  sound st -> create st t cols = (r, st') -> sound st'.
Proof.
  intros [Hprov Hplans]. unfold create, createRowsMapper, multiColumnMapper.
  destruct (isSingleBasicType (smallestStructDecompositions st) t).
  { intros [= <- <-]. split; [exact Hprov|]. intros t' d hs p.
    unfold cachedFor. cbn [scanDefinitionsMgr]. rewrite scanDefinitionsOf_cons.
    destruct (decide (t = t')) as [<-|Hne]; [|apply Hplans].
    cbn [default from_option id]. fold (cachedFor st t).
    rewrite elem_of_app, list_elem_of_singleton.
    intros [Hold| ->]; [apply Hplans; exact Hold | discriminate]. }
  destruct (createHolderSuppliers _ _ t cols) as [hs0|e| |] eqn:Hhs;
    try (intros [= <- <-]; split; [exact Hprov | exact Hplans]).
  destruct (getOrCreateSync_structured (smallestStructDecompositions st)
              (structProviderMgr st) t (createHolderSuppliers_rooted _ _ _ _ _ Hhs) Hprov)
    as (p0 & tsp' & Hrun & Hshape & Hprov').
  rewrite Hrun. intros [= <- <-]. split; [exact Hprov'|]. intros t' d hs p.
  unfold cachedFor. cbn [scanDefinitionsMgr]. rewrite scanDefinitionsOf_cons.
  destruct (decide (t = t')) as [<-|Hne]; [|apply Hplans].
  cbn [default from_option id]. fold (cachedFor st t).
  rewrite elem_of_app, list_elem_of_singleton.
  intros [Hold| ->]; [apply Hplans; exact Hold|].
  cbn [mapper columnTypes]. intros [= <- <-].
  split; [exact Hshape | exact (createHolderSuppliers_length _ _ _ _ _ Hhs)].
Qed.

Lemma scanDefinitionsGetOrCreateSync_sound st t cols r st' :
  sound st -> scanDefinitionsGetOrCreateSync st t cols = (r, st') -> sound st'.
Proof.
  intros Hs. rewrite scanDefinitionsGetOrCreateSync_unfold.
  destruct (find (scanDefinitionsMgr st) t cols).
  - intros [= _ <-]. exact Hs.
  - apply create_sound. exact Hs.
Qed.

Lemma Propagate_sound convertAssign st dst rows :
  sound st -> sound (stateAfter (Propagate convertAssign st dst rows)).
Proof.
  intros Hinv. unfold Propagate.
  destruct (ColumnTypes rows) as [cols|e| |]; try exact Hinv.
  destruct (holderType dst) as [k|[k|e|e|nm sc fs]|e|nm sc fs]; try exact Hinv.
  destruct (elementType (SliceOf e)) as [et|err| |]; try exact Hinv.
  destruct (scanDefinitionsGetOrCreateSync st et cols) as [r st'] eqn:Hplan.
  pose proof (scanDefinitionsGetOrCreateSync_sound _ _ _ _ _ Hinv Hplan) as Hinv'.
  destruct r as [d|err| |]; try exact Hinv'.
  destruct (runMapper convertAssign (mapper d) dst rows) as [[r' dst'] rows'].
  exact Hinv'.
Qed.

Lemma reachable_sound st : reachable st -> sound st.
Proof.
  induction 1 as [|strict st _ IH|strict st _ IH|t st _ IH|conv st dst rows _ IH].
  - split; [apply cacheHolds_nil|]. intros t d hs p Hin.
    apply elem_of_nil in Hin. contradiction.
  - exact IH.
  - exact IH.
  - exact IH.
  - apply Propagate_sound. exact IH.
Qed.

(** The errors of the strictness checks. *)
Lemma holderSuppliersLoop_Fail camtChk ctChk (m : gmap string fieldAccessor) h cols :
  forall acc e,
    holderSuppliersLoop camtChk ctChk m h cols acc = Fail e ->
    (camtChk = true /\ exists c, c ∈ cols /\ e = ErrNoMapping (sql.name c)) \/
    (ctChk = true /\
     exists c ft, c ∈ cols /\ e = ErrTypeCheck (sql.name c) ft (sql.scanType c) /\
                  sql.scanType c ≠ ft).
Proof.
  induction cols as [|c cols IH]; intros acc e; simpl; [discriminate|].
  assert (Hrest : forall acc',
    holderSuppliersLoop camtChk ctChk m h cols acc' = Fail e ->
    (camtChk = true /\ exists c0, c0 ∈ c :: cols /\ e = ErrNoMapping (sql.name c0)) \/
    (ctChk = true /\
     exists c0 ft, c0 ∈ c :: cols /\
                   e = ErrTypeCheck (sql.name c0) ft (sql.scanType c0) /\
                   sql.scanType c0 ≠ ft)).
  { intros acc' Hrun.
    destruct (IH _ _ Hrun) as [(Ha & c0 & Hin & He)|(Ht & c0 & ft & Hin & He & Hne)].
    - left. split; [exact Ha|]. exists c0. split; [right; exact Hin | exact He].
    - right. split; [exact Ht|]. exists c0, ft.
      split; [right; exact Hin | split; assumption]. }
  destruct (m !! ToLower (sql.name c)) as [a|].
  - destruct ctChk; simpl; [|apply Hrest].
    destruct (bool_decide (sql.scanType c = fieldType a)) eqn:Hty; simpl;
      [apply Hrest|].
    intros [= <-]. right. split; [reflexivity|]. exists c, (fieldType a).
    apply bool_decide_eq_false in Hty. split; [left | split; [reflexivity | exact Hty]].
  - destruct camtChk; [|apply Hrest].
    intros [= <-]. left. split; [reflexivity|]. exists c. split; [left | reflexivity].
Qed.

Lemma createFieldsAccessors_no_Fail t e : createFieldsAccessors t ≠ Fail e.
Proof.
  intros Hrun. unfold createFieldsAccessors in Hrun.
  assert (Hroot : structRooted t).
  { destruct (snd (stripPtr t)) as [k|el|el|nm sc fs] eqn:Hbase;
      [| | |eexists _, _, _; exact Hbase];
      rewrite createFieldsAccessorsRecursively_Hang in Hrun;
      solve [discriminate
            |intros (a & b & c & Habs); rewrite Hbase in Habs; discriminate]. }
  destruct (createFieldsAccessors_resolved t Hroot) as (m & h & Hok & _).
  unfold createFieldsAccessors in Hok. congruence.
Qed.

Lemma elementType_loop_Fail dstType inspection e :
  elementType_loop dstType inspection = Fail e -> e = ErrUnsupportedType dstType.
Proof.
  induction inspection as [k|el _|el IH|nm sc fs _] using type_fields_ind; simpl.
  - destruct k; try discriminate; intros [= <-]; reflexivity.
  - discriminate.
  - destruct (bool_decide (Kind el = reflect.Uint8)); [discriminate | exact IH].
  - discriminate.
Qed.

Lemma scanCells_Fail convertAssign dests : forall cells i root overwritten e,
  scanCells convertAssign dests cells i root overwritten = Fail e ->
  exists column, e = ErrScan column.
Proof.
  induction dests as [|[[p t]|] dests IH]; intros cells i root ow e;
    destruct cells as [|sv cells]; simpl; try discriminate.
  - destruct (convertAssign t sv); [|intros [= <-]; eauto].
    destruct (detached ow p); apply IH.
  - apply IH.
Qed.

Lemma wrapPtr_VPtr n v : wrapPtr n (VPtr v) = VPtr (wrapPtr n v).
Proof. induction n as [|n IH]; simpl; congruence. Qed.

Lemma AddrTimes_Ok n : forall v canAddr v',
  AddrTimes n v canAddr = Ok v' -> v' = wrapPtr n v.
Proof.
  induction n as [|n IH]; intros v canAddr v'; simpl.
  - intros [= <-]. reflexivity.
  - destruct canAddr; [|discriminate]. intros H. rewrite (IH _ _ _ H).
    apply wrapPtr_VPtr.
Qed.

(** What the element of a row fails with. *)
Definition scanFailure (m : rowsMapper) (cells : list sql.driverValue)
    (e : error) : Prop :=
  match e with
  | ErrScan _ => True
  | ErrScanArity expected got =>
      expected = length cells /\ got = destinations m /\ expected ≠ got
  | _ => False
  end.

Lemma scanRow_Fail convertAssign dests root cells e :
  scanRow convertAssign dests root cells = Fail e ->
  match e with
  | ErrScan _ => True
  | ErrScanArity expected got =>
      expected = length cells /\ got = length dests /\ expected ≠ got
  | _ => False
  end.
Proof.
  unfold scanRow. destruct (bool_decide (length dests = length cells)) eqn:Hlen.
  - intros Hrun. destruct (scanCells_Fail _ _ _ _ _ _ _ Hrun) as (column & ->).
    exact I.
  - intros [= <-]. apply bool_decide_eq_false in Hlen. auto.
Qed.

Lemma elementOf_Fail convertAssign t m cells e :
  match m with
  | singleColumnRows _ => True
  | multiColumnRows _ provider => structured t provider
  end ->
  elementOf convertAssign m cells = Fail e -> scanFailure m cells e.
Proof.
  destruct m as [forType|hs p]; simpl.
  - intros _. unfold singleColumnElement. apply scanRow_Fail.
  - intros Hshape. unfold multiColumnElement.
    destruct p as [[k|el|el|nm sc fs] ptrDepth acts]; try contradiction.
    destruct (runProvider (Provider (StructOf nm sc fs) ptrDepth acts))
      as [holderElement|e0| |] eqn:Hp; try discriminate.
    2: { destruct (runProvider_no_Fail _ _ Hp). }
    cbn [mbind outcome_bind].
    assert (Hwrapped : exists hv, holderElement = wrapPtr ptrDepth hv).
    { cbn [runProvider] in Hp.
      destruct (runInitActions runProvider _ acts _) as [hv|e0| |];
        cbn [mbind outcome_bind] in Hp; try discriminate.
      exists hv. exact (AddrTimes_Ok _ _ _ _ Hp). }
    destruct Hwrapped as (hv & ->). unfold unwrapPtrStructValue. cbn [providedType].
    rewrite unwrapPtrStructValue_loop_wrapPtr. cbn [mbind outcome_bind].
    destruct (supplyAll (StructOf nm sc fs) hv hs) as [dests|e0| |] eqn:Hdests;
      try discriminate.
    2: { destruct (supplyAll_no_Fail _ _ _ _ Hdests). }
    cbn [mbind outcome_bind].
    destruct (scanRow convertAssign dests hv cells) as [scanned|e0| |] eqn:Hscan;
      try discriminate.
    cbn [mbind outcome_bind]. intros [= ->].
    pose proof (scanRow_Fail _ _ _ _ _ Hscan) as Hfail.
    rewrite (supplyAll_length _ _ _ _ Hdests) in Hfail. exact Hfail.
Qed.

(** The errors of the stream are its own. *)
Definition ownErrors (rows : Rows) : Prop :=
  forall e, driverErr rows = Some e -> exists msg, e = ErrDriver msg.

(** Where an error that Propagate returns comes from. *)
Definition reported (st : state) (dst : holder) (rows : Rows) (e : error) : Prop :=
  match e with
  | ErrDriver _ =>
      (closed rows = true /\ e = errRowsClosed) \/ driverErr rows = Some e
  | ErrPointerToSliceExpected received =>
      received = holderType dst /\ forall E, holderType dst ≠ PtrTo (SliceOf E)
  | ErrUnsupportedType t => holderType dst = PtrTo t
  | ErrTypeCheck column ft scanType' =>
      columnTypeCheck st = true /\
      exists c, c ∈ columns rows /\ column = sql.name c /\
                scanType' = sql.scanType c /\ scanType' ≠ ft
  | ErrNoMapping column =>
      columnAmountCheck st = true /\
      exists c, c ∈ columns rows /\ column = sql.name c
  | ErrScanArity expected got =>
      expected ≠ got /\ (got = 1 \/ got = length (columns rows)) /\
      exists cells, cells ∈ pending rows /\ expected = length cells
  | ErrScan _ => pending rows ≠ []
  | ErrNotStruct _ => False
  | ErrHolderNotImplemented => False
  end.

Lemma create_Fail st t cols e st' :
  sound st -> create st t cols = (Fail e, st') ->
  (columnAmountCheck st = true /\ exists c, c ∈ cols /\ e = ErrNoMapping (sql.name c)) \/
  (columnTypeCheck st = true /\
   exists c ft, c ∈ cols /\ e = ErrTypeCheck (sql.name c) ft (sql.scanType c) /\
                sql.scanType c ≠ ft).
Proof.
  intros [Hprov _]. unfold create, createRowsMapper, multiColumnMapper.
  destruct (isSingleBasicType (smallestStructDecompositions st) t); [discriminate|].
  destruct (createHolderSuppliers _ _ t cols) as [hs0|e0| |] eqn:Hhs; try discriminate.
  - destruct (getOrCreateSync_structured (smallestStructDecompositions st)
                (structProviderMgr st) t (createHolderSuppliers_rooted _ _ _ _ _ Hhs) Hprov)
      as (p0 & tsp' & Hrun & _). rewrite Hrun. discriminate.
  - intros [= <- _]. unfold createHolderSuppliers in Hhs.
    destruct (createFieldsAccessors t) as [[m h]|e1| |] eqn:Hacc;
      cbn [mbind outcome_bind] in Hhs; try discriminate.
    + exact (holderSuppliersLoop_Fail _ _ _ _ _ _ _ Hhs).
    + destruct (createFieldsAccessors_no_Fail _ _ Hacc).
Qed.

(** The errors Propagate returns in the states the package reaches, for a
    stream whose errors are its own: that the stream is closed, that the
    destination is no pointer to a slice, that the slice has an unsupported
    element type, an error of a strictness check that is on, for a column of
    the stream, the error of the stream, and a scan error of a row; the
    number of destinations is refused for a row that has another number of
    cells than the one destination of a single basic type, or than the
    columns of the stream.  The errors of [unwrapPtrStructType],
    [unwrapPtrStructValue] and [prepareInjector] are never returned. *)
Theorem propagate_reports_these_errors convertAssign st dst rows e :
  reachable st -> ownErrors rows ->
  result (Propagate convertAssign st dst rows) = Fail e ->
  reported st dst rows e.
Proof.
  intros Hreach Hown. pose proof (reachable_sound st Hreach) as Hsound.
  unfold Propagate, ColumnTypes.
  destruct (closed rows) eqn:Hclosed.
  { intros [= <-]. left. split; [exact Hclosed | reflexivity]. }
  destruct (holderType dst) as [k|[k|E|E|nm sc fs]|E|nm sc fs] eqn:Hty;
    try (intros [= <-]; cbn [reported]; rewrite Hty;
         split; [reflexivity | intros E'; discriminate]).
  destruct (elementType (SliceOf E)) as [et|err| |] eqn:Helem; try discriminate.
  2: { intros [= <-]. rewrite (elementType_loop_Fail _ _ _ Helem).
       cbn [reported]. exact Hty. }
  destruct (scanDefinitionsGetOrCreateSync st et (columns rows))
    as [[d|err| |] st'] eqn:Hplan; try discriminate.
  2: { intros [= <-]. rewrite scanDefinitionsGetOrCreateSync_unfold in Hplan.
       destruct (find (scanDefinitionsMgr st) et (columns rows)); [discriminate|].
       destruct (create_Fail _ _ _ _ _ Hsound Hplan)
         as [(Ha & c & Hin & ->)|(Ht & c & ft & Hin & -> & Hne)]; cbn [reported].
       - split; [exact Ha|]. exists c. split; [exact Hin | reflexivity].
       - split; [exact Ht|]. exists c.
         split; [exact Hin | split; [reflexivity | split; [reflexivity | exact Hne]]]. }
  destruct (runMapper convertAssign (mapper d) dst rows) as [[r dst'] rows'] eqn:Hrun.
  cbn [result]. intros ->.
  destruct (runMapper_Fail _ _ _ _ _ _ _ Hclosed Hrun)
    as [Hinj|[Hdriver|(cells & Hin & Hel)]].
  - rewrite Hty in Hinj. discriminate.
  - destruct (Hown e (eq_sym Hdriver)) as (msg & ->). right. symmetry. exact Hdriver.
  - pose proof (scanDefinitionsGetOrCreateSync_sound _ _ _ _ _ Hsound Hplan)
      as [_ Hplans].
    destruct (scanDefinitionsGetOrCreateSync_columns _ _ _ _ _ Hplan) as [Hcols Hcached].
    assert (Hfail : scanFailure (mapper d) cells e).
    { apply (elementOf_Fail convertAssign et); [|exact Hel].
      destruct (mapper d) as [forType|hs p] eqn:Hm; [exact I|].
      exact (proj1 (Hplans et d hs p Hcached Hm)). }
    destruct e; try contradiction; cbn [scanFailure reported] in *.
    + destruct Hfail as (-> & -> & Hne). split; [exact Hne|]. split.
      * destruct (mapper d) as [forType|hs p] eqn:Hm; [left; reflexivity|].
        right. simpl. rewrite <- Hcols. exact (proj2 (Hplans et d hs p Hcached Hm)).
      * exists cells. split; [exact Hin | reflexivity].
    + intros Hnil. rewrite Hnil in Hin. apply elem_of_nil in Hin. exact Hin.
Qed.

Lemma propagate_reports_these_errors_witness :
  reported (StrictColumnAmountCheck true initialState)
    (mkHolder (PtrTo (SliceOf valStruct)) []) unmatched (ErrNoMapping "zzz").
Proof.
  apply (propagate_reports_these_errors sampleConvertAssign).
  - apply reachable_StrictColumnAmountCheck, reachable_init.
  - intros e. discriminate.
  - vm_compute. reflexivity.
Defined.

(** A struct provider returns an instance or panics: it never returns an
    error and always ends, so the error its callers check for after
    [provider()] is never there. *)
Theorem provider_returns_or_panics : forall p,
  (exists v, runProvider p = Ok v) \/ runProvider p = Panic.
Proof.
  fix IH 1. intros [actualType ptrDepth acts]. cbn [runProvider].
  assert (Haddr : forall n v canAddr,
            (exists v', AddrTimes n v canAddr = Ok v') \/
            AddrTimes n v canAddr = Panic).
  { induction n as [|n IHn]; intros v canAddr; simpl; [left; eauto|].
    destruct canAddr; [apply IHn | right; reflexivity]. }
  assert (Hacts : forall holderValue,
            (exists v, runInitActions runProvider actualType acts holderValue = Ok v) \/
            runInitActions runProvider actualType acts holderValue = Panic).
  { induction acts as [|[[idx ptrNesting] provider] acts IHacts];
      intros holderValue; cbn [runInitActions]; [left; eauto|].
    destruct (IH provider) as [(v & ->)| ->]; cbn [mbind outcome_bind];
      [|right; reflexivity].
    destruct (Haddr ptrNesting v (providesAddressable provider)) as [(v' & ->)| ->];
      cbn [mbind outcome_bind]; [|right; reflexivity].
    unfold SetField.
    destruct holderValue as [| | | |vs]; cbn [mbind outcome_bind];
      try (right; reflexivity).
    destruct (fieldsOf actualType !! idx) as [field|];
      cbn [mbind outcome_bind]; [|right; reflexivity].
    destruct (isExported field); cbn [mbind outcome_bind];
      [apply IHacts | right; reflexivity]. }
  destruct (Hacts (zeroValue actualType)) as [(v & ->)| ->];
    cbn [mbind outcome_bind]; [apply Haddr | right; reflexivity].
Qed.

(** ** The provider cache as a cache *)

(** The providers of a cache are those of another. *)
Definition extends (tsp tsp' : providers) : Prop :=
  forall t q, providerOf tsp t = Some q -> providerOf tsp' t = Some q.

Lemma extends_refl tsp : extends tsp tsp.
Proof. intros t q H. exact H. Qed.

Lemma extends_trans a b c : extends a b -> extends b c -> extends a c.
Proof. intros Hab Hbc t q H. apply Hbc, Hab, H. Qed.

Section ProviderCache.

Variable reg : list type.

(** [rec] keeps the providers of the cache, and caches the one it returns. *)
Definition caches (rec : providers -> type -> outcome structProvider * providers)
    (t : type) : Prop :=
  forall tsp r tsp',
    rec tsp t = (r, tsp') ->
    extends tsp tsp' /\ forall p, r = Ok p -> providerOf tsp' t = Some p.

Lemma determineField_extends rec tsp ft n r tsp' :
  (nonLeaf reg ft = true -> caches rec (snd (stripPtr ft))) ->
  determineField reg rec tsp ft n = (r, tsp') -> extends tsp tsp'.
Proof.
  intros Hrec. destruct (nonLeaf reg ft) eqn:Hleaf.
  - rewrite determineField_nonLeaf by exact Hleaf.
    destruct (rec tsp (snd (stripPtr ft))) as [r0 tsp0] eqn:Hrun.
    destruct (Hrec eq_refl _ _ _ Hrun) as [Hext _].
    destruct r0; intros [= _ <-]; exact Hext.
  - rewrite determineField_leaf by exact Hleaf. intros [= _ <-]. apply extends_refl.
Qed.

Lemma initActionsOfFields_extends rec fields :
  Forall (fun f => nonLeaf reg (Typ f) = true ->
                   caches rec (snd (stripPtr (Typ f)))) fields ->
  forall i tsp acts r tsp',
    initActionsOfFields reg rec fields i tsp acts = (r, tsp') -> extends tsp tsp'.
Proof.
  induction 1 as [|f rest Hf _ IH]; intros i tsp acts r tsp'.
  - intros [= _ <-]. apply extends_refl.
  - rewrite initActionsOfFields_cons.
    destruct (determineField reg rec tsp (Typ f) 0) as [r0 tsp0] eqn:Hfield.
    pose proof (determineField_extends _ _ _ _ _ _ Hf Hfield) as Hext.
    destruct r0 as [[[ptrNesting provider]|]|e| |];
      try (intros [= _ <-]; exact Hext);
      intros Hrest; exact (extends_trans _ _ _ Hext (IH _ _ _ _ _ Hrest)).
Qed.

(** [createProvider] at a type under [forType], which has no provider yet. *)
Definition creating (t : type) : Prop :=
  forall forType levels tsp r tsp',
    providerOf tsp forType = None ->
    createProvider reg (getOrCreate reg) tsp forType t levels = (r, tsp') ->
    extends tsp tsp' /\ forall p, r = Ok p -> providerOf tsp' forType = Some p.

Lemma creating_caches t : creating t -> caches (getOrCreate reg) t.
Proof.
  intros Hcreating tsp r tsp'.
  assert (Hunfold : getOrCreate reg tsp t =
            match providerOf tsp t with
            | Some provider => (Ok provider, tsp)
            | None => createProvider reg (getOrCreate reg) tsp t t 0
            end) by (destruct t; reflexivity).
  rewrite Hunfold. destruct (providerOf tsp t) as [p|] eqn:Hp.
  - intros [= <- <-]. split; [apply extends_refl|]. intros p' [= <-]. exact Hp.
  - apply Hcreating. exact Hp.
Qed.

Lemma creating_all t : creating (snd (stripPtr t)) /\ creating t.
Proof.
  induction t as [k|e [IHb IH]|e _|nm sc fs IH] using type_fields_ind.
  - split; intros forType levels tsp r tsp' _ [= <- <-];
      (split; [apply extends_refl | intros p; discriminate]).
  - split.
    + simpl. destruct (stripPtr e). exact IHb.
    + intros forType levels tsp r tsp' Hnone. simpl. apply IH. exact Hnone.
  - split; intros forType levels tsp r tsp' _ [= <- <-];
      (split; [apply extends_refl | intros p; discriminate]).
  - assert (Hthis : creating (StructOf nm sc fs)).
    { intros forType levels tsp r tsp' Hnone. simpl.
      destruct (initActionsOfFields reg (getOrCreate reg) fs 0 tsp [])
        as [r0 tsp0] eqn:Hloop.
      assert (Hext : extends tsp tsp0).
      { apply (initActionsOfFields_extends (getOrCreate reg) fs) in Hloop;
          [exact Hloop|].
        eapply Forall_impl; [exact IH|]. intros f [Hb _] _.
        apply creating_caches. exact Hb. }
      destruct r0 as [acts|err| |];
        try (intros [= <- <-]; split; [exact Hext | intros p; discriminate]).
      intros [= <- <-]. split.
      - intros t' q Hq. rewrite providerOf_cons.
        destruct (decide (forType = t')) as [<-|_]; [congruence | apply Hext, Hq].
      - intros p [= <-]. rewrite providerOf_cons.
        destruct (decide (forType = forType)); [reflexivity | contradiction]. }
    split; exact Hthis.
Qed.

(** The provider cache only grows: [getOrCreate] keeps every provider that
    is cached, for any type and whatever it returns, and caches the provider
    it returns; the call is then answered from the cache, with the same
    provider and no change. *)
Theorem provider_is_returned_again tsp t r tsp' :
  getOrCreate reg tsp t = (r, tsp') ->
  (forall t' q, providerOf tsp t' = Some q -> providerOf tsp' t' = Some q) /\
  (forall p, r = Ok p ->
     providerOf tsp' t = Some p /\
     getOrCreate reg tsp' t = (Ok p, tsp') /\
     getOrCreateSync reg tsp' t = (Ok p, tsp')).
Proof.
  intros Hrun.
  destruct (creating_caches t (proj2 (creating_all t)) _ _ _ Hrun) as [Hext Hcached].
  split; [exact Hext|]. intros p Hp. specialize (Hcached p Hp).
  split; [exact Hcached|]. unfold getOrCreateSync. rewrite Hcached.
  split; [|reflexivity]. destruct t; simpl; rewrite Hcached; reflexivity.
Qed.

End ProviderCache.

Lemma provider_is_returned_again_witness :
  exists p tsp',
    getOrCreate [time_Time; time_Location] [] (PtrTo order) = (Ok p, tsp') /\
    providerOf tsp' (PtrTo order) = Some p /\
    (exists q, providerOf tsp' customer = Some q) /\
    getOrCreate [time_Time; time_Location] tsp' (PtrTo order) = (Ok p, tsp').
Proof.
  destruct (getOrCreate [time_Time; time_Location] [] (PtrTo order))
    as [[p|e| |] tsp'] eqn:Hrun; try (vm_compute in Hrun; discriminate).
  destruct (provider_is_returned_again _ _ _ _ _ Hrun) as [_ Hcached].
  destruct (Hcached p eq_refl) as (Hp & Hagain & _).
  exists p, tsp'. split; [reflexivity|]. split; [exact Hp|]. split; [|exact Hagain].
  vm_compute in Hrun. injection Hrun as _ <-. eexists. vm_compute. reflexivity.
Defined.

(** ** Index paths of any record type *)

(** What the appends of the resolver leave of a heap: arrays are added, and
    the arrays there are keep their length and their first three elements,
    an append in place writing at the fourth element or later. *)
Definition keeps (h h' : heap) : Prop :=
  length h ≤ length h' /\
  forall j a, h !! j = Some a ->
    exists a', h' !! j = Some a' /\ length a' = length a /\ take 3 a' = take 3 a.

(** A slice as [append] makes it from the nil slice: the backing array has
    the capacity as its length, and there is spare capacity only from the
    length 3 on. *)
Definition shaped (h : heap) (s : slice) : Prop :=
  len s ≤ cap s /\ (len s < cap s -> 3 ≤ len s) /\
  (cap s = 0 \/ exists a, h !! arr s = Some a /\ length a = cap s).

(** A slice holds a path up to the indices after the third. *)
Definition near (h : heap) (s : slice) (p : list nat) : Prop :=
  shaped h s /\ length p = len s /\ take 3 (elems h s) = take 3 p.

(** The length and the first three indices of a path. *)
Definition short (p : list nat) : nat * list nat := (length p, take 3 p).

Definition blur (h : heap) (a : fieldAccessor) : type * (nat * list nat) :=
  prod_map id short (denotation h a).

Lemma keeps_refl h : keeps h h.
Proof. split; [lia|]. intros j a Hj. exists a. auto. Qed.

Lemma keeps_trans h1 h2 h3 : keeps h1 h2 -> keeps h2 h3 -> keeps h1 h3.
Proof.
  intros [Hl1 H1] [Hl2 H2]. split; [lia|]. intros j a Hj.
  destruct (H1 j a Hj) as (a' & Hj' & Hlen' & Htake').
  destruct (H2 j a' Hj') as (a'' & Hj'' & Hlen'' & Htake'').
  exists a''. split; [exact Hj''|]. split; congruence.
Qed.

Lemma keeps_app h ext : keeps h (h ++ ext).
Proof.
  split; [rewrite length_app; lia|]. intros j a Hj. exists a.
  split; [|auto]. rewrite lookup_app_l; [exact Hj|].
  apply lookup_lt_is_Some. eauto.
Qed.

Lemma elems_length h s : shaped h s -> length (elems h s) = len s.
Proof.
  intros (Hle & _ & [H0|(a & Ha & Hlen)]); unfold elems.
  - replace (len s) with 0 by lia. reflexivity.
  - rewrite Ha. simpl. rewrite length_take. lia.
Qed.

Lemma elems_keeps h h' s :
  keeps h h' -> arr s < length h ->
  length (elems h' s) = length (elems h s) /\
  take 3 (elems h' s) = take 3 (elems h s).
Proof.
  intros [_ Hk] Hlt. destruct (lookup_lt_is_Some_2 h (arr s) Hlt) as [a Ha].
  destruct (Hk _ _ Ha) as (a' & Ha' & Hlen & Htake).
  unfold elems. rewrite Ha, Ha'. simpl. split.
  - rewrite !length_take. lia.
  - rewrite !take_take, (Nat.min_comm 3), <- !take_take, Htake. reflexivity.
Qed.

Lemma shaped_keeps h h' s : keeps h h' -> shaped h s -> shaped h' s.
Proof.
  intros [_ Hk] (Hle & Hspare & Harr). split; [exact Hle|]. split; [exact Hspare|].
  destruct Harr as [H0|(a & Ha & Hlen)]; [left; exact H0 | right].
  destruct (Hk _ _ Ha) as (a' & Ha' & Hlen' & _). exists a'. split; [exact Ha' | lia].
Qed.

Lemma near_keeps h h' s p : keeps h h' -> near h s p -> near h' s p.
Proof.
  intros Hk (Hs & Hlen & Htake). split; [exact (shaped_keeps _ _ _ Hk Hs)|].
  split; [exact Hlen|]. destruct Hs as (Hle & _ & [H0|(a & Ha & Hla)]).
  - unfold elems in *. replace (len s) with 0 in * by lia. exact Htake.
  - rewrite <- Htake. apply elems_keeps; [exact Hk|].
    apply lookup_lt_is_Some. eauto.
Qed.

Lemma blur_keeps h h' (m : gmap string fieldAccessor) :
  keeps h h' -> backed h m -> blur h' <$> m = blur h <$> m.
Proof.
  intros Hk Hb. apply map_eq. intros k. rewrite !lookup_fmap.
  destruct (m !! k) as [a|] eqn:Ha; [|reflexivity]. simpl.
  destruct (elems_keeps h h' (fieldIndex a) Hk (Hb k a Ha)) as [Hlen Htake].
  unfold blur, denotation, short. simpl. rewrite Hlen, Htake. reflexivity.
Qed.

Lemma backed_keeps h h' (m : gmap string fieldAccessor) :
  keeps h h' -> backed h m -> backed h' m.
Proof. intros [Hl _] Hb k a Ha. specialize (Hb k a Ha). lia. Qed.

Lemma take_snoc_same {A} n (a b : list A) x :
  length a = length b -> take n a = take n b ->
  take n (a ++ [x]) = take n (b ++ [x]).
Proof.
  intros Hlen Htake. destruct (decide (n ≤ length a)) as [Hle|Hgt].
  - rewrite !take_app_le by lia. exact Htake.
  - rewrite !take_ge in Htake by lia. subst b. reflexivity.
Qed.

(** [append] on a slice of the resolver. *)
Lemma append_near h s x p :
  near h s p ->
  exists h' s',
    append h s x = (h', s') /\ keeps h h' /\ near h' s' (p ++ [x]) /\
    arr s' < length h'.
Proof.
  intros (Hs & Hlen & Htake). pose proof (elems_length h s Hs) as Hel.
  destruct Hs as (Hle & Hspare & Harr). unfold append.
  destruct (decide (len s < cap s)) as [Hlt|Hfull].
  - specialize (Hspare Hlt). destruct Harr as [H0|(a & Ha & Hla)]; [lia|].
    eexists _, _. split; [reflexivity|].
    assert (Hlook : alter (fun a => <[len s := x]> a) (arr s) h !! arr s =
                    Some (<[len s := x]> a)).
    { rewrite list_lookup_alter_eq, Ha. reflexivity. }
    assert (Hk : keeps h (alter (fun a => <[len s := x]> a) (arr s) h)).
    { split; [rewrite length_alter; lia|]. intros j b Hj.
      destruct (decide (j = arr s)) as [->|Hne].
      - rewrite Hlook. rewrite Ha in Hj. injection Hj as <-.
        eexists. split; [reflexivity|]. split; [apply length_insert|].
        apply take_insert_ge. lia.
      - exists b. rewrite list_lookup_alter_ne by congruence. auto. }
    split; [exact Hk|]. split.
    + split; [|split].
      * split; [simpl; lia|]. split; [simpl; lia|]. right. simpl.
        eexists. split; [exact Hlook|]. rewrite length_insert. exact Hla.
      * rewrite length_app. simpl. lia.
      * unfold elems. simpl. rewrite Hlook. simpl.
        rewrite take_take, Nat.min_l by lia. rewrite take_insert_ge by lia.
        rewrite take_app_le by lia. rewrite <- Htake. unfold elems. rewrite Ha. simpl.
        rewrite take_take, Nat.min_l by lia. reflexivity.
    + simpl. rewrite length_alter. apply lookup_lt_is_Some. eauto.
  - eexists _, _. split; [reflexivity|]. split; [apply keeps_app|].
    assert (Hcap : cap s = len s) by lia.
    assert (Hnew : (h ++ [elems h s ++ x :: replicate (growslice (cap s) (S (len s)) - S (len s)) 0])
                     !! length h =
                   Some (elems h s ++ x :: replicate (growslice (cap s) (S (len s)) - S (len s)) 0)).
    { rewrite lookup_app_r by lia. rewrite Nat.sub_diag. reflexivity. }
    split.
    + split; [|split].
      * unfold growslice. split; [simpl; case_decide; lia|].
        split; [simpl; case_decide; lia|]. right. simpl.
        eexists. split; [exact Hnew|].
        rewrite length_app. simpl. rewrite length_replicate, Hel.
        unfold growslice. repeat case_decide; lia.
      * rewrite length_app. simpl. lia.
      * unfold elems at 1. simpl. rewrite Hnew. simpl.
        rewrite take_snoc_padded by exact Hel.
        apply take_snoc_same; [lia | exact Htake].
    + simpl. rewrite length_app. simpl. lia.
Qed.

Lemma near_blur h s p ty :
  near h s p -> blur h (mkAccessor ty s) = (ty, short p).
Proof.
  intros (Hs & Hlen & Htake). unfold blur, denotation, short. simpl.
  rewrite (elems_length h s Hs), Htake, Hlen. reflexivity.
Qed.

Definition shortOf (r : string * (type * list nat))
    : string * (type * (nat * list nat)) :=
  prod_map id (prod_map id short) r.

(** What the resolver does on any record type: the arrays keep their first
    three elements, and the accessors hold the paths of the registrations up
    to the indices after the third. *)
Definition resolvesNear (t : type) : Prop :=
  forall m h folding p,
    near h folding p -> backed h m ->
    exists m' h',
      createFieldsAccessorsRecursively m h folding t = Ok (m', h') /\
      keeps h h' /\ backed h' m' /\
      blur h' <$> m' = overwrite (blur h <$> m) (shortOf <$> registrations p t).

Lemma accessorsOfFields_near folding p fields :
  Forall (fun f => structRooted (Typ f) -> resolvesNear (Typ f)) fields ->
  forall i m h,
    near h folding p -> backed h m ->
    exists m' h',
      accessorsOfFields createFieldsAccessorsRecursively folding fields i m h =
        Ok (m', h') /\
      keeps h h' /\ backed h' m' /\
      blur h' <$> m' =
        overwrite (blur h <$> m)
          (shortOf <$> registrationsOfFields registrations p fields i).
Proof.
  induction 1 as [|f rest Hf _ IHrest]; intros i m h Hnear Hback.
  - exists m, h. split; [reflexivity|]. split; [apply keeps_refl|].
    split; [exact Hback | reflexivity].
  - rewrite accessorsOfFields_cons, registrationsOfFields_cons.
    assert (Hchild : exists m1 h1,
      (if isStructOrPtrToStruct (Typ f) then
         let '(h0, folding') := append h folding i in
         createFieldsAccessorsRecursively m h0 folding' (Typ f)
       else Ok (m, h)) = Ok (m1, h1) /\
      keeps h h1 /\ backed h1 m1 /\
      blur h1 <$> m1 =
        overwrite (blur h <$> m)
          (shortOf <$> (if isStructOrPtrToStruct (Typ f)
                        then registrations (p ++ [i]) (Typ f) else []))).
    { destruct (isStructOrPtrToStruct (Typ f)) eqn:Hs.
      - destruct (append_near h folding i p Hnear)
          as (h0 & folding' & Happ & Hk0 & Hnear' & _).
        rewrite Happ.
        destruct (Hf (isStructOrPtrToStruct_rooted _ Hs) m h0 folding' (p ++ [i])
                    Hnear' (backed_keeps _ _ _ Hk0 Hback))
          as (m1 & h1 & Hrun & Hk1 & Hback1 & Hm1).
        exists m1, h1. split; [exact Hrun|].
        split; [exact (keeps_trans _ _ _ Hk0 Hk1)|]. split; [exact Hback1|].
        rewrite Hm1, (blur_keeps _ _ _ Hk0 Hback). reflexivity.
      - exists m, h. split; [reflexivity|]. split; [apply keeps_refl|].
        split; [exact Hback | reflexivity]. }
    destruct Hchild as (m1 & h1 & Hrun & Hk1 & Hback1 & Hm1). rewrite Hrun.
    cbn [mbind outcome_bind].
    destruct (append_near h1 folding i p (near_keeps _ _ _ _ Hk1 Hnear))
      as (h2 & index & Happ & Hk2 & Hnear2 & Harr).
    rewrite Happ.
    destruct (IHrest (S i) (<[columnAliasOf f := mkAccessor (Typ f) index]> m1) h2)
      as (m' & h' & Hloop & Hk' & Hback' & Hm').
    + exact (near_keeps _ _ _ _ (keeps_trans _ _ _ Hk1 Hk2) Hnear).
    + apply backed_insert; [exact Harr | exact (backed_keeps _ _ _ Hk2 Hback1)].
    + exists m', h'. split; [exact Hloop|].
      split; [exact (keeps_trans _ _ _ Hk1 (keeps_trans _ _ _ Hk2 Hk'))|].
      split; [exact Hback'|].
      rewrite Hm', fmap_app, overwrite_app, fmap_cons. cbn [overwrite foldl].
      rewrite fmap_insert, (blur_keeps _ _ _ Hk2 Hback1), Hm1.
      rewrite (near_blur _ _ _ _ Hnear2). reflexivity.
Qed.

Lemma createFieldsAccessorsRecursively_near t : structRooted t -> resolvesNear t.
Proof.
  induction t as [k|e IH|e _|nm sc fs IH] using type_fields_ind; intros Hroot.
  - destruct Hroot as (? & ? & ? & ?); discriminate.
  - intros m h folding p Hnear Hback. simpl. apply IH; try assumption.
    destruct Hroot as (a & b & c & Hroot). exists a, b, c.
    simpl in Hroot. destruct (stripPtr e). exact Hroot.
  - destruct Hroot as (? & ? & ? & ?); discriminate.
  - intros m h folding p Hnear Hback. simpl.
    apply accessorsOfFields_near; assumption.
Qed.

Lemma near_nil : near [] nilSlice [].
Proof.
  split; [|split; reflexivity].
  split; [reflexivity|]. split; [simpl; lia | left; reflexivity].
Qed.

Lemma short_exact p q : length p ≤ 3 -> short q = short p -> q = p.
Proof.
  unfold short. intros Hle [= Hlen Htake].
  rewrite !take_ge in Htake by lia. exact Htake.
Qed.

(** The accessor of every key holds the type, the length and the first
    three indices of the path of the last registration. *)
Lemma createFieldsAccessors_near t :
  structRooted t ->
  exists m h,
    createFieldsAccessors t = Ok (m, h) /\
    forall k, blur h <$> m !! k =
              prod_map id short <$> lastRegistered k (registrations [] t).
Proof.
  intros Hroot.
  destruct (createFieldsAccessorsRecursively_near t Hroot ∅ [] nilSlice []
              near_nil (backed_empty []))
    as (m & h & Hrun & _ & _ & Hm).
  exists m, h. split; [exact Hrun|]. intros k.
  rewrite <- lookup_fmap, Hm, overwrite_lookup, fmap_empty, lookup_empty.
  unfold shortOf. rewrite lastRegistered_fmap.
  destruct (lastRegistered k (registrations [] t)); reflexivity.
Qed.

(** How a column is bound in a record type of any depth: through the last
    registration of its lower-cased name, to a path of the length of the
    registered one and with its first three indices. *)
Definition boundNear (t : type) (columnType : sql.ColumnType) (s : holderSupplier)
    : Prop :=
  match lastRegistered (ToLower (sql.name columnType)) (registrations [] t) with
  | Some (_, p) =>
      exists q, s = holderByFieldIndexPath q /\
                length q = length p /\ take 3 q = take 3 p /\
                (length p ≤ 3 -> q = p)
  | None => s = holderSkipColumn
  end.

Lemma bindingOf_boundNear t (m : gmap string fieldAccessor) h :
  (forall k, blur h <$> m !! k =
             prod_map id short <$> lastRegistered k (registrations [] t)) ->
  forall c, boundNear t c (bindingOf m h c).
Proof.
  intros Hkeys c. unfold boundNear, bindingOf.
  specialize (Hkeys (ToLower (sql.name c))).
  destruct (lastRegistered (ToLower (sql.name c)) (registrations [] t))
    as [[ty p]|] eqn:Hlast.
  - destruct (m !! ToLower (sql.name c)) as [a|] eqn:Ha; [|discriminate].
    injection Hkeys as _ Hlen Htake.
    eexists. split; [reflexivity|]. split; [exact Hlen|]. split; [exact Htake|].
    intros Hle. apply short_exact; [exact Hle|]. unfold short. congruence.
  - destruct (m !! ToLower (sql.name c)); [discriminate | reflexivity].
Qed.

(** In a record type of any depth, a plan that compiles binds every column
    whose lower-cased name is a key to a path that has the length and the
    first three indices of the path of the field registered last under the
    key, so that a path of length up to 3 is that of the field; the other
    columns are discarded. *)
Theorem bound_paths_keep_three_indices camtChk ctChk t cols hs :
  createHolderSuppliers camtChk ctChk t cols = Ok hs ->
  Forall2 (boundNear t) cols hs.
Proof.
  intros Hhs. pose proof (createHolderSuppliers_rooted _ _ _ _ _ Hhs) as Hroot.
  destruct (createFieldsAccessors_near t Hroot) as (m & h & Hrun & Hkeys).
  unfold createHolderSuppliers in Hhs. rewrite Hrun in Hhs.
  cbn [mbind outcome_bind] in Hhs. apply holderSuppliersLoop_Ok in Hhs. subst hs.
  cbn [app]. apply Forall2_fmap_r, Forall_Forall2_diag, Forall_forall.
  intros c _. apply bindingOf_boundNear. exact Hkeys.
Qed.

Lemma bound_paths_keep_three_indices_witness :
  Forall2 (boundNear deepA)
    [column "x" intType; column "y" intType; column "d" intType]
    [holderByFieldIndexPath [0; 0; 0; 1]; holderByFieldIndexPath [0; 0; 0; 1];
     holderByFieldIndexPath [0; 0; 0]].
Proof.
  apply (bound_paths_keep_three_indices false false). vm_compute. reflexivity.
Defined.

(** ** Columns bound under unexported fields *)

(** The resolver registers every field, exported or not, and descends into
    every struct, those of other packages and the registered smallest
    decompositions too: the keys of [time.Time] are those of its unexported
    fields and of the fields of [time.Location] and [time.zone] under them. *)

(** Whether an index path goes through a field that is unexported and not
    embedded: [reflect] marks the values under it read-only, and
    [Interface] panics on them. *)
Fixpoint throughUnexported (t : type) (index : list nat) (first : bool) : bool :=
  match index with
  | [] => false
  | x :: rest =>
      match (if first then t
             else match t with
                  | PtrTo (StructOf nm sc fields) => StructOf nm sc fields
                  | _ => t
                  end) with
      | StructOf _ _ fields =>
          match fields !! x with
          | Some field =>
              negb (isExported field) && negb (Anonymous field)
              || throughUnexported (Typ field) rest false
          | None => false
          end
      | _ => false
      end
  end.

Lemma FieldByIndex_loop_sticky index : forall t v first ro,
  FieldByIndex_loop t v index first true ro = Panic \/
  exists ft, FieldByIndex_loop t v index first true ro = Ok (ft, true).
Proof.
  induction index as [|x rest IH]; intros t v first ro; cbn [FieldByIndex_loop].
  { right. exists t. reflexivity. }
  assert (Hstep : forall t' v',
    let r := match t', v' with
             | StructOf _ _ fields, VStruct vs =>
                 match fields !! x, vs !! x with
                 | Some field, Some fv =>
                     FieldByIndex_loop (Typ field) fv rest false
                       (true || (negb (isExported field) && negb (Anonymous field)))
                       (negb (isExported field))
                 | _, _ => Panic
                 end
             | _, _ => Panic
             end in
    r = Panic \/ exists ft, r = Ok (ft, true)).
  { intros t' v'. destruct t' as [k|el|el|nm sc fields]; try (left; reflexivity).
    destruct v' as [| | | |vs]; try (left; reflexivity).
    destruct (fields !! x) as [field|]; [|left; reflexivity].
    destruct (vs !! x) as [fv|]; [apply IH | left; reflexivity]. }
  destruct first; cbn [mbind outcome_bind]; [exact (Hstep t v)|].
  destruct t as [k|[k|el|el|nm sc fields]|el|nm sc fields];
    cbn [mbind outcome_bind]; try (left; reflexivity).
  - destruct v as [| | |pointee|vs]; cbn [mbind outcome_bind]; try (left; reflexivity).
    exact (Hstep (StructOf nm sc fields) pointee).
  - exact (Hstep (StructOf nm sc fields) v).
Qed.

Lemma FieldByIndex_loop_through index : forall n t v first sticky ro,
  throughUnexported t (take n index) first = true ->
  FieldByIndex_loop t v index first sticky ro = Panic \/
  exists ft, FieldByIndex_loop t v index first sticky ro = Ok (ft, true).
Proof.
  induction index as [|x rest IH]; intros n t v first sticky ro.
  { rewrite take_nil. discriminate. }
  destruct n as [|n]; [discriminate|]. cbn [take throughUnexported FieldByIndex_loop].
  assert (Hstep : forall (fields : list (StructField type)) v',
    match fields !! x with
    | Some field =>
        negb (isExported field) && negb (Anonymous field)
        || throughUnexported (Typ field) (take n rest) false
    | None => false
    end = true ->
    let r := match v' with
             | VStruct vs =>
                 match fields !! x, vs !! x with
                 | Some field, Some fv =>
                     FieldByIndex_loop (Typ field) fv rest false
                       (sticky || (negb (isExported field) && negb (Anonymous field)))
                       (negb (isExported field))
                 | _, _ => Panic
                 end
             | _ => Panic
             end in
    r = Panic \/ exists ft, r = Ok (ft, true)).
  { intros fields v' Hthrough.
    destruct v' as [| | | |vs]; try (left; reflexivity).
    destruct (fields !! x) as [field|]; [|discriminate].
    destruct (vs !! x) as [fv|]; [|left; reflexivity].
    destruct (negb (isExported field) && negb (Anonymous field)).
    - rewrite orb_true_r. apply FieldByIndex_loop_sticky.
    - rewrite orb_false_r. exact (IH n _ _ _ _ _ Hthrough). }
  destruct first; cbn [mbind outcome_bind].
  - destruct t as [k|el|el|nm sc fields]; try discriminate.
    exact (Hstep fields v).
  - destruct t as [k|[k|el|el|nm sc fields]|el|nm sc fields]; try discriminate.
    + intros Hthrough.
      destruct v as [| | |pointee|vs]; cbn [mbind outcome_bind]; try (left; reflexivity).
      exact (Hstep fields pointee Hthrough).
    + cbn [mbind outcome_bind]. exact (Hstep fields v).
Qed.

Lemma supply_through t v q n :
  throughUnexported t (take n q) true = true ->
  supply t v (holderByFieldIndexPath q) = Panic.
Proof.
  intros Hthrough. unfold supply.
  destruct (FieldByIndex_loop_through q n t v true false false Hthrough)
    as [-> | (ft & ->)]; reflexivity.
Qed.

Lemma FieldByIndex_loop_no_Hang index : forall t v first sticky ro,
  FieldByIndex_loop t v index first sticky ro ≠ Hang.
Proof.
  induction index as [|x rest IH]; intros t v first sticky ro;
    cbn [FieldByIndex_loop]; [discriminate|].
  assert (Hstep : forall t' v',
    match t', v' with
    | StructOf _ _ fields, VStruct vs =>
        match fields !! x, vs !! x with
        | Some field, Some fv =>
            FieldByIndex_loop (Typ field) fv rest false
              (sticky || (negb (isExported field) && negb (Anonymous field)))
              (negb (isExported field))
        | _, _ => Panic
        end
    | _, _ => Panic
    end ≠ Hang).
  { intros t' v'. destruct t' as [k|el|el|nm sc fields]; try discriminate.
    destruct v' as [| | | |vs]; try discriminate.
    destruct (fields !! x) as [field|]; [|discriminate].
    destruct (vs !! x) as [fv|]; [apply IH | discriminate]. }
  destruct first; cbn [mbind outcome_bind]; [exact (Hstep t v)|].
  destruct t as [k|[k|el|el|nm sc fields]|el|nm sc fields];
    cbn [mbind outcome_bind]; try discriminate.
  - destruct v as [| | |pointee|vs]; cbn [mbind outcome_bind]; try discriminate.
    exact (Hstep (StructOf nm sc fields) pointee).
  - exact (Hstep (StructOf nm sc fields) v).
Qed.

Lemma supply_ends t v s :
  (exists d, supply t v s = Ok d) \/ supply t v s = Panic.
Proof.
  destruct s as [path|]; simpl; [|left; eauto].
  destruct (FieldByIndex_loop t v path true false false) as [[ft ro]|e| |] eqn:Hf;
    simpl.
  - destruct ro; [right; reflexivity | left; eauto].
  - destruct (FieldByIndex_loop_no_Fail _ _ _ _ _ _ _ Hf).
  - right. reflexivity.
  - destruct (FieldByIndex_loop_no_Hang _ _ _ _ _ _ Hf).
Qed.

Lemma supplyAll_Panic t v hs s :
  s ∈ hs -> supply t v s = Panic -> supplyAll t v hs = Panic.
Proof.
  intros Hin Hs. induction hs as [|s0 hs IH]; [apply elem_of_nil in Hin; contradiction|].
  cbn [supplyAll].
  destruct (supply_ends t v s0) as [(d & Hs0)|Hs0]; rewrite Hs0;
    cbn [mbind outcome_bind]; [|reflexivity].
  apply elem_of_cons in Hin. destruct Hin as [->|Hin]; [congruence|].
  rewrite (IH Hin). reflexivity.
Qed.

Lemma AddrTimes_no_Hang n : forall v canAddr, AddrTimes n v canAddr ≠ Hang.
Proof.
  induction n as [|n IH]; intros v canAddr; simpl; [discriminate|].
  destruct canAddr; [apply IH | discriminate].
Qed.

Lemma runProvider_no_Hang : forall p, runProvider p ≠ Hang.
Proof.
  fix IH 1. intros [actualType ptrDepth acts]. cbn [runProvider].
  assert (Hacts : forall holderValue,
            runInitActions runProvider actualType acts holderValue ≠ Hang).
  { induction acts as [|[[idx ptrNesting] provider] acts IHacts];
      intros holderValue; cbn [runInitActions]; [discriminate|].
    destruct (runProvider provider) as [v|e0| |] eqn:Hp;
      cbn [mbind outcome_bind]; try discriminate.
    - destruct (AddrTimes ptrNesting v (providesAddressable provider))
        as [v'|e0| |] eqn:Ha; cbn [mbind outcome_bind]; try discriminate.
      + unfold SetField.
        destruct holderValue as [| | | |vs]; cbn [mbind outcome_bind];
          try discriminate.
        destruct (fieldsOf actualType !! idx) as [field|];
          cbn [mbind outcome_bind]; try discriminate.
        destruct (isExported field); cbn [mbind outcome_bind];
          [apply IHacts | discriminate].
      + destruct (AddrTimes_no_Hang _ _ _ Ha).
    - destruct (IH provider Hp). }
  destruct (runInitActions runProvider actualType acts (zeroValue actualType))
    as [v|e0| |] eqn:Hrun; cbn [mbind outcome_bind]; try discriminate.
  - apply AddrTimes_no_Hang.
  - destruct (Hacts _ Hrun).
Qed.

(** The element of a row when a supplier panics on every instance. *)
Lemma multiColumnElement_Panic convertAssign t hs provider cells s :
  structured t provider ->
  s ∈ hs -> (forall v, supply (snd (stripPtr t)) v s = Panic) ->
  multiColumnElement convertAssign hs provider cells = Panic.
Proof.
  intros Hshape Hin Hs. unfold multiColumnElement.
  destruct provider as [[k|el|el|nm sc fs] ptrDepth acts]; try contradiction.
  simpl in Hshape. subst t. rewrite stripPtr_PtrToTimes_struct in Hs. simpl in Hs.
  destruct (runProvider (Provider (StructOf nm sc fs) ptrDepth acts))
    as [holderElement|e0| |] eqn:Hp; [| |reflexivity|].
  2: destruct (runProvider_no_Fail _ _ Hp).
  2: destruct (runProvider_no_Hang _ Hp).
  cbn [mbind outcome_bind].
  assert (Hwrapped : exists hv, holderElement = wrapPtr ptrDepth hv).
  { cbn [runProvider] in Hp.
    destruct (runInitActions runProvider _ acts _) as [hv|e0| |];
      cbn [mbind outcome_bind] in Hp; try discriminate.
    exists hv. exact (AddrTimes_Ok _ _ _ _ Hp). }
  destruct Hwrapped as (hv & ->). unfold unwrapPtrStructValue. cbn [providedType].
  rewrite unwrapPtrStructValue_loop_wrapPtr. cbn [mbind outcome_bind].
  rewrite (supplyAll_Panic _ _ _ s Hin (Hs hv)). reflexivity.
Qed.

(** A column whose lower-cased name was registered last for a field that is
    unexported, or that lies under an unexported field (within the first
    three indices of its path): the plan compiles and binds the column to
    it, and the first row makes Propagate panic, [Interface] being called
    on the address of a value that was reached through an unexported field.
    The fields of [time.Time], a registered smallest decomposition, are
    bound in this way.  Nothing is appended. *)
Theorem column_under_unexported_field_panics
    convertAssign st dst rows E T hs c ft p cells rest :
  reachable st ->
  holderType dst = PtrTo (SliceOf E) ->
  closed rows = false ->
  elementType (SliceOf E) = Ok T ->
  isSingleBasicType (smallestStructDecompositions st) T = false ->
  find (scanDefinitionsMgr st) T (columns rows) = None ->
  createHolderSuppliers (columnAmountCheck st) (columnTypeCheck st) T
    (columns rows) = Ok hs ->
  c ∈ columns rows ->
  lastRegistered (ToLower (sql.name c)) (registrations [] T) = Some (ft, p) ->
  throughUnexported (snd (stripPtr T)) (take 3 p) true = true ->
  pending rows = cells :: rest ->
  let after := Propagate convertAssign st dst rows in
  result after = Panic /\ dstAfter after = dst.
Proof.
  intros Hreach Hty Hclosed Helem Hbasic Hfind Hhs Hc Hlast Hthrough Hpend after.
  subst after.
  pose proof (createHolderSuppliers_rooted _ _ _ _ _ Hhs) as Hroot.
  destruct (reachable_sound st Hreach) as [Hprov _].
  destruct (getOrCreateSync_structured (smallestStructDecompositions st)
              (structProviderMgr st) T Hroot Hprov)
    as (provider & tsp' & Hprovider & Hshape & _).
  assert (Hplan : exists st',
    scanDefinitionsGetOrCreateSync st T (columns rows) =
    (Ok (mkScanDefinition (columns rows) (multiColumnRows hs provider)), st')).
  { rewrite scanDefinitionsGetOrCreateSync_unfold, Hfind.
    unfold create, createRowsMapper, multiColumnMapper.
    rewrite Hbasic, Hhs, Hprovider. eexists. reflexivity. }
  destruct Hplan as (st' & Hplan).
  rewrite (Propagate_runs _ _ _ _ _ _ _ _ Hty Hclosed Helem Hplan).
  cbn [mapper runMapper]. unfold runMultiColumn.
  destruct dst as [ty elements]. simpl in Hty. subst ty.
  cbn [holderType holderElements prepareInjector].
  rewrite Hpend. cbn [length forRowsNext].
  rewrite (Next_delivers rows cells rest Hclosed Hpend).
  rewrite (multiColumnRow_element convertAssign _ _ _ cells) by reflexivity.
  assert (Hbound : exists s, s ∈ hs /\ forall v, supply (snd (stripPtr T)) v s = Panic).
  { destruct (createFieldsAccessors_near T Hroot) as (m & h & Hrun & Hkeys).
    unfold createHolderSuppliers in Hhs. rewrite Hrun in Hhs.
    cbn [mbind outcome_bind] in Hhs. apply holderSuppliersLoop_Ok in Hhs.
    cbn [app] in Hhs. subst hs.
    exists (bindingOf m h c). split; [apply list_elem_of_fmap; eauto|].
    pose proof (bindingOf_boundNear T m h Hkeys c) as Hb.
    unfold boundNear in Hb. rewrite Hlast in Hb.
    destruct Hb as (q & -> & _ & Htake & _). intros v.
    apply (supply_through _ _ _ 3). rewrite Htake. exact Hthrough. }
  destruct Hbound as (s & Hin & Hs).
  rewrite (multiColumnElement_Panic convertAssign T hs provider cells s Hshape Hin Hs).
  split; reflexivity.
Qed.

(** A record with a name and a time. *)
Definition event : type :=
  StructOf "event" false
    [mkField "Name" false None stringType;
     mkField "At" false None time_Time].

Lemma column_under_unexported_field_panics_witness :
  lastRegistered "name" (registrations [] event) = Some (stringType, [1; 2; 5; 0]) /\
  let after :=
    Propagate sampleConvertAssign initialState
      (mkHolder (PtrTo (SliceOf event)) [])
      (rowsOf [column "name" stringType] [[sql.StringValue "a"]]) in
  result after = Panic /\ dstAfter after = mkHolder (PtrTo (SliceOf event)) [].
Proof.
  split; [reflexivity|].
  eapply (column_under_unexported_field_panics sampleConvertAssign initialState
            (mkHolder (PtrTo (SliceOf event)) [])
            (rowsOf [column "name" stringType] [[sql.StringValue "a"]])
            event event _ (column "name" stringType) stringType [1; 2; 5; 0]).
  - apply reachable_init.
  - reflexivity.
  - reflexivity.
  - reflexivity.
  - reflexivity.
  - reflexivity.
  - vm_compute. reflexivity.
  - apply list_elem_of_here.
  - reflexivity.
  - reflexivity.
  - reflexivity.
Defined.

(** ** Index paths that share their array *)

(** The slice [append(folding, i)] is when [folding] has spare capacity,
    whatever [i] is. *)
Definition inPlace (folding : slice) : slice :=
  mkSlice (arr folding) (S (len folding)) (cap folding).

Lemma accessorsOfFields_inPlace rec folding fields :
  Forall (fun f => isStructOrPtrToStruct (Typ f) = false) fields ->
  len folding < cap folding ->
  forall i (m : gmap string fieldAccessor) (h : heap) a0,
    h !! arr folding = Some a0 ->
    exists m' h',
      accessorsOfFields rec folding fields i m h = Ok (m', h') /\
      (forall k a, m !! k = Some a -> fieldIndex a = inPlace folding ->
         exists a', m' !! k = Some a' /\ fieldIndex a' = inPlace folding) /\
      (forall f, f ∈ fields ->
         exists a, m' !! columnAliasOf f = Some a /\
                   fieldIndex a = inPlace folding) /\
      h' !! arr folding =
        Some (match fields with
              | [] => a0
              | _ => <[len folding := i + length fields - 1]> a0
              end).
Proof.
  intros Hplain Hspare. induction Hplain as [|f rest Hf _ IH]; intros i m h a0 Ha0.
  - exists m, h. split; [reflexivity|]. split; [eauto|].
    split; [|exact Ha0]. intros f Hin. apply elem_of_nil in Hin. contradiction.
  - rewrite accessorsOfFields_cons, Hf. cbn [mbind outcome_bind].
    unfold append at 1. destruct (decide (len folding < cap folding)); [|contradiction].
    fold (inPlace folding).
    destruct (IH (S i) (<[columnAliasOf f := mkAccessor (Typ f) (inPlace folding)]> m)
                (alter (fun a => <[len folding := i]> a) (arr folding) h)
                (<[len folding := i]> a0))
      as (m' & h' & Hrun & Hkept & Hrest & Hh').
    { rewrite list_lookup_alter_eq, Ha0. reflexivity. }
    exists m', h'. split; [exact Hrun|]. split; [|split].
    + intros k a Hk Ha. destruct (decide (k = columnAliasOf f)) as [->|Hne].
      * apply (Hkept _ (mkAccessor (Typ f) (inPlace folding)));
          [apply lookup_insert_eq | reflexivity].
      * apply (Hkept k a); [|exact Ha]. rewrite lookup_insert_ne by congruence.
        exact Hk.
    + intros f' Hin. apply elem_of_cons in Hin. destruct Hin as [->|Hin].
      * apply (Hkept _ (mkAccessor (Typ f) (inPlace folding)));
          [apply lookup_insert_eq | reflexivity].
      * exact (Hrest f' Hin).
    + rewrite Hh'. destruct rest as [|f' rest].
      * simpl. do 2 f_equal. lia.
      * rewrite list_insert_insert_eq. simpl. do 2 f_equal. lia.
Qed.

(** [append] gives every field of a struct the same slice when [folding]
    has spare capacity, and writes each index at the same place of the
    array of [folding]: when the fields are neither structs nor pointers to
    structs, the resolver registers each of them with the index path of the
    last field of the struct. *)
Theorem plain_fields_share_the_last_index nm sc fields m h folding a0 :
  Forall (fun f => isStructOrPtrToStruct (Typ f) = false) fields ->
  len folding < cap folding ->
  h !! arr folding = Some a0 ->
  len folding < length a0 ->
  exists m' h',
    createFieldsAccessorsRecursively m h folding (StructOf nm sc fields) =
      Ok (m', h') /\
    forall f, f ∈ fields ->
      exists a, m' !! columnAliasOf f = Some a /\
                elems h' (fieldIndex a) = elems h folding ++ [length fields - 1].
Proof.
  intros Hplain Hspare Ha0 Hlen. cbn [createFieldsAccessorsRecursively].
  destruct (accessorsOfFields_inPlace createFieldsAccessorsRecursively folding fields
              Hplain Hspare 0 m h a0 Ha0)
    as (m' & h' & Hrun & _ & Hall & Hh').
  exists m', h'. split; [exact Hrun|]. intros f Hin.
  destruct (Hall f Hin) as (a & Ha & Hidx). exists a. split; [exact Ha|].
  rewrite Hidx. unfold elems, inPlace. cbn [arr len]. rewrite Hh', Ha0.
  destruct fields as [|f0 fields']; [apply elem_of_nil in Hin; contradiction|].
  cbn [default from_option id]. rewrite Nat.add_0_l.
  rewrite (take_S_r _ _ (length (f0 :: fields') - 1)).
  - rewrite take_insert_ge by lia. reflexivity.
  - apply list_lookup_insert_eq. exact Hlen.
Qed.

Lemma plain_fields_share_the_last_index_witness :
  exists m' h',
    createFieldsAccessorsRecursively ∅ [[0]; [0; 0]; [0; 0; 0; 0]] (mkSlice 2 3 4)
      deepD = Ok (m', h') /\
    (exists a, m' !! "x" = Some a /\ elems h' (fieldIndex a) = [0; 0; 0; 1]) /\
    (exists a, m' !! "y" = Some a /\ elems h' (fieldIndex a) = [0; 0; 0; 1]).
Proof.
  destruct (plain_fields_share_the_last_index "D" false
              [mkField "X" false None intType; mkField "Y" false None intType]
              ∅ [[0]; [0; 0]; [0; 0; 0; 0]] (mkSlice 2 3 4) [0; 0; 0; 0])
    as (m' & h' & Hrun & Hall).
  - repeat constructor.
  - simpl. lia.
  - reflexivity.
  - simpl. lia.
  - exists m', h'. split; [exact Hrun|]. split.
    + apply (Hall (mkField "X" false None intType)). apply list_elem_of_here.
    + apply (Hall (mkField "Y" false None intType)).
      apply list_elem_of_further, list_elem_of_here.
Defined.

(** * The older variant of the package

    [src/propagate.go] keeps one mapper for each element type in the map
    [holderElementTypes], behind the read-write lock
    [holderElementTypesMtx].  Its [isSingleBasicType], [getFieldAccessors]
    and [getHolderSuppliers] are, statement for statement,
    [isSingleBasicType], [createFieldsAccessors] and
    [createHolderSuppliers] above, the two strictness flags being plain
    variables. *)

Module Older.

(** What [createMappers] returns: [singleColumnMapper(holderElementType)],
    or the closure over the holder suppliers and the element type. *)
Inductive Mapper :=
| singleColumnMapper (forType : type)
| recordMapper (holderSuppliers : list holderSupplier) (holderElementType : type).

(** The package-level variables that are set through
    [SetStrictColumnTypeCheck], [SetStrictColumnAmountCheck] and
    [SmallestStructDecomposition]. *)
Record settings := mkSettings {
  strictColumnTypeCheck : bool;
  strictColumnAmountCheck : bool;
  registered : list type
}.

Definition getHolderSuppliers (cfg : settings) (dstType : type)
    (columnTypes : list sql.ColumnType) : outcome (list holderSupplier) :=
  createHolderSuppliers (strictColumnAmountCheck cfg) (strictColumnTypeCheck cfg)
    dstType columnTypes.

(** [createMappers] *)
Definition createMappers (cfg : settings) (holderElementType : type)
    (columnTypes : list sql.ColumnType) : outcome Mapper :=
  if isSingleBasicType (registered cfg) holderElementType
  then Ok (singleColumnMapper holderElementType)
  else
    holderSuppliers ← getHolderSuppliers cfg holderElementType columnTypes;
    Ok (recordMapper holderSuppliers holderElementType).

(** [holderElementTypes[holderElementType]]; the last mapper stored for a
    type is the first of the list. *)
Definition mapperOf (holderElementTypes : list (type * Mapper))
    (holderElementType : type) : option Mapper :=
  snd <$> List.find (fun e => bool_decide (fst e = holderElementType))
            holderElementTypes.

(** Where a call is in [Propagate], from [holderElementTypesMtx.RLock()]
    on. *)
Inductive stage :=
| AtRLock
| AfterRLock
    (* [RLock()] has returned *)
| Read (mapper : option Mapper)
    (* [mapper := holderElementTypes[holderElementType]] *)
| AtLock
    (* [RUnlock()] has returned and [mapper == nil] *)
| AfterLock
    (* [Lock()] has returned *)
| AtColumnTypes
    (* [mapper == nil] for the mapper read again *)
| AtCreateMappers (columnTypes : list sql.ColumnType)
    (* [rows.ColumnTypes()] has returned the column types *)
| Erred (err : error)
    (* [err != nil], before [Unlock()] and [return err] *)
| Panicking
    (* [createMappers] has panicked *)
| Made (mapper : Mapper)
    (* [createMappers] has returned the mapper *)
| Kept (mapper : Mapper)
    (* [holderElementTypes[holderElementType] = mapper] *)
| Calling (mapper : Mapper)
    (* at [return mapper(dst, rows)] *)
| Done (r : outcome unit).

(** A call: the element type [elementType] found for its destination,
    its row stream, and where it is. *)
Record call := mkCall {
  elementTypeOf : type;
  rowsGiven : Rows;
  stageOf : stage
}.

(** The package variables, the lock (the number of its readers, and the
    call that holds it as the writer) and the calls. *)
Record machine := mkMachine {
  configured : settings;
  holderElementTypes : list (type * Mapper);
  readLocks : nat;
  writeLock : option nat;
  calls : list call
}.

Definition goes (c : call) (p : stage) : call :=
  mkCall (elementTypeOf c) (rowsGiven c) p.

(** The calls run interleaved, one statement at a time: [RLock] waiting
    while a writeLock holds the lock, [Lock] waiting while a writeLock or a reader
    holds it.  What the mapper does with the destination and the rows is
    left open here: it returns any result, or does not return. *)
Inductive runs : machine -> machine -> Prop :=
| runs_RLock cfg hs n i c cs :
    cs !! i = Some c -> stageOf c = AtRLock ->
    runs (mkMachine cfg hs n None cs)
         (mkMachine cfg hs (S n) None (<[i := goes c AfterRLock]> cs))
| runs_read cfg hs n w i c cs :
    cs !! i = Some c -> stageOf c = AfterRLock ->
    runs (mkMachine cfg hs n w cs)
         (mkMachine cfg hs n w
            (<[i := goes c (Read (mapperOf hs (elementTypeOf c)))]> cs))
| runs_RUnlock_found cfg hs n w i c cs mapper :
    cs !! i = Some c -> stageOf c = Read (Some mapper) ->
    runs (mkMachine cfg hs n w cs)
         (mkMachine cfg hs (pred n) w (<[i := goes c (Calling mapper)]> cs))
| runs_RUnlock_missed cfg hs n w i c cs :
    cs !! i = Some c -> stageOf c = Read None ->
    runs (mkMachine cfg hs n w cs)
         (mkMachine cfg hs (pred n) w (<[i := goes c AtLock]> cs))
| runs_Lock cfg hs i c cs :
    cs !! i = Some c -> stageOf c = AtLock ->
    runs (mkMachine cfg hs 0 None cs)
         (mkMachine cfg hs 0 (Some i) (<[i := goes c AfterLock]> cs))
| runs_read_again_found cfg hs n w i c cs mapper :
    (* [mapper != nil]: the body of the second [if] is skipped, and with it
       every [Unlock()] *)
    cs !! i = Some c -> stageOf c = AfterLock ->
    mapperOf hs (elementTypeOf c) = Some mapper ->
    runs (mkMachine cfg hs n w cs)
         (mkMachine cfg hs n w (<[i := goes c (Calling mapper)]> cs))
| runs_read_again_missed cfg hs n w i c cs :
    cs !! i = Some c -> stageOf c = AfterLock ->
    mapperOf hs (elementTypeOf c) = None ->
    runs (mkMachine cfg hs n w cs)
         (mkMachine cfg hs n w (<[i := goes c AtColumnTypes]> cs))
| runs_ColumnTypes cfg hs n w i c cs columnTypes :
    cs !! i = Some c -> stageOf c = AtColumnTypes ->
    ColumnTypes (rowsGiven c) = Ok columnTypes ->
    runs (mkMachine cfg hs n w cs)
         (mkMachine cfg hs n w (<[i := goes c (AtCreateMappers columnTypes)]> cs))
| runs_ColumnTypes_failed cfg hs n w i c cs err :
    cs !! i = Some c -> stageOf c = AtColumnTypes ->
    ColumnTypes (rowsGiven c) = Fail err ->
    runs (mkMachine cfg hs n w cs)
         (mkMachine cfg hs n w (<[i := goes c (Erred err)]> cs))
| runs_createMappers cfg hs n w i c cs columnTypes mapper :
    cs !! i = Some c -> stageOf c = AtCreateMappers columnTypes ->
    createMappers cfg (elementTypeOf c) columnTypes = Ok mapper ->
    runs (mkMachine cfg hs n w cs)
         (mkMachine cfg hs n w (<[i := goes c (Made mapper)]> cs))
| runs_createMappers_failed cfg hs n w i c cs columnTypes err :
    cs !! i = Some c -> stageOf c = AtCreateMappers columnTypes ->
    createMappers cfg (elementTypeOf c) columnTypes = Fail err ->
    runs (mkMachine cfg hs n w cs)
         (mkMachine cfg hs n w (<[i := goes c (Erred err)]> cs))
| runs_createMappers_panicked cfg hs n w i c cs columnTypes :
    cs !! i = Some c -> stageOf c = AtCreateMappers columnTypes ->
    createMappers cfg (elementTypeOf c) columnTypes = Panic ->
    runs (mkMachine cfg hs n w cs)
         (mkMachine cfg hs n w (<[i := goes c Panicking]> cs))
| runs_Unlock_failed cfg hs n w i c cs err :
    cs !! i = Some c -> stageOf c = Erred err ->
    runs (mkMachine cfg hs n w cs)
         (mkMachine cfg hs n None (<[i := goes c (Done (Fail err))]> cs))
| runs_store cfg hs n w i c cs mapper :
    cs !! i = Some c -> stageOf c = Made mapper ->
    runs (mkMachine cfg hs n w cs)
         (mkMachine cfg ((elementTypeOf c, mapper) :: hs) n w
            (<[i := goes c (Kept mapper)]> cs))
| runs_Unlock_stored cfg hs n w i c cs mapper :
    cs !! i = Some c -> stageOf c = Kept mapper ->
    runs (mkMachine cfg hs n w cs)
         (mkMachine cfg hs n None (<[i := goes c (Calling mapper)]> cs))
| runs_mapper cfg hs n w i c cs mapper r :
    cs !! i = Some c -> stageOf c = Calling mapper ->
    runs (mkMachine cfg hs n w cs)
         (mkMachine cfg hs n w (<[i := goes c (Done r)]> cs))
| runs_configure cfg cfg' hs n w cs :
    runs (mkMachine cfg hs n w cs) (mkMachine cfg' hs n w cs).

(** Whether a call is between [Lock()] and the [Unlock()] of each branch
    that has one. *)
Definition exclusive (p : stage) : bool :=
  match p with
  | AfterLock | AtColumnTypes | AtCreateMappers _ | Erred _ | Panicking
  | Made _ | Kept _ => true
  | _ => false
  end.

(** A call that is there holds the lock as the writeLock. *)
Definition held (w : machine) : Prop :=
  forall j c, calls w !! j = Some c -> exclusive (stageOf c) = true -> writeLock w = Some j.

(** No call of [Propagate] has reached the lock yet. *)
Definition idle (w : machine) : Prop :=
  writeLock w = None /\ Forall (fun c => stageOf c = AtRLock) (calls w).

(** Caller [i] has found the mapper when it read the map again, or is
    about to. *)
Definition skipped (i : nat) (w : machine) : Prop :=
  writeLock w = Some i /\
  exists c, calls w !! i = Some c /\
    match stageOf c with
    | AfterLock => mapperOf (holderElementTypes w) (elementTypeOf c) ≠ None
    | Calling _ | Done _ => True
    | _ => False
    end.

(** Whether a call waiting for the lock. *)
Definition waiting (p : stage) : bool :=
  match p with
  | AtRLock | AtLock => true
  | _ => false
  end.

Lemma lookup_goes (cs : list call) (i : nat) c p (j : nat) c' :
  cs !! i = Some c -> <[i := goes c p]> cs !! j = Some c' ->
  (i = j /\ c' = goes c p) \/ (i ≠ j /\ cs !! j = Some c').
Proof.
  intros Hi Hj. destruct (decide (i = j)) as [<-|Hne].
  - left. split; [reflexivity|].
    rewrite list_lookup_insert_eq in Hj by (apply lookup_lt_is_Some; eauto).
    congruence.
  - right. split; [exact Hne|]. rewrite list_lookup_insert_ne in Hj by exact Hne.
    exact Hj.
Qed.

Lemma lookup_goes_same (cs : list call) (i : nat) c p :
  cs !! i = Some c -> <[i := goes c p]> cs !! i = Some (goes c p).
Proof. intros Hi. apply list_lookup_insert_eq, lookup_lt_is_Some. eauto. Qed.

Lemma idle_held w : idle w -> held w.
Proof.
  intros [_ Hall] j c Hj. rewrite Forall_lookup in Hall. rewrite (Hall j c Hj).
  discriminate.
Qed.

(** Only the writer is between [Lock()] and [Unlock()]. *)
Lemma held_runs w w' : runs w w' -> held w -> held w'.
Proof.
  intros Hrun Hheld.
  destruct Hrun as
    [cfg hs n k c cs Hk Hat | cfg hs n w k c cs Hk Hat
    |cfg hs n w k c cs mapper Hk Hat | cfg hs n w k c cs Hk Hat
    |cfg hs k c cs Hk Hat | cfg hs n w k c cs mapper Hk Hat Hm
    |cfg hs n w k c cs Hk Hat Hm | cfg hs n w k c cs cols Hk Hat Hcols
    |cfg hs n w k c cs err Hk Hat Hcols | cfg hs n w k c cs cols mapper Hk Hat Hm
    |cfg hs n w k c cs cols err Hk Hat Hm | cfg hs n w k c cs cols Hk Hat Hm
    |cfg hs n w k c cs err Hk Hat | cfg hs n w k c cs mapper Hk Hat
    |cfg hs n w k c cs mapper Hk Hat | cfg hs n w k c cs mapper r Hk Hat
    |cfg cfg' hs n w cs];
    intros j c' Hj Hx; cbn [calls writeLock] in *;
    try exact (Hheld j c' Hj Hx);
    pose proof (Hheld k c Hk) as Hwk; rewrite Hat in Hwk;
    cbn [exclusive writeLock] in Hwk;
    destruct (lookup_goes _ _ _ _ _ _ Hk Hj) as [[<- ->]|[Hne Hj']];
    cbn [goes stageOf exclusive] in Hx; try discriminate; try reflexivity;
    try exact (Hwk eq_refl);
    pose proof (Hheld j c' Hj' Hx) as Hwj; cbn [writeLock] in Hwj;
    try discriminate; try exact Hwj.
  all: exfalso; apply Hne; specialize (Hwk eq_refl); congruence.
Qed.

Lemma held_reached w w' : rtc runs w w' -> held w -> held w'.
Proof. induction 1 as [|w1 w2 w3 Hrun _ IH]; [auto|]. intros Hheld. eauto using held_runs. Qed.

(** Once a call has found the mapper when it read the map again, no
    statement of any call releases the lock or changes the map. *)
Lemma skipped_runs i w w' : held w -> skipped i w -> runs w w' -> skipped i w'.
Proof.
  intros Hheld (Hw & ci & Hci & Hstage) Hrun.
  destruct Hrun as
    [cfg hs n k c cs Hk Hat | cfg hs n w k c cs Hk Hat
    |cfg hs n w k c cs mapper Hk Hat | cfg hs n w k c cs Hk Hat
    |cfg hs k c cs Hk Hat | cfg hs n w k c cs mapper Hk Hat Hm
    |cfg hs n w k c cs Hk Hat Hm | cfg hs n w k c cs cols Hk Hat Hcols
    |cfg hs n w k c cs err Hk Hat Hcols | cfg hs n w k c cs cols mapper Hk Hat Hm
    |cfg hs n w k c cs cols err Hk Hat Hm | cfg hs n w k c cs cols Hk Hat Hm
    |cfg hs n w k c cs err Hk Hat | cfg hs n w k c cs mapper Hk Hat
    |cfg hs n w k c cs mapper Hk Hat | cfg hs n w k c cs mapper r Hk Hat
    |cfg cfg' hs n w cs];
    unfold skipped; cbn [calls writeLock holderElementTypes] in *; try discriminate.
  all: try solve [split; [exact Hw|]; exists ci; split; [exact Hci | exact Hstage]].
  all: assert (Hexcl : exclusive (stageOf c) = true -> k = i)
         by (intros Hx; pose proof (Hheld k c Hk Hx) as Hwk; cbn [writeLock] in Hwk;
             congruence).
  all: destruct (decide (k = i)) as [->|Hne];
    [rewrite Hk in Hci; injection Hci as <-; rewrite Hat in Hstage;
     try contradiction
    |try (exfalso; apply Hne, Hexcl; rewrite Hat; reflexivity)].
  all: try (split; [exact Hw|]; exists ci;
            split; [rewrite list_lookup_insert_ne by exact Hne; exact Hci
                   | exact Hstage]).
  all: try (split; [exact Hw|]; eexists;
            split; [apply lookup_goes_same; exact Hk | exact I]).
  all: try (rewrite Hm in Hstage; contradiction).
Qed.

Lemma skipped_reached i w w' :
  held w -> skipped i w -> rtc runs w w' -> skipped i w'.
Proof.
  intros Hheld Hs Hreach. revert Hheld Hs.
  induction Hreach as [|w1 w2 w3 Hrun _ IH]; [auto|]. intros Hheld Hs.
  apply IH; [exact (held_runs _ _ Hrun Hheld) | exact (skipped_runs _ _ _ Hheld Hs Hrun)].
Qed.

(** While the lock is held as the writer, a call that waits for it stays
    where it is. *)
Lemma waiting_runs w w' j c :
  writeLock w ≠ None -> runs w w' ->
  calls w !! j = Some c -> waiting (stageOf c) = true ->
  calls w' !! j = Some c.
Proof.
  intros Hw Hrun Hj Hwait.
  destruct Hrun as
    [cfg hs n k c0 cs Hk Hat | cfg hs n w k c0 cs Hk Hat
    |cfg hs n w k c0 cs mapper Hk Hat | cfg hs n w k c0 cs Hk Hat
    |cfg hs k c0 cs Hk Hat | cfg hs n w k c0 cs mapper Hk Hat Hm
    |cfg hs n w k c0 cs Hk Hat Hm | cfg hs n w k c0 cs cols Hk Hat Hcols
    |cfg hs n w k c0 cs err Hk Hat Hcols | cfg hs n w k c0 cs cols mapper Hk Hat Hm
    |cfg hs n w k c0 cs cols err Hk Hat Hm | cfg hs n w k c0 cs cols Hk Hat Hm
    |cfg hs n w k c0 cs err Hk Hat | cfg hs n w k c0 cs mapper Hk Hat
    |cfg hs n w k c0 cs mapper Hk Hat | cfg hs n w k c0 cs mapper r Hk Hat
    |cfg cfg' hs n w cs];
    cbn [calls writeLock] in *; try contradiction; try exact Hj.
  all: destruct (decide (k = j)) as [->|Hne];
    [rewrite Hk in Hj; injection Hj as <-; rewrite Hat in Hwait; discriminate
    |rewrite list_lookup_insert_ne by exact Hne; exact Hj].
Qed.

(** When a call that has taken the lock as the writer finds the mapper in
    the map, which another call stored while it waited, it goes on to the
    mapper without [Unlock()]: from then on the lock is held as the writer,
    also after the call has returned, and every call that waits at
    [RLock()] or at [Lock()] waits for ever. *)
Theorem mapper_found_again_keeps_the_lock w0 w i c mapper w' :
  idle w0 -> rtc runs w0 w ->
  calls w !! i = Some c -> stageOf c = AfterLock ->
  mapperOf (holderElementTypes w) (elementTypeOf c) = Some mapper ->
  rtc runs w w' ->
  writeLock w' = Some i /\
  forall j c', calls w' !! j = Some c' -> waiting (stageOf c') = true ->
    forall w'', rtc runs w' w'' -> calls w'' !! j = Some c'.
Proof.
  intros Hidle Hreach Hi Hat Hm Hgoes.
  pose proof (held_reached _ _ Hreach (idle_held _ Hidle)) as Hheld.
  assert (Hs : skipped i w).
  { split; [apply (Hheld i c Hi); rewrite Hat; reflexivity|].
    exists c. split; [exact Hi|]. rewrite Hat, Hm. discriminate. }
  pose proof (skipped_reached _ _ _ Hheld Hs Hgoes) as Hs'.
  pose proof (held_reached _ _ Hgoes Hheld) as Hheld'.
  split; [exact (proj1 Hs')|].
  intros j c' Hj Hwait w'' Hlater. clear Hgoes. revert Hheld' Hs' Hj.
  induction Hlater as [|w1 w2 w3 Hrun _ IH]; intros Hheld' Hs' Hj; [exact Hj|].
  apply IH.
  - exact (held_runs _ _ Hrun Hheld').
  - exact (skipped_runs _ _ _ Hheld' Hs' Hrun).
  - apply (waiting_runs w1 w2); [|exact Hrun | exact Hj | exact Hwait].
    rewrite (proj1 Hs'). discriminate.
Qed.

(** A call that has read the map again and found no mapper, up to the
    statement that stores the one it makes. *)
Definition making (p : stage) : bool :=
  match p with
  | AtColumnTypes | AtCreateMappers _ | Made _ => true
  | _ => false
  end.

(** The map has no mapper for the element type of a call that is making
    one. *)
Definition unseen (w : machine) : Prop :=
  forall j c, calls w !! j = Some c -> making (stageOf c) = true ->
    mapperOf (holderElementTypes w) (elementTypeOf c) = None.

Lemma idle_unseen w : idle w -> unseen w.
Proof.
  intros [_ Hall] j c Hj. rewrite Forall_lookup in Hall. rewrite (Hall j c Hj).
  discriminate.
Qed.

Lemma making_exclusive p : making p = true -> exclusive p = true.
Proof. destruct p; try discriminate; reflexivity. Qed.

Lemma unseen_runs w w' : held w -> unseen w -> runs w w' -> unseen w'.
Proof.
  intros Hheld Hun Hrun.
  destruct Hrun as
    [cfg hs n k c cs Hk Hat | cfg hs n w k c cs Hk Hat
    |cfg hs n w k c cs mapper Hk Hat | cfg hs n w k c cs Hk Hat
    |cfg hs k c cs Hk Hat | cfg hs n w k c cs mapper Hk Hat Hm
    |cfg hs n w k c cs Hk Hat Hm | cfg hs n w k c cs cols Hk Hat Hcols
    |cfg hs n w k c cs err Hk Hat Hcols | cfg hs n w k c cs cols mapper Hk Hat Hm
    |cfg hs n w k c cs cols err Hk Hat Hm | cfg hs n w k c cs cols Hk Hat Hm
    |cfg hs n w k c cs err Hk Hat | cfg hs n w k c cs mapper Hk Hat
    |cfg hs n w k c cs mapper Hk Hat | cfg hs n w k c cs mapper r Hk Hat
    |cfg cfg' hs n w cs];
    intros j c' Hj Hmk; cbn [calls holderElementTypes] in *;
    try exact (Hun j c' Hj Hmk);
    destruct (lookup_goes _ _ _ _ _ _ Hk Hj) as [[<- ->]|[Hne Hj']];
    cbn [goes stageOf elementTypeOf making] in *; try discriminate;
    try exact (Hun j c' Hj' Hmk);
    try exact Hm;
    try (apply (Hun k c Hk); rewrite Hat; reflexivity).
  exfalso. apply Hne.
  pose proof (Hheld k c Hk) as Hwk. rewrite Hat in Hwk. specialize (Hwk eq_refl).
  pose proof (Hheld j c' Hj' (making_exclusive _ Hmk)) as Hwj.
  cbn [writeLock] in *. congruence.
Qed.

Lemma mapperOf_runs w w' t mapper :
  unseen w -> runs w w' ->
  mapperOf (holderElementTypes w) t = Some mapper ->
  mapperOf (holderElementTypes w') t = Some mapper.
Proof.
  intros Hun Hrun.
  destruct Hrun as
    [cfg hs n k c cs Hk Hat | cfg hs n w k c cs Hk Hat
    |cfg hs n w k c cs mapper' Hk Hat | cfg hs n w k c cs Hk Hat
    |cfg hs k c cs Hk Hat | cfg hs n w k c cs mapper' Hk Hat Hm
    |cfg hs n w k c cs Hk Hat Hm | cfg hs n w k c cs cols Hk Hat Hcols
    |cfg hs n w k c cs err Hk Hat Hcols | cfg hs n w k c cs cols mapper' Hk Hat Hm
    |cfg hs n w k c cs cols err Hk Hat Hm | cfg hs n w k c cs cols Hk Hat Hm
    |cfg hs n w k c cs err Hk Hat | cfg hs n w k c cs mapper' Hk Hat
    |cfg hs n w k c cs mapper' Hk Hat | cfg hs n w k c cs mapper' r Hk Hat
    |cfg cfg' hs n w cs];
    cbn [holderElementTypes]; try (intros Hm'; exact Hm').
  intros Hthere. pose proof (Hun k c Hk) as Hnone. rewrite Hat in Hnone.
  specialize (Hnone eq_refl). cbn [holderElementTypes] in Hnone.
  unfold mapperOf. cbn [List.find fst].
  rewrite bool_decide_eq_false_2; [exact Hthere|].
  intros Heq. rewrite Heq in Hnone. congruence.
Qed.

(** The map never gives up a mapper: the one stored for an element type
    is the one every later call for that type reads, whatever calls run
    in between and whatever the columns of their rows are, a mapper being
    made only by a call that holds the lock as the writer and has found
    none. *)
Theorem stored_mapper_is_kept w0 w w' t mapper :
  idle w0 -> rtc runs w0 w ->
  mapperOf (holderElementTypes w) t = Some mapper ->
  rtc runs w w' ->
  mapperOf (holderElementTypes w') t = Some mapper.
Proof.
  intros Hidle Hreach Hthere Hlater.
  pose proof (held_reached _ _ Hreach (idle_held _ Hidle)) as Hheld.
  assert (Hun : unseen w).
  { clear Hthere Hlater. pose proof (idle_held _ Hidle) as Hheld0.
    pose proof (idle_unseen _ Hidle) as Hun0. clear Hidle Hheld.
    induction Hreach as [|w1 w2 w3 Hrun _ IH]; [exact Hun0|].
    apply IH; [exact (held_runs _ _ Hrun Hheld0) | exact (unseen_runs _ _ Hheld0 Hun0 Hrun)]. }
  clear Hreach Hidle. revert Hheld Hun Hthere.
  induction Hlater as [|w1 w2 w3 Hrun _ IH]; intros Hheld Hun Hthere; [exact Hthere|].
  apply IH.
  - exact (held_runs _ _ Hrun Hheld).
  - exact (unseen_runs _ _ Hheld Hun Hrun).
  - exact (mapperOf_runs _ _ _ _ Hun Hrun Hthere).
Qed.

End Older.

(** Three calls for a slice of int: the first two miss the mapper under
    the read lock; the first stores it; the second, which takes the lock
    next, finds it and returns with the lock held, and the third has not
    got past [RLock()]. *)
Lemma mapper_found_again_keeps_the_lock_witness :
  let c := Older.mkCall intType (rowsOf [column "id" intType] []) Older.AtRLock in
  let m := Older.singleColumnMapper intType in
  exists w',
    rtc Older.runs
      (Older.mkMachine (Older.mkSettings false false [time_Time; time_Location])
         [] 0 None [c; c; c]) w' /\
    Older.stageOf <$> Older.calls w' !! 0 = Some (Older.Calling m) /\
    Older.stageOf <$> Older.calls w' !! 1 = Some (Older.Done (Ok ())) /\
    Older.stageOf <$> Older.calls w' !! 2 = Some Older.AtRLock /\
    Older.readLocks w' = 0 /\
    Older.writeLock w' = Some 1.
Proof.
  intros c m.
  set (cfg := Older.mkSettings false false [time_Time; time_Location]).
  set (w0 := Older.mkMachine cfg [] 0 None [c; c; c]).
  set (w := Older.mkMachine cfg [(intType, m)] 0 (Some 1)
              [Older.goes c (Older.Calling m); Older.goes c Older.AfterLock; c]).
  set (w' := Older.mkMachine cfg [(intType, m)] 0 (Some 1)
               [Older.goes c (Older.Calling m); Older.goes c (Older.Done (Ok ())); c]).
  assert (Hreach : rtc Older.runs w0 w).
  { eapply rtc_l; [exact (Older.runs_RLock cfg [] 0 0 c [c; c; c] eq_refl eq_refl)|].
    eapply rtc_l; [eapply (Older.runs_read _ _ _ _ 0); reflexivity|].
    eapply rtc_l; [eapply (Older.runs_RUnlock_missed _ _ _ _ 0); reflexivity|].
    eapply rtc_l; [eapply (Older.runs_RLock _ _ _ 1); reflexivity|].
    eapply rtc_l; [eapply (Older.runs_read _ _ _ _ 1); reflexivity|].
    eapply rtc_l; [eapply (Older.runs_RUnlock_missed _ _ _ _ 1); reflexivity|].
    eapply rtc_l; [eapply (Older.runs_Lock _ _ 0); reflexivity|].
    eapply rtc_l; [eapply (Older.runs_read_again_missed _ _ _ _ 0); reflexivity|].
    eapply rtc_l; [eapply (Older.runs_ColumnTypes _ _ _ _ 0); reflexivity|].
    eapply rtc_l; [eapply (Older.runs_createMappers _ _ _ _ 0); reflexivity|].
    eapply rtc_l; [eapply (Older.runs_store _ _ _ _ 0); reflexivity|].
    eapply rtc_l; [eapply (Older.runs_Unlock_stored _ _ _ _ 0); reflexivity|].
    eapply rtc_l; [eapply (Older.runs_Lock _ _ 1); reflexivity|].
    apply rtc_refl. }
  assert (Hgoes : rtc Older.runs w w').
  { eapply rtc_l; [eapply (Older.runs_read_again_found _ _ _ _ 1); reflexivity|].
    eapply rtc_l; [eapply (Older.runs_mapper _ _ _ _ 1 _ _ _ (Ok ())); reflexivity|].
    apply rtc_refl. }
  exists w'. split; [etrans; [exact Hreach | exact Hgoes]|].
  split; [reflexivity|]. split; [reflexivity|]. split; [reflexivity|].
  split; [reflexivity|].
  refine (proj1 (Older.mapper_found_again_keeps_the_lock w0 w 1
                   (Older.goes c Older.AfterLock) m w' _ Hreach eq_refl eq_refl
                   eq_refl Hgoes)).
  split; [reflexivity|]. repeat constructor.
Defined.

(** Two calls for a slice of [valStruct]: the first has the column id, and
    its mapper binds one column; the second has the columns col1 and id and
    reads that mapper. *)
Lemma stored_mapper_is_kept_witness :
  let c0 := Older.mkCall valStruct (rowsOf [column "id" intType] []) Older.AtRLock in
  let c1 := Older.mkCall valStruct
              (rowsOf [column "col1" stringType; column "id" intType] [])
              Older.AtRLock in
  let m := Older.recordMapper [holderByFieldIndexPath [0]] valStruct in
  exists w',
    rtc Older.runs
      (Older.mkMachine (Older.mkSettings false false [time_Time; time_Location])
         [] 0 None [c0; c1]) w' /\
    Older.stageOf <$> Older.calls w' !! 1 = Some (Older.Calling m) /\
    Older.mapperOf (Older.holderElementTypes w') valStruct = Some m.
Proof.
  intros c0 c1 m.
  set (cfg := Older.mkSettings false false [time_Time; time_Location]).
  set (w0 := Older.mkMachine cfg [] 0 None [c0; c1]).
  set (w := Older.mkMachine cfg [(valStruct, m)] 0 None
              [Older.goes c0 (Older.Calling m); c1]).
  set (w' := Older.mkMachine cfg [(valStruct, m)] 0 None
               [Older.goes c0 (Older.Calling m); Older.goes c1 (Older.Calling m)]).
  assert (Hreach : rtc Older.runs w0 w).
  { eapply rtc_l; [exact (Older.runs_RLock cfg [] 0 0 c0 [c0; c1] eq_refl eq_refl)|].
    eapply rtc_l; [eapply (Older.runs_read _ _ _ _ 0); reflexivity|].
    eapply rtc_l; [eapply (Older.runs_RUnlock_missed _ _ _ _ 0); reflexivity|].
    eapply rtc_l; [eapply (Older.runs_Lock _ _ 0); reflexivity|].
    eapply rtc_l; [eapply (Older.runs_read_again_missed _ _ _ _ 0); reflexivity|].
    eapply rtc_l; [eapply (Older.runs_ColumnTypes _ _ _ _ 0); reflexivity|].
    eapply rtc_l; [eapply (Older.runs_createMappers _ _ _ _ 0 _ _ _ m);
                   [reflexivity | reflexivity | vm_compute; reflexivity]|].
    eapply rtc_l; [eapply (Older.runs_store _ _ _ _ 0); reflexivity|].
    eapply rtc_l; [eapply (Older.runs_Unlock_stored _ _ _ _ 0); reflexivity|].
    apply rtc_refl. }
  assert (Hlater : rtc Older.runs w w').
  { eapply rtc_l; [eapply (Older.runs_RLock _ _ _ 1); reflexivity|].
    eapply rtc_l; [eapply (Older.runs_read _ _ _ _ 1); reflexivity|].
    eapply rtc_l; [eapply (Older.runs_RUnlock_found _ _ _ _ 1); reflexivity|].
    apply rtc_refl. }
  exists w'. split; [etrans; [exact Hreach | exact Hlater]|].
  split; [reflexivity|].
  refine (Older.stored_mapper_is_kept w0 w w' valStruct m _ Hreach eq_refl Hlater).
  split; [reflexivity|]. repeat constructor.
Defined.

(** ** The mappers of the older variant *)

Module OlderMappers.

(** [putToHolder]: the loop over the pointers of the holder, down to the
    slice the value is appended to. *)
Fixpoint putToHolder (dstHolderType valueType : type) (v : value)
    (elements : list value) : outcome (list value) :=
  match dstHolderType with
  | PtrTo elem => putToHolder elem valueType v elements
  | SliceOf sliceElem => inject sliceElem valueType v elements
  | _ => Fail ErrHolderNotImplemented
  end.

Section OlderLoops.

Variable convertAssign : type -> sql.driverValue -> option value.

(** [for rows.Next() { ... putToHolder(holder, holderElement) }], the
    loop of both mappers: a row that fails ends it, and the rows are closed
    when it is [putToHolder] that failed. *)
Fixpoint forRowsNextPut (fuel : nat) (row : Rows -> outcome value)
    (dstHolderType valueType : type) (rs : Rows) (elements : list value)
    : outcome unit * list value * Rows :=
  match fuel with
  | 0 => (Hang, elements, rs)
  | S fuel' =>
      let '(more, rs) := Next rs in
      if more then
        match row rs with
        | Ok holderElement =>
            match putToHolder dstHolderType valueType holderElement elements with
            | Ok elements' =>
                forRowsNextPut fuel' row dstHolderType valueType rs elements'
            | Fail e => (Fail e, elements, snd (Close rs))
            | Panic => (Panic, elements, rs)
            | Hang => (Hang, elements, rs)
            end
        | Fail e => (Fail e, elements, rs)
        | Panic => (Panic, elements, rs)
        | Hang => (Hang, elements, rs)
        end
      else (Ok (), elements, rs)
  end.

(** The function [singleColumnMapper] returns. *)
Definition runSingleColumnMapper (forType : type) (dst : holder) (rs : Rows)
    : outcome unit * holder * Rows :=
  match forRowsNextPut (S (length (pending rs))) (singleColumnRow convertAssign forType)
          (holderType dst) forType rs (holderElements dst) with
  | (Ok _, elements, rs) =>
      match Err rs with
      | Some e => (Fail e, mkHolder (holderType dst) elements, rs)
      | None =>
          let '(e, rs) := Close rs in
          (from_option Fail (Ok ()) e, mkHolder (holderType dst) elements, rs)
      end
  | (r, elements, rs) => (r, mkHolder (holderType dst) elements, rs)
  end.

Lemma putToHolder_inject dstHolderType sliceElem valueType v elements :
  prepareInjector dstHolderType = Ok sliceElem ->
  putToHolder dstHolderType valueType v elements =
  inject sliceElem valueType v elements.
Proof.
  induction dstHolderType as [k|e IH|e _|nm sc fs _] using type_fields_ind;
    simpl; try discriminate.
  - exact IH.
  - intros [= ->]. reflexivity.
Qed.

Lemma forRowsNextPut_forRowsNext row dstHolderType sliceElem valueType :
  prepareInjector dstHolderType = Ok sliceElem ->
  forall fuel rs elements,
    forRowsNextPut fuel row dstHolderType valueType rs elements =
    forRowsNext fuel row sliceElem valueType rs elements.
Proof.
  intros Hinj. induction fuel as [|fuel IH]; intros rs elements; [reflexivity|].
  cbn [forRowsNextPut forRowsNext]. destruct (Next rs) as [[] rs']; [|reflexivity].
  destruct (row rs') as [holderElement|e| |]; try reflexivity.
  rewrite (putToHolder_inject _ _ _ _ _ Hinj). unfold inject.
  destruct (bool_decide (valueType = sliceElem)); [apply IH | reflexivity].
Qed.

(** On a holder that is a slice behind pointers, as the holders are that
    Propagate lets through, the single-column mapper of the older variant
    does what the one of the current variant does: the same result, the
    same elements appended, the same rows read, and the stream closed in
    the same cases, so that a scan error leaves it open here as well. *)
Theorem older_single_column_mapper_agrees forType dst rs sliceElem :
  prepareInjector (holderType dst) = Ok sliceElem ->
  runSingleColumnMapper forType dst rs =
  runSingleColumn convertAssign forType dst rs.
Proof.
  intros Hinj. unfold runSingleColumnMapper, runSingleColumn. rewrite Hinj.
  rewrite (forRowsNextPut_forRowsNext _ _ _ _ Hinj). reflexivity.
Qed.

(** The registry [smallestStructDecompositions] during the run. *)
Variable reg : list type.

(** The mapper [createMappers] returns for a record type: every row gets
    its provider from [getStructProviderSync], which is the
    [getOrCreateSync] of the structProvideManager above, word for word;
    the rows are closed when the provider cannot be had, when it fails and
    when [putToHolder] fails. *)
Fixpoint forRowsNextProvide (fuel : nat) (holderSuppliers : list holderSupplier)
    (holderElementType dstHolderType : type) (tsp : providers) (rs : Rows)
    (elements : list value) : outcome unit * list value * Rows * providers :=
  match fuel with
  | 0 => (Hang, elements, rs, tsp)
  | S fuel' =>
      let '(more, rs) := Next rs in
      if more then
        match getOrCreateSync reg tsp holderElementType with
        | (Ok provider, tsp) =>
            match runProvider provider with
            | Ok holderElement =>
                match
                  ('(t, underlyingValue, levels) ←
                     unwrapPtrStructValue (providedType provider) holderElement;
                   holderElementFields ← supplyAll t underlyingValue holderSuppliers;
                   scanned ← Scan convertAssign rs holderElementFields underlyingValue;
                   Ok (wrapPtr levels scanned))
                with
                | Ok holderElement =>
                    match putToHolder dstHolderType (providedType provider)
                            holderElement elements with
                    | Ok elements' =>
                        forRowsNextProvide fuel' holderSuppliers holderElementType
                          dstHolderType tsp rs elements'
                    | Fail e => (Fail e, elements, snd (Close rs), tsp)
                    | Panic => (Panic, elements, rs, tsp)
                    | Hang => (Hang, elements, rs, tsp)
                    end
                | Fail e => (Fail e, elements, rs, tsp)
                | Panic => (Panic, elements, rs, tsp)
                | Hang => (Hang, elements, rs, tsp)
                end
            | Fail e => (Fail e, elements, snd (Close rs), tsp)
            | Panic => (Panic, elements, rs, tsp)
            | Hang => (Hang, elements, rs, tsp)
            end
        | (Fail e, tsp) => (Fail e, elements, snd (Close rs), tsp)
        | (Panic, tsp) => (Panic, elements, rs, tsp)
        | (Hang, tsp) => (Hang, elements, rs, tsp)
        end
      else (Ok (), elements, rs, tsp)
  end.

Definition runRecordMapper (holderSuppliers : list holderSupplier)
    (holderElementType : type) (tsp : providers) (dst : holder) (rs : Rows)
    : outcome unit * holder * Rows * providers :=
  match forRowsNextProvide (S (length (pending rs))) holderSuppliers
          holderElementType (holderType dst) tsp rs (holderElements dst) with
  | (Ok _, elements, rs, tsp) =>
      match Err rs with
      | Some e => (Fail e, mkHolder (holderType dst) elements, rs, tsp)
      | None =>
          let '(e, rs) := Close rs in
          (from_option Fail (Ok ()) e, mkHolder (holderType dst) elements, rs, tsp)
      end
  | (r, elements, rs, tsp) => (r, mkHolder (holderType dst) elements, rs, tsp)
  end.

Lemma getOrCreateSync_again tsp t p tsp' :
  getOrCreateSync reg tsp t = (Ok p, tsp') ->
  getOrCreateSync reg tsp' t = (Ok p, tsp').
Proof.
  unfold getOrCreateSync at 1. destruct (providerOf tsp t) as [q|] eqn:Hq.
  - intros [= <- <-]. unfold getOrCreateSync. rewrite Hq. reflexivity.
  - intros Hrun.
    destruct (creating_caches reg t (proj2 (creating_all reg t)) _ _ _ Hrun)
      as [_ Hcached].
    unfold getOrCreateSync. rewrite (Hcached p eq_refl). reflexivity.
Qed.

Lemma multiColumnRow_unfold hs p rs :
  multiColumnRow convertAssign hs p rs =
  match runProvider p with
  | Ok holderElement =>
      '(t, underlyingValue, levels) ←
        unwrapPtrStructValue (providedType p) holderElement;
      holderElementFields ← supplyAll t underlyingValue hs;
      scanned ← Scan convertAssign rs holderElementFields underlyingValue;
      Ok (wrapPtr levels scanned)
  | Fail e => Fail e
  | Panic => Panic
  | Hang => Hang
  end.
Proof. unfold multiColumnRow. destruct (runProvider p); reflexivity. Qed.

Lemma forRowsNextProvide_forRowsNext hs t dstHolderType sliceElem p tsp :
  prepareInjector dstHolderType = Ok sliceElem ->
  getOrCreateSync reg tsp t = (Ok p, tsp) ->
  forall fuel rs elements,
    fst (forRowsNextProvide fuel hs t dstHolderType tsp rs elements) =
    forRowsNext fuel (multiColumnRow convertAssign hs p) sliceElem (providedType p)
      rs elements.
Proof.
  intros Hinj Hp. induction fuel as [|fuel IH]; intros rs elements; [reflexivity|].
  cbn [forRowsNextProvide forRowsNext]. destruct (Next rs) as [[] rs']; [|reflexivity].
  rewrite Hp, multiColumnRow_unfold.
  destruct (runProvider p) as [holderElement|e| |] eqn:Hrun; try reflexivity.
  2: destruct (runProvider_no_Fail _ _ Hrun).
  match goal with
  | |- context [match ?body with Ok _ => _ | Fail _ => _ | Panic => _ | Hang => _ end] =>
      destruct body as [made|e| |]; try reflexivity
  end.
  rewrite (putToHolder_inject _ _ _ _ _ Hinj). unfold inject.
  destruct (bool_decide (providedType p = sliceElem)); [apply IH | reflexivity].
Qed.

Lemma forRowsNext_Ok_closed row sliceElem valueType fuel rs elements elements' rs' :
  forRowsNext fuel row sliceElem valueType rs elements = (Ok (), elements', rs') ->
  closed rs' = true.
Proof.
  destruct (closed rs) eqn:Hclosed.
  - destruct fuel as [|fuel]; [discriminate|]. cbn [forRowsNext]. unfold Next.
    rewrite Hclosed. intros [= _ <-]. exact Hclosed.
  - intros Hrun. exact (proj2 (proj2 (forRowsNext_Ok_end _ _ _ _ _ _ _ _ Hclosed Hrun))).
Qed.

(** On a holder that is a slice behind pointers, the record mapper of the
    older variant, which fetches the provider for every row, does what the
    one of the current variant does with the provider it was compiled
    with: the same result, elements and rows.  ([rows.Close()], which only
    the older mapper calls after the loop, finds the rows closed by the
    last [rows.Next()].) *)
Theorem older_record_mapper_agrees hs t dst rs sliceElem tsp p tsp' :
  prepareInjector (holderType dst) = Ok sliceElem ->
  getOrCreateSync reg tsp t = (Ok p, tsp') ->
  fst (runRecordMapper hs t tsp dst rs) =
  runMultiColumn convertAssign hs p dst rs.
Proof.
  intros Hinj Hp. pose proof (getOrCreateSync_again _ _ _ _ Hp) as Hagain.
  assert (Hloop : fst (forRowsNextProvide (S (length (pending rs))) hs t
                         (holderType dst) tsp rs (holderElements dst)) =
                  forRowsNext (S (length (pending rs)))
                    (multiColumnRow convertAssign hs p) sliceElem (providedType p)
                    rs (holderElements dst)).
  { cbn [forRowsNextProvide forRowsNext].
    destruct (Next rs) as [[] rs']; [|reflexivity].
    rewrite Hp, multiColumnRow_unfold.
    destruct (runProvider p) as [holderElement|e| |] eqn:Hrun; try reflexivity.
    2: destruct (runProvider_no_Fail _ _ Hrun).
    match goal with
    | |- context [match ?body with Ok _ => _ | Fail _ => _ | Panic => _ | Hang => _ end] =>
        destruct body as [made|e| |]; try reflexivity
    end.
    rewrite (putToHolder_inject _ _ _ _ _ Hinj). unfold inject.
    destruct (bool_decide (providedType p = sliceElem)); [|reflexivity].
    apply (forRowsNextProvide_forRowsNext _ _ _ _ _ _ Hinj Hagain). }
  unfold runRecordMapper, runMultiColumn. rewrite Hinj, <- Hloop.
  destruct (forRowsNextProvide _ _ _ _ _ _ _) as [[[r elements] rs0] tsp0].
  cbn [fst] in *. destruct r as [[]|e| |]; try reflexivity.
  destruct (Err rs0) as [e|]; [reflexivity|].
  unfold Close. rewrite (forRowsNext_Ok_closed _ _ _ _ _ _ _ _ (eq_sym Hloop)).
  reflexivity.
Qed.

End OlderLoops.

End OlderMappers.

Lemma older_single_column_mapper_agrees_witness :
  OlderMappers.runSingleColumnMapper sampleConvertAssign intType
    (mkHolder (PtrTo (SliceOf intType)) [])
    (rowsOf [column "id" intType]
       [[sql.Int64Value 1]; [sql.Null]; [sql.Int64Value 3]]) =
  (Fail (ErrScan 0), mkHolder (PtrTo (SliceOf intType)) [VData (sql.Int64Value 1)],
   mkRows [column "id" intType] [[sql.Int64Value 3]] None None (Some [sql.Null])
     None false).
Proof.
  rewrite (OlderMappers.older_single_column_mapper_agrees sampleConvertAssign intType
             (mkHolder (PtrTo (SliceOf intType)) []) _ intType eq_refl).
  vm_compute. reflexivity.
Defined.

Lemma older_record_mapper_agrees_witness :
  let hs := [holderByFieldIndexPath [0]; holderByFieldIndexPath [1]] in
  let dst := mkHolder (PtrTo (SliceOf valStruct)) [] in
  let rs := rowsOf [column "id" intType; column "col1" stringType]
              [[sql.Int64Value 1; sql.StringValue "a"]] in
  exists p tsp',
    getOrCreateSync [time_Time; time_Location] [] valStruct = (Ok p, tsp') /\
    fst (OlderMappers.runRecordMapper sampleConvertAssign [time_Time; time_Location]
           hs valStruct [] dst rs) =
    runMultiColumn sampleConvertAssign hs p dst rs /\
    fst (fst (runMultiColumn sampleConvertAssign hs p dst rs)) = Ok ().
Proof.
  intros hs dst rs.
  destruct (getOrCreateSync [time_Time; time_Location] [] valStruct)
    as [[p|e| |] tsp'] eqn:Hp; try (vm_compute in Hp; discriminate).
  exists p, tsp'. split; [reflexivity|]. split.
  - exact (OlderMappers.older_record_mapper_agrees sampleConvertAssign
             [time_Time; time_Location] hs valStruct dst rs valStruct [] p tsp'
             eq_refl Hp).
  - vm_compute in Hp. injection Hp as <- _. vm_compute. reflexivity.
Defined.

(** ** The element type of a destination *)

(** [n] slices around a type. *)
Fixpoint SliceOfTimes (n : nat) (t : type) : type :=
  match n with
  | 0 => t
  | S n => SliceOf (SliceOfTimes n t)
  end.

(** The kinds [elementType] has no element for. *)
Definition unsupportedKind (k : reflect.Kind) : bool :=
  match k with
  | reflect.Map | reflect.Chan | reflect.Func | reflect.Invalid
  | reflect.Interface | reflect.UnsafePointer | reflect.Array => true
  | _ => false
  end.

Lemma elementType_loop_unwraps dstType inspection :
  exists n e,
    inspection = SliceOfTimes n e /\
    match e with
    | SliceOf b =>
        Kind b = reflect.Uint8 /\ elementType_loop dstType inspection = Ok e
    | _ =>
        (n = 0 \/ Kind e ≠ reflect.Uint8) /\
        elementType_loop dstType inspection =
          if unsupportedKind (Kind e) then Fail (ErrUnsupportedType dstType)
          else Ok e
    end.
Proof.
  induction inspection as [k|el _|el IH|nm sc fs _] using type_fields_ind.
  - exists 0, (Opaque k). split; [reflexivity|]. split; [left; reflexivity|].
    destruct k; reflexivity.
  - exists 0, (PtrTo el). split; [reflexivity|]. split; [left; reflexivity|].
    reflexivity.
  - cbn [elementType_loop]. destruct (bool_decide (Kind el = reflect.Uint8)) eqn:Hb.
    + exists 0, (SliceOf el). split; [reflexivity|].
      split; [exact (bool_decide_eq_true_1 _ Hb) | reflexivity].
    + apply bool_decide_eq_false in Hb.
      destruct IH as (n & e & -> & He). exists (S n), e. split; [reflexivity|].
      destruct e as [k|x|b|nm sc fs]; try exact He;
        destruct He as [Hn He]; (split; [right|exact He]);
        (destruct Hn as [->|Hk]; [exact Hb | exact Hk]).
  - exists 0, (StructOf nm sc fs). split; [reflexivity|].
    split; [left; reflexivity | reflexivity].
Qed.

(** [elementType] always returns.  It takes the slices off a type down to
    the first slice of bytes, which is an element of its own, or down to
    the type under all of them; for that type it has an element unless the
    kind is one of map, chan, func, interface, unsafe pointer, array and
    invalid, and then the error names the type it was called with.  So the
    element of a slice of slices is the element of the inner slice. *)
Theorem element_type_takes_every_slice_off t :
  exists n e,
    t = SliceOfTimes n e /\
    match e with
    | SliceOf b => Kind b = reflect.Uint8 /\ elementType t = Ok e
    | _ =>
        (n = 0 \/ Kind e ≠ reflect.Uint8) /\
        elementType t =
          if unsupportedKind (Kind e) then Fail (ErrUnsupportedType t) else Ok e
    end.
Proof. unfold elementType. apply elementType_loop_unwraps. Qed.

(** ** Calls that are turned down *)

(** The errors of a call that is turned down before a row is read: the
    destination is no pointer to a slice, its element type is unsupported,
    or a strictness check refuses a column. *)
Definition turnedDown (e : error) : bool :=
  match e with
  | ErrPointerToSliceExpected _ | ErrUnsupportedType _
  | ErrTypeCheck _ _ _ | ErrNoMapping _ => true
  | _ => false
  end.

Lemma withProviders_same st : withProviders st (structProviderMgr st) = st.
Proof. destruct st. reflexivity. Qed.

(** A call that is turned down, for a closed stream, for its destination or
    by a strictness check, changes nothing: the destination and the stream
    are as they were, and so is the package, with no scan definition and no
    provider cached for the plan that did not compile. *)
Theorem call_turned_down_changes_nothing convertAssign st dst rows e :
  reachable st -> ownErrors rows ->
  result (Propagate convertAssign st dst rows) = Fail e ->
  closed rows = true \/ turnedDown e = true ->
  let after := Propagate convertAssign st dst rows in
  stateAfter after = st /\ dstAfter after = dst /\ rowsAfter after = rows.
Proof.
  intros Hreach Hown Hresult Hwhy after. subst after.
  pose proof (reachable_sound st Hreach) as Hsound.
  revert Hresult. unfold Propagate, ColumnTypes.
  destruct (closed rows) eqn:Hclosed; [intros _; repeat split|].
  destruct Hwhy as [Habs|Hwhy]; [discriminate|].
  destruct (holderType dst) as [k|[k|E|E|nm sc fs]|E|nm sc fs] eqn:Hty;
    try solve [intros _; repeat split].
  destruct (elementType (SliceOf E)) as [et|err| |] eqn:Helem;
    try solve [intros _; repeat split].
  destruct (scanDefinitionsGetOrCreateSync st et (columns rows))
    as [[d|err| |] st'] eqn:Hplan; try discriminate.
  - destruct (runMapper convertAssign (mapper d) dst rows) as [[r dst'] rows'] eqn:Hrun.
    cbn [result]. intros ->. exfalso.
    destruct (runMapper_Fail _ _ _ _ _ _ _ Hclosed Hrun)
      as [Hinj|[Hdriver|(cells & Hin & Hel)]].
    + rewrite Hty in Hinj. discriminate.
    + destruct (Hown e (eq_sym Hdriver)) as (msg & ->). discriminate.
    + pose proof (scanDefinitionsGetOrCreateSync_sound _ _ _ _ _ Hsound Hplan)
        as [_ Hplans].
      destruct (scanDefinitionsGetOrCreateSync_columns _ _ _ _ _ Hplan) as [_ Hcached].
      assert (Hfail : scanFailure (mapper d) cells e).
      { apply (elementOf_Fail convertAssign et); [|exact Hel].
        destruct (mapper d) as [forType|hs p] eqn:Hm; [exact I|].
        exact (proj1 (Hplans et d hs p Hcached Hm)). }
      destruct e; try contradiction; discriminate.
  - intros [= <-]. cbn [stateAfter dstAfter rowsAfter].
    split; [|split; reflexivity].
    rewrite scanDefinitionsGetOrCreateSync_unfold in Hplan.
    destruct (find (scanDefinitionsMgr st) et (columns rows)); [discriminate|].
    revert Hplan. unfold create, createRowsMapper, multiColumnMapper.
    destruct (isSingleBasicType (smallestStructDecompositions st) et); [discriminate|].
    destruct (createHolderSuppliers _ _ et (columns rows)) as [hs|e0| |] eqn:Hhs;
      try discriminate.
    + destruct Hsound as [Hprov _].
      destruct (getOrCreateSync_structured (smallestStructDecompositions st)
                  (structProviderMgr st) et (createHolderSuppliers_rooted _ _ _ _ _ Hhs)
                  Hprov)
        as (p0 & tsp' & Hrun & _). rewrite Hrun. discriminate.
    + intros [= _ <-]. apply withProviders_same.
Qed.

Lemma call_turned_down_changes_nothing_witness :
  let st := StrictColumnAmountCheck true initialState in
  let dst := mkHolder (PtrTo (SliceOf valStruct)) [] in
  let after := Propagate sampleConvertAssign st dst unmatched in
  result after = Fail (ErrNoMapping "zzz") /\
  stateAfter after = st /\ dstAfter after = dst /\ rowsAfter after = unmatched.
Proof.
  intros st dst after. split; [vm_compute; reflexivity|].
  apply (call_turned_down_changes_nothing sampleConvertAssign st dst unmatched
           (ErrNoMapping "zzz")).
  - apply reachable_StrictColumnAmountCheck, reachable_init.
  - intros e. discriminate.
  - vm_compute. reflexivity.
  - right. reflexivity.
Defined.
